(** * GBV pilot study simulator: response extraction and journey engine

    A shallow embedding of [gbv-pilot-study/utils.py] (the three response
    parsers) and of [simulate_mvp.py] (decision resolution, scenario and
    journey traversal, the runner and the result file), with the properties
    of the specification stated over it.

    Text is modelled as [string]: a sequence of code points below 256.  On
    that range the Python classes used by the source are
      - [\s] and [str.strip]: 9-13, 28-32, 133, 160;
      - [\d]: 48-57;
      - [str.lower] and case-insensitive matching: A-Z and 192-222 (but 215)
        move up by 32. *)

From Stdlib Require Import String Ascii ZArith NArith List Bool Lia DecimalString.
From stdpp Require Import gmap strings.
Import ListNotations.

Local Open Scope string_scope.
Local Open Scope list_scope.

(* ===================================================================== *)
(** ** Python values, exceptions and string primitives *)
(* ===================================================================== *)

Module Py.

(** The exception classes that the modelled code can meet; each is a
    subclass of [Exception]. *)
Inductive exn_kind :=
| KeyError | IndexError | ValueError | AttributeError | TypeError | RuntimeError.

(** An exception: its class and [str(e)]. *)
Record exn := Exn { kind : exn_kind; message : string }.

Inductive result (A : Type) :=
| Ok (a : A)
| Err (e : exn).
Arguments Ok {A} a.
Arguments Err {A} e.

Definition rbind {A B} (r : result A) (f : A -> result B) : result B :=
  match r with
  | Ok a => f a
  | Err e => Err e
  end.

#[global] Instance result_ret : MRet result := @Ok.
#[global] Instance result_bind : MBind result := fun A B f r => rbind r f.

(** What a parser may be handed: [None], a [str], or any other object.  Of
    an object that is no string the parsers take the truth value and
    [str()]; either runs a method of the object, which may raise, and
    nothing makes two truth tests of one object agree.  So such an object is
    given by what its truth tests do, one after the other, and by what its
    [str()] does.  A [str] is one whose class leaves the methods of [str] as
    they are. *)
Inductive pyval :=
| PyNone
| PyStr (s : string)
| PyOther (truth : nat -> result bool) (text : result string).

(** [bool(v)], taken for the [n]-th time (from 0) *)
Definition truthy_of (v : pyval) (n : nat) : result bool :=
  match v with
  | PyNone => Ok false
  | PyStr s => Ok (negb (String.eqb s ""))
  | PyOther truth _ => truth n
  end.

(** [isinstance(v, str)] *)
Definition is_str (v : pyval) : bool :=
  match v with
  | PyStr _ => true
  | _ => false
  end.

(** [str(v)] *)
Definition str_of (v : pyval) : result string :=
  match v with
  | PyNone => Ok "None"
  | PyStr s => Ok s
  | PyOther _ text => text
  end.



(** The characters of a [str]; it is asked for strings only. *)
Definition chars_of (v : pyval) : string :=
  match v with
  | PyStr s => s
  | _ => ""
  end.

Definition code (c : ascii) : N := N_of_ascii c.

Definition between (lo hi n : N) : bool := (lo <=? n)%N && (n <=? hi)%N.

(** [c.isspace()], also the class [\s] *)
Definition is_space (c : ascii) : bool :=
  let n := code c in
  between 9 13 n || between 28 32 n || (n =? 133)%N || (n =? 160)%N.

(** [c.isdecimal()], also the class [\d] *)
Definition is_digit (c : ascii) : bool := between 48 57 (code c).

(** Lower case of one code point. *)
Definition lower (c : ascii) : ascii :=
  let n := code c in
  if between 65 90 n || (between 192 222 n && negb (n =? 215)%N)
  then ascii_of_N (n + 32) else c.

(** Upper case of one code point, as a string: [ß] becomes [SS].  The
    capitals of code points 181 and 255 lie above 255; they are left as they
    are, and no caller applies [upper] to them. *)
Definition upper (c : ascii) : string :=
  let n := code c in
  if between 97 122 n || (between 224 254 n && negb (n =? 247)%N)
  then String (ascii_of_N (n - 32)) ""
  else if (n =? 223)%N then "SS"
  else String c "".

(** [s.lower()] *)
Fixpoint str_lower (s : string) : string :=
  match s with
  | EmptyString => EmptyString
  | String c t => String (lower c) (str_lower t)
  end.

(** [s.upper()] *)
Fixpoint str_upper (s : string) : string :=
  match s with
  | EmptyString => EmptyString
  | String c t => upper c ++ str_upper t
  end.

(** [s.lstrip()] *)
Fixpoint lstrip (s : string) : string :=
  match s with
  | EmptyString => EmptyString
  | String c t => if is_space c then lstrip t else s
  end.

(** [s.rstrip()] *)
Fixpoint rstrip (s : string) : string :=
  match s with
  | EmptyString => EmptyString
  | String c t =>
      match rstrip t with
      | EmptyString => if is_space c then EmptyString else String c EmptyString
      | t' => String c t'
      end
  end.

(** [s.strip()] *)
Definition strip (s : string) : string := rstrip (lstrip s).

(** [needle in hay] *)
Fixpoint contains (needle hay : string) : bool :=
  if String.prefix needle hay then true
  else match hay with
       | EmptyString => false
       | String _ t => contains needle t
       end.

(** [sep.join(l)] *)
Fixpoint join (sep : string) (l : list string) : string :=
  match l with
  | [] => ""
  | [x] => x
  | x :: t => x ++ sep ++ join sep t
  end.

(** [l[i]] *)
Definition index {A} (l : list A) (i : nat) : result A :=
  match nth_error l i with
  | Some a => Ok a
  | None => Err (Exn IndexError "list index out of range")
  end.

(** The digits of [int()]: a run of decimal digits in which single
    underscores may separate digits.  [acc] is the value so far, [prev]
    tells whether the previous character was a digit. *)
Fixpoint int_digits (s : string) (acc : Z) (prev : bool) : option Z :=
  match s with
  | EmptyString => if prev then Some acc else None
  | String c t =>
      if is_digit c then int_digits t (10 * acc + (Z.of_N (code c) - 48)) true
      else if Ascii.eqb c "_" then
        if prev then
          match t with
          | EmptyString => None
          | String _ _ => int_digits t acc false
          end
        else None
      else None
  end.

(** The white space that [int()] skips: below 127 the characters of C's
    [isspace], which leaves out 28-31, and above it those of [isspace()]. *)
Definition is_int_space (c : ascii) : bool :=
  let n := code c in
  between 9 13 n || (n =? 32)%N || (n =? 133)%N || (n =? 160)%N.

Fixpoint int_lstrip (s : string) : string :=
  match s with
  | EmptyString => EmptyString
  | String c t => if is_int_space c then int_lstrip t else s
  end.

Fixpoint int_rstrip (s : string) : string :=
  match s with
  | EmptyString => EmptyString
  | String c t =>
      match int_rstrip t with
      | EmptyString => if is_int_space c then EmptyString else String c EmptyString
      | t' => String c t'
      end
  end.

Definition quote : ascii := "039"%char.          (* ' *)
Definition double_quote : ascii := "034"%char.
Definition backslash : ascii := "092"%char.

(** [c in s] for a character *)
Fixpoint has_char (c : ascii) (s : string) : bool :=
  match s with
  | EmptyString => false
  | String x t => Ascii.eqb x c || has_char c t
  end.

(** [c.isprintable()] *)
Definition is_printable (c : ascii) : bool :=
  let n := code c in
  between 32 126 n || (between 161 255 n && negb (n =? 173)%N).

Definition hex_digit (n : N) : ascii :=
  if (n <? 10)%N then ascii_of_N (48 + n) else ascii_of_N (87 + n).

(** How [repr] shows one character inside the quotes [q]. *)
Definition repr_char (q c : ascii) : string :=
  let n := code c in
  if Ascii.eqb c q || Ascii.eqb c backslash then String backslash (String c "")
  else if (n =? 9)%N then String backslash "t"
  else if (n =? 10)%N then String backslash "n"
  else if (n =? 13)%N then String backslash "r"
  else if is_printable c then String c ""
  else String backslash
         (String "x" (String (hex_digit (n / 16)) (String (hex_digit (n mod 16)) ""))).

Fixpoint repr_chars (q : ascii) (s : string) : string :=
  match s with
  | EmptyString => EmptyString
  | String c t => repr_char q c ++ repr_chars q t
  end.

(** [repr(s)] of a string, which is also [str(KeyError(s))]: in single
    quotes, or in double quotes when [s] has a single quote and no double
    one; the quote, the backslash and what is not printable are escaped. *)
Definition repr (s : string) : string :=
  let q := if has_char quote s && negb (has_char double_quote s)
           then double_quote else quote in
  String q (repr_chars q s ++ String q "").

(** [int(s)] on a string: surrounding white space, an optional sign, then
    the digits. *)
Definition int (s : string) : result Z :=
  let body := int_rstrip (int_lstrip s) in
  let parse sign digits :=
    match int_digits digits 0 false with
    | Some v => Ok (sign * v)%Z
    | None =>
        Err (Exn ValueError ("invalid literal for int() with base 10: " ++ repr s))
    end in
  match body with
  | String "+" t => parse 1%Z t
  | String "-" t => parse (-1)%Z t
  | _ => parse 1%Z body
  end.

End Py.

(* ===================================================================== *)
(** ** The fragment of [re] used by the parsers *)
(* ===================================================================== *)

Module Re.
Import Py.

Record flags := Flags { IGNORECASE : bool; MULTILINE : bool; DOTALL : bool }.

(** A member of a bracketed class. *)
Inductive atom :=
| AChar (c : ascii)
| ARange (lo hi : ascii)
| ASpace                         (* \s *)
| ADigit.                        (* \d *)

(** What matches one character. *)
Inductive item :=
| IAny                           (* . *)
| IChr (c : ascii)               (* a literal *)
| ISet (l : list atom).          (* [...], \s, \d *)

(** Every repetition in the source's patterns is over one character, so
    [Star] takes an [item].  Each pattern has one capturing group. *)
Inductive regex :=
| Eps
| One (i : item)
| Seq (r1 r2 : regex)
| Alt (r1 r2 : regex)            (* r1|r2 *)
| Star (greedy : bool) (i : item) (* i* and i*? *)
| Group (r : regex)              (* (r), group 1 *)
| Bol                            (* ^ *)
| Eol                            (* $ *)
| Look (r : regex).              (* (?=r) *)

Definition newline : ascii := "010"%char.

Definition chr_match (fl : flags) (c x : ascii) : bool :=
  if IGNORECASE fl then Ascii.eqb (lower x) (lower c) else Ascii.eqb x c.

(** The code points [lo..hi]. *)
Definition range_chars (lo hi : ascii) : list ascii :=
  map (fun k => ascii_of_N (code lo + N.of_nat k))
      (seq 0 (N.to_nat (code hi + 1 - code lo))).

(** Under IGNORECASE a class is compiled to the lower case of its members
    and tested against the lower case of the character. *)
Definition atom_match (fl : flags) (x : ascii) (a : atom) : bool :=
  match a with
  | AChar c => chr_match fl c x
  | ARange lo hi =>
      if IGNORECASE fl
      then existsb (fun c => Ascii.eqb (lower x) (lower c)) (range_chars lo hi)
      else between (code lo) (code hi) (code x)
  | ASpace => is_space x
  | ADigit => is_digit x
  end.

Definition item_match (fl : flags) (i : item) (x : ascii) : bool :=
  match i with
  | IAny => DOTALL fl || negb (Ascii.eqb x newline)
  | IChr c => chr_match fl c x
  | ISet l => existsb (atom_match fl x) l
  end.

(** [^]: the start of the text, and after each newline under MULTILINE. *)
Definition at_bol (fl : flags) (prev : option ascii) : bool :=
  match prev with
  | None => true
  | Some c => MULTILINE fl && Ascii.eqb c newline
  end.

(** [$]: the end of the text and before a newline that ends it; before
    every newline under MULTILINE. *)
Definition at_eol (fl : flags) (s : string) : bool :=
  match s with
  | EmptyString => true
  | String c t =>
      Ascii.eqb c newline &&
      (MULTILINE fl || match t with EmptyString => true | _ => false end)
  end.

(** A position in the text: the character before it (if any) and the text
    from it on; with it travels the text of group 1, once set. *)
Record mstate := MState {
  st_prev : option ascii;
  st_rest : string;
  st_group : option string
}.

Definition cont := option ascii -> string -> option string -> option mstate.

(** The characters of [s] that come before its suffix [s']. *)
Definition consumed (s s' : string) : string :=
  substring 0 (String.length s - String.length s') s.

(** [i*] and [i*?] from a position, then [k]: the greedy form first tries
    one more character, the lazy form first tries to go on with [k]. *)
Fixpoint star (fl : flags) (greedy : bool) (i : item) (k : cont)
    (p : option ascii) (s : string) (g : option string) {struct s}
  : option mstate :=
  match s with
  | EmptyString => k p s g
  | String x t =>
      if item_match fl i x then
        if greedy then
          match star fl greedy i k (Some x) t g with
          | Some m => Some m
          | None => k p s g
          end
        else
          match k p s g with
          | Some m => Some m
          | None => star fl greedy i k (Some x) t g
          end
      else k p s g
  end.

(** Backtracking matcher in continuation-passing style: alternatives are
    tried in the order the pattern gives them, and the first way through to
    the end of the pattern wins. *)
Fixpoint mtch (fl : flags) (r : regex) (k : cont)
    (p : option ascii) (s : string) (g : option string) {struct r}
  : option mstate :=
  match r with
  | Eps => k p s g
  | One i =>
      match s with
      | String x t => if item_match fl i x then k (Some x) t g else None
      | EmptyString => None
      end
  | Seq r1 r2 => mtch fl r1 (mtch fl r2 k) p s g
  | Alt r1 r2 =>
      match mtch fl r1 k p s g with
      | Some m => Some m
      | None => mtch fl r2 k p s g
      end
  | Star greedy i => star fl greedy i k p s g
  | Group r1 =>
      mtch fl r1 (fun p' s' _ => k p' s' (Some (consumed s s'))) p s g
  | Bol => if at_bol fl p then k p s g else None
  | Eol => if at_eol fl s then k p s g else None
  | Look r1 =>
      match mtch fl r1 (fun p' s' g' => Some (MState p' s' g')) p s g with
      | Some _ => k p s g
      | None => None
      end
  end.

(** What it is for a pattern to match between two positions, told without
    the order in which the matcher tries things: from position [(p, s)] with
    group [g] to position [(p', s')] with group [g']. *)
Inductive matches (fl : flags)
  : regex -> option ascii -> string -> option string ->
    option ascii -> string -> option string -> Prop :=
| matches_eps p s g :
    matches fl Eps p s g p s g
| matches_one i x p t g :
    item_match fl i x = true ->
    matches fl (One i) p (String x t) g (Some x) t g
| matches_seq r1 r2 p s g p1 s1 g1 p2 s2 g2 :
    matches fl r1 p s g p1 s1 g1 ->
    matches fl r2 p1 s1 g1 p2 s2 g2 ->
    matches fl (Seq r1 r2) p s g p2 s2 g2
| matches_alt_l r1 r2 p s g p' s' g' :
    matches fl r1 p s g p' s' g' ->
    matches fl (Alt r1 r2) p s g p' s' g'
| matches_alt_r r1 r2 p s g p' s' g' :
    matches fl r2 p s g p' s' g' ->
    matches fl (Alt r1 r2) p s g p' s' g'
| matches_star_stop greedy i p s g :
    matches fl (Star greedy i) p s g p s g
| matches_star_more greedy i x p t g p' s' g' :
    item_match fl i x = true ->
    matches fl (Star greedy i) (Some x) t g p' s' g' ->
    matches fl (Star greedy i) p (String x t) g p' s' g'
| matches_group r p s g p' s' g' :
    matches fl r p s g p' s' g' ->
    matches fl (Group r) p s g p' s' (Some (consumed s s'))
| matches_bol p s g :
    at_bol fl p = true ->
    matches fl Bol p s g p s g
| matches_eol p s g :
    at_eol fl s = true ->
    matches fl Eol p s g p s g
| matches_look r p s g p' s' g' :
    matches fl r p s g p' s' g' ->
    matches fl (Look r) p s g p s g.

(** The character before the position reached by reading [u] from a
    position that has [p] before it. *)
Fixpoint prev_after (p : option ascii) (u : string) : option ascii :=
  match u with
  | EmptyString => p
  | String x t => prev_after (Some x) t
  end.

(** A pattern in which every way through passes a group. *)
Fixpoint sets_group (r : regex) : bool :=
  match r with
  | Group _ => true
  | Seq r1 r2 => sets_group r1 || sets_group r2
  | Alt r1 r2 => sets_group r1 && sets_group r2
  | _ => false
  end.

Definition accept : cont := fun p s g => Some (MState p s g).

(** A match object: where the match began, and the state at its end. *)
Record re_match := ReMatch {
  m_start : string;
  m_end : mstate
}.

(** [m.group(1)]: [None] when the group took no part in the match. *)
Definition group1 (m : re_match) : option string := st_group (m_end m).

(** The scan of [re.search]: the first start position, left to right, from
    which the pattern matches. *)
Fixpoint search_from (fl : flags) (r : regex) (p : option ascii) (s : string)
  : option re_match :=
  match mtch fl r accept p s None with
  | Some e => Some (ReMatch s e)
  | None =>
      match s with
      | EmptyString => None
      | String x t => search_from fl r (Some x) t
      end
  end.

(** [re.search(r, s, fl)] *)
Definition search (fl : flags) (r : regex) (s : string) : option re_match :=
  search_from fl r None s.

(** The loop of [re.findall] for a pattern with one group: the group of each
    match, the scan resuming where the match ended (one character further
    on after an empty match). *)
Fixpoint findall_from (fuel : nat) (fl : flags) (r : regex)
    (p : option ascii) (s : string) : list string :=
  match fuel with
  | O => []
  | S fuel' =>
      match search_from fl r p s with
      | None => []
      | Some m =>
          let e := m_end m in
          let hit := match st_group e with Some t => t | None => "" end in
          if Nat.ltb (String.length (st_rest e)) (String.length (m_start m))
          then hit :: findall_from fuel' fl r (st_prev e) (st_rest e)
          else match m_start m with
               | EmptyString => [hit]
               | String x t => hit :: findall_from fuel' fl r (Some x) t
               end
      end
  end.

(** [re.findall(r, s, fl)] *)
Definition findall (fl : flags) (r : regex) (s : string) : list string :=
  findall_from (S (String.length s)) fl r None s.

(** A literal word. *)
Fixpoint lit (w : string) : regex :=
  match w with
  | EmptyString => Eps
  | String c EmptyString => One (IChr c)
  | String c t => Seq (One (IChr c)) (lit t)
  end.

(** A sequence of pattern parts. *)
Fixpoint cat (l : list regex) : regex :=
  match l with
  | [] => Eps
  | [r] => r
  | r :: t => Seq r (cat t)
  end.

Definition space : item := ISet [ASpace].
Definition digit : item := ISet [ADigit].

(** [i+] and [i+?] *)
Definition plus (greedy : bool) (i : item) : regex := Seq (One i) (Star greedy i).

End Re.

(* ===================================================================== *)
(** ** utils.py: the response parsers *)
(* ===================================================================== *)

Module Utils.
Import Py Re.

Definition I : flags := Flags true false false.      (* re.IGNORECASE *)
Definition I_S : flags := Flags true false true.     (* re.IGNORECASE | re.DOTALL *)
Definition M : flags := Flags false true false.      (* re.MULTILINE *)

(** [CHOICE:\s*(.+?)(?:\n|REASONING|$)] *)
Definition character_choice_re : regex :=
  cat [lit "CHOICE:"; Star true space; Group (plus false IAny);
       Alt (One (IChr newline)) (Alt (lit "REASONING") Eol)].

(** [REASONING:\s*(.+?)$] *)
Definition reasoning_re : regex :=
  cat [lit "REASONING:"; Star true space; Group (plus false IAny); Eol].

(** [CHOICE:\s*([A-D])] *)
Definition decision_choice_re : regex :=
  cat [lit "CHOICE:"; Star true space; Group (One (ISet [ARange "A" "D"]))].

(** [^([A-D])[\.\):\s]] *)
Definition fallback_re : regex :=
  cat [Bol; Group (One (ISet [ARange "A" "D"]));
       One (ISet [AChar "."; AChar ")"; AChar ":"; ASpace])].

(** [Rate:\s*(\d)] *)
Definition ratings_pattern : regex :=
  cat [lit "Rate:"; Star true space; Group (One digit)].

(** [N\..*?Explain:\s*(.+?)(?=\n\d+\.|$)] and its [Answer:] twin. *)
Definition question_re (number marker : string) : regex :=
  cat [lit number; One (IChr "."); Star false IAny; lit marker;
       Star true space; Group (plus false IAny);
       Look (Alt (cat [One (IChr newline); plus true digit; One (IChr ".")]) Eol)].

(** [m.group(1).strip()]; on an unset group [.strip()] has no receiver. *)
Definition group_strip (m : re_match) : result string :=
  match group1 m with
  | Some t => Ok (strip t)
  | None => Err (Exn AttributeError "'NoneType' object has no attribute 'strip'")
  end.

(** [m.group(1).upper()] *)
Definition group_upper (m : re_match) : result string :=
  match group1 m with
  | Some t => Ok (str_upper t)
  | None => Err (Exn AttributeError "'NoneType' object has no attribute 'upper'")
  end.

(** [m.group(1).strip() if m else dflt] *)
Definition strip_or (m : option re_match) (dflt : string) : result string :=
  match m with
  | Some m' => group_strip m'
  | None => Ok dflt
  end.

Definition roster : list string := ["Alex Chen"; "Jordan Williams"; "Sam Rivera"].

(** The [for char_name in ...: if ...: choice = char_name; break] loop. *)
Definition match_roster (choice : string) : string :=
  match find (fun char_name => contains (str_lower char_name) (str_lower choice)) roster with
  | Some char_name => char_name
  | None => choice
  end.

Definition parse_character_selection (response : pyval) : result (string * string) :=
  truthy ← truthy_of response 0;
  if negb truthy || negb (is_str response) then
    Ok ("Alex Chen", "Default selection due to invalid response")
  else
    let text := chars_of response in
    let choice_match := search I character_choice_re text in
    let reasoning_match := search I_S reasoning_re text in
    choice ← match choice_match with
             | Some m => c ← group_strip m; Ok (match_roster c)
             | None => Ok "Alex Chen"
             end;
    reasoning ← strip_or reasoning_match "Selected based on background";
    Ok (choice, reasoning).

Definition parse_decision_response (response : pyval) : result (string * string) :=
  truthy ← truthy_of response 0;
  if negb truthy || negb (is_str response) then
    Ok ("A", "Default choice due to invalid response")
  else
    let text := chars_of response in
    let choice_match := search I decision_choice_re text in
    let reasoning_match := search I_S reasoning_re text in
    choice ← match choice_match with
             | Some m => group_upper m
             | None =>
                 match search M fallback_re text with
                 | Some fallback => group_upper fallback
                 | None => Ok "A"
                 end
             end;
    reasoning ← strip_or reasoning_match "Default reasoning";
    Ok (choice, reasoning).

(** The feedback dictionary; its keys never change, so it is a record. *)
Record feedback := Feedback {
  realistic : Z;
  realistic_explain : string;
  felt_safe : Z;
  felt_safe_explain : string;
  helpful_feedback : Z;
  helpful_feedback_explain : string;
  would_recommend : Z;
  would_recommend_explain : string;
  confidence : Z;
  confidence_explain : string;
  most_valuable_scenario : string;
  likely_strategy : string;
  what_worked : string;
  improvements : string;
  cultural_relevance : string;
  raw_response : string
}.

(** [str(response) if response else ""] *)
Definition raw_text (response : pyval) : result string :=
  truthy ← truthy_of response 0;
  if negb truthy then Ok "" else str_of response.

(** The dictionary that [parse_feedback_response] starts from. *)
Definition default_feedback (raw : string) : feedback :=
  {| realistic := 3; realistic_explain := "";
     felt_safe := 3; felt_safe_explain := "";
     helpful_feedback := 3; helpful_feedback_explain := "";
     would_recommend := 3; would_recommend_explain := "";
     confidence := 3; confidence_explain := "";
     most_valuable_scenario := ""; likely_strategy := "";
     what_worked := ""; improvements := ""; cultural_relevance := "";
     raw_response := raw |}.

(** [int(ratings[i])] *)
Definition rating_at (ratings : list string) (i : nat) : result Z :=
  s ← index ratings i; int s.

(** The five ratings after [if len(ratings) >= 5: ...]. *)
Definition read_ratings (ratings : list string) (fb : feedback)
  : result (Z * Z * Z * Z * Z) :=
  if Nat.leb 5 (length ratings) then
    r0 ← rating_at ratings 0;
    r1 ← rating_at ratings 1;
    r2 ← rating_at ratings 2;
    r3 ← rating_at ratings 3;
    r4 ← rating_at ratings 4;
    Ok (r0, r1, r2, r3, r4)
  else Ok (realistic fb, felt_safe fb, helpful_feedback fb,
           would_recommend fb, confidence fb).

(** One [re.search(...)] / [if m: feedback[key] = m.group(1).strip()] step. *)
Definition answer (number marker text dflt : string) : result string :=
  strip_or (search I_S (question_re number marker) text) dflt.

Definition parse_feedback_response (response : pyval) : result feedback :=
  raw ← raw_text response;
  let fb := default_feedback raw in
  truthy ← truthy_of response 1;
  if negb truthy || negb (is_str response) then Ok fb
  else
    let text := chars_of response in
    let ratings := findall I ratings_pattern text in
    '(r0, r1, r2, r3, r4) ← read_ratings ratings fb;
    e1 ← answer "1" "Explain:" text (realistic_explain fb);
    e2 ← answer "2" "Explain:" text (felt_safe_explain fb);
    e3 ← answer "3" "Explain:" text (helpful_feedback_explain fb);
    e4 ← answer "4" "Explain:" text (would_recommend_explain fb);
    e5 ← answer "5" "Explain:" text (confidence_explain fb);
    a6 ← answer "6" "Answer:" text (most_valuable_scenario fb);
    a7 ← answer "7" "Answer:" text (likely_strategy fb);
    a8 ← answer "8" "Answer:" text (what_worked fb);
    a9 ← answer "9" "Answer:" text (improvements fb);
    a10 ← answer "10" "Answer:" text (cultural_relevance fb);
    Ok {| realistic := r0; realistic_explain := e1;
          felt_safe := r1; felt_safe_explain := e2;
          helpful_feedback := r2; helpful_feedback_explain := e3;
          would_recommend := r3; would_recommend_explain := e4;
          confidence := r4; confidence_explain := e5;
          most_valuable_scenario := a6; likely_strategy := a7;
          what_worked := a8; improvements := a9; cultural_relevance := a10;
          raw_response := raw_response fb |}.

End Utils.

(* ===================================================================== *)
(** ** config.py *)
(* ===================================================================== *)

Module Config.

Definition NUM_PERSONAS : nat := 12.
Definition RANDOM_SEED : Z := 42.
Definition NUM_SCENARIOS : nat := 5.

Definition SKILLS : list string :=
  ["warning_signs"; "direct_intervention"; "distraction";
   "support_survivor"; "know_resources"].

Definition OUTPUT_DIR : string := "outputs".
Definition RESULTS_FILE : string := "outputs/simulation_results.json".

End Config.

(* ===================================================================== *)
(** ** simulate_mvp.py: the simulator *)
(* ===================================================================== *)

Module Sim.
Import Py Config.

(** *** The scenario file

    [scenarios_map.json] is read with the keys the code uses; an object
    whose key order matters (the options of a decision point) is an
    association list in file order.  A file in which one of these keys is
    missing is not modelled: here a journey can raise through its agent,
    through a reply from which the text cannot be taken, through a skill-tag
    that is no key of the skill dictionary, and through a decision point
    without options. *)

Record choice_option := ChoiceOption {
  opt_text : string;
  opt_skills : list string;
  opt_feedback : string
}.

Record decision_point := DecisionPoint {
  dp_id : string;
  dp_prompt : string;
  dp_options : list (string * choice_option)
}.

Record scenario := Scenario {
  sc_id : string;
  sc_name : string;
  sc_context : string;
  sc_decision_points : list decision_point
}.

(** [list(options.keys())] *)
Definition keys (options : list (string * choice_option)) : list string :=
  map fst options.

(** [options.get(label)] *)
Fixpoint option_get (label : string) (options : list (string * choice_option))
  : option choice_option :=
  match options with
  | [] => None
  | (k, o) :: rest => if String.eqb k label then Some o else option_get label rest
  end.

(** [label in options] *)
Definition has_key (label : string) (options : list (string * choice_option)) : bool :=
  match option_get label options with
  | Some _ => true
  | None => false
  end.

(** [options[label]] *)
Definition option_item (label : string) (options : list (string * choice_option))
  : result choice_option :=
  match option_get label options with
  | Some o => Ok o
  | None => Err (Exn KeyError (repr label))
  end.

(** *** The agent

    [listen_and_act(..., return_actions=True)] returns the list of the
    actions that the agent produced, decoded from the JSON that the language
    model wrote; so an element of it is a JSON value.  Of a number only its
    kind and whether it is zero are looked at.  A dictionary is the list of
    its entries. *)
#[warnings="-register-all"] Inductive value :=
| VNone
| VBool (b : bool)
| VInt (z : Z)
| VFloat (nonzero : bool)
| VStr (s : string)
| VList (l : list value)
| VDict (d : list (string * value)).

Definition action : Type := value.

(** [type(v).__name__] *)
Definition type_name (v : value) : string :=
  match v with
  | VNone => "NoneType"
  | VBool _ => "bool"
  | VInt _ => "int"
  | VFloat _ => "float"
  | VStr _ => "str"
  | VList _ => "list"
  | VDict _ => "dict"
  end.

(** [bool(v)] *)
Definition truth (v : value) : bool :=
  match v with
  | VNone => false
  | VBool b => b
  | VInt z => negb (z =? 0)%Z
  | VFloat nonzero => nonzero
  | VStr s => negb (String.eqb s "")
  | VList l => match l with [] => false | _ => true end
  | VDict d => match d with [] => false | _ => true end
  end.

(** [v == w] for a string [w] *)
Definition is_text (w : string) (v : value) : bool :=
  match v with
  | VStr s => String.eqb s w
  | _ => false
  end.

Fixpoint dict_get (key : string) (d : list (string * value)) : option value :=
  match d with
  | [] => None
  | (k, v) :: rest => if String.eqb k key then Some v else dict_get key rest
  end.

(** [v.get(key, dflt)], which only a dictionary has. *)
Definition get (v : value) (key : string) (dflt : value) : result value :=
  match v with
  | VDict d =>
      Ok (match dict_get key d with
          | Some x => x
          | None => dflt
          end)
  | _ =>
      Err (Exn AttributeError
             ("'" ++ type_name v ++ "' object has no attribute 'get'"))
  end.

(** The items of a list handed to [join], which takes strings only; [i] is
    the position of the first of them. *)
Fixpoint str_items (i : nat) (l : list value) : result (list string) :=
  match l with
  | [] => Ok []
  | VStr s :: rest => t ← str_items (S i) rest; Ok (s :: t)
  | v :: _ =>
      Err (Exn TypeError
             ("sequence item " ++ NilZero.string_of_uint (Nat.to_uint i)
              ++ ": expected str instance, " ++ type_name v ++ " found"))
  end.

(** The action that the agent library produces for an act of kind [type]
    with the text [content]. *)
Definition ActionDict (type content : string) : action :=
  VDict [("action", VDict [("type", VStr type); ("content", VStr content)])].

(** A persona: the attributes the simulator reads, and its agent.  The agent
    is external; [replies n] is what its [n]-th call returns or raises.  A
    call that returns [None] is taken as one that returns the empty list:
    [not actions] holds of both. *)
Record persona := Persona {
  name : string;
  nationality : string;
  professional_interests : string;
  replies : nat -> result (list action)
}.

(** One turn of [for action in actions]: what it appends to [talk_texts].
    An [action] entry that is no dictionary has no [get]. *)
Definition talk_of (a : action) : result (list value) :=
  match a with
  | VDict _ =>
      inner ← get a "action" (VDict []);
      type ← get inner "type" VNone;
      if is_text "TALK" type then
        inner ← get a "action" (VDict []);
        content ← get inner "content" (VStr "");
        Ok (if truth content then [content] else [])
      else Ok []
  | _ => Ok []
  end.

(** The loop: it stops at the first action that raises. *)
Fixpoint talk_texts (actions : list action) : result (list value) :=
  match actions with
  | [] => Ok []
  | a :: rest => l ← talk_of a; r ← talk_texts rest; Ok (l ++ r)
  end.

(** [_extract_talk_text]; [join] raises on content that is no string. *)
Definition _extract_talk_text (actions : list action) : result string :=
  match actions with
  | [] => Ok ""
  | _ =>
      texts ← talk_texts actions;
      items ← str_items 0 texts;
      Ok (join " " items)
  end.

(** *** The records of a run *)

Record character_selection := CharacterSelection {
  character_selected : string;
  selection_reasoning : string
}.

Record decision_record := DecisionRecord {
  decision_id : string;
  choice : string;
  choice_text : string;
  reasoning : string;
  feedback_received : string
}.

Record scenario_record := ScenarioRecord {
  scenario_id : string;
  scenario_name : string;
  decisions : list decision_record;
  skills_earned : list string;
  time_spent_seconds : Z
}.

Record journey_record := JourneyRecord {
  persona_id : string;
  persona_background : string;
  selection : option character_selection;   (* journey["character_selection"], {} at first *)
  scenarios : list scenario_record;
  final_skills : gmap string Z;
  feedback : option Utils.feedback;          (* journey["feedback"], {} at first *)
  completion_status : string;
  error : option string;                     (* journey["error"], absent at first *)
  error_traceback : option string            (* journey["error_traceback"], likewise *)
}.

(** *** State

    What a journey reads and mutates: the shared generator (as the number of
    draws made so far), the persona's agent (as the number of replies given
    so far), the [journey] dictionary, and the local [scenario_result] of the
    call of [simulate_scenario] that is in progress, if one is.  The skill
    dictionary that [simulate_scenario] receives as [current_skills] is the
    very object stored under [journey["final_skills"]]. *)
Record jstate := JState {
  draws : nat;
  calls : nat;
  journey : journey_record;
  scenario_result : option scenario_record
}.

(** The simulator object and what it runs on: the scenario file, the
    generator seeded in [__init__], given by the raw value of each of its
    draws, and [traceback.format_exc()], given by the text it makes for the
    exception that is being handled.  An exception object carries the
    frames that this text lists; they are not modelled. *)
Record simulator := Simulator {
  scenarios_data : list scenario;
  rand : nat -> nat;
  format_exc : exn -> string
}.

(** A computation that reads and writes the state and may raise; what was
    written before an exception stays written. *)
Definition M (A : Type) : Type := jstate -> result A * jstate.

Definition ret {A} (a : A) : M A := fun st => (Ok a, st).

Definition bind {A B} (m : M A) (f : A -> M B) : M B :=
  fun st =>
    match m st with
    | (Ok a, st') => f a st'
    | (Err e, st') => (Err e, st')
    end.

Definition raise {A} (e : exn) : M A := fun st => (Err e, st).

Definition lift {A} (r : result A) : M A := fun st => (r, st).

Definition modify (f : jstate -> jstate) : M unit := fun st => (Ok tt, f st).

#[global] Instance M_ret : MRet M := @ret.
#[global] Instance M_bind : MBind M := fun A B f m => bind m f.

(** A [for] loop with a body that may raise. *)
Fixpoint for_each {A} (l : list A) (body : A -> M unit) : M unit :=
  match l with
  | [] => ret tt
  | x :: rest => body x;; for_each rest body
  end.

Definition set_journey (f : journey_record -> journey_record) : M unit :=
  modify (fun st => JState (draws st) (calls st) (f (journey st)) (scenario_result st)).

Definition set_scenario_result (r : option scenario_record) : M unit :=
  modify (fun st => JState (draws st) (calls st) (journey st) r).

(** [random]'s [_randbelow(n)], for [n > 0]: the next draw, below [n]. *)
Definition randbelow (sim : simulator) (n : nat) : M nat :=
  fun st =>
    (Ok (rand sim (draws st) mod n),
     JState (S (draws st)) (calls st) (journey st) (scenario_result st)).

(** [random.randint(a, b)] *)
Definition randint (sim : simulator) (a b : Z) : M Z :=
  k ← randbelow sim (Z.to_nat (b - a + 1));
  ret (a + Z.of_nat k)%Z.

(** [random.choice(seq)] *)
Definition random_choice {A} (sim : simulator) (l : list A) : M A :=
  match l with
  | [] => raise (Exn IndexError "Cannot choose from an empty sequence")
  | _ => i ← randbelow sim (length l); lift (index l i)
  end.

(** [persona.listen_and_act(prompt, return_actions=True)].  The prompt goes
    to the agent and nowhere else, and the reply is arbitrary, so the prompt
    text is not built here. *)
Definition listen_and_act (p : persona) : M (list action) :=
  fun st =>
    (replies p (calls st),
     JState (draws st) (S (calls st)) (journey st) (scenario_result st)).

(** *** simulate_character_selection *)
Definition simulate_character_selection (p : persona) : M character_selection :=
  actions ← listen_and_act p;
  response ← lift (_extract_talk_text actions);
  cr ← lift (Utils.parse_character_selection (PyStr response));
  ret (CharacterSelection (fst cr) (snd cr)).

(** *** simulate_decision_point *)

(** [# Validate choice] and the dictionary that is returned. *)
Definition resolve_decision (sim : simulator) (dp : decision_point)
    (parsed : string * string) : M decision_record :=
  cr ← (if negb (has_key (fst parsed) (dp_options dp))
         then c ← random_choice sim (keys (dp_options dp));
              ret (c, "Default choice due to parsing error")
         else ret parsed);
  o ← lift (option_item (fst cr) (dp_options dp));
  ret (DecisionRecord (dp_id dp) (fst cr) (opt_text o) (snd cr) (opt_feedback o)).

Definition simulate_decision_point (sim : simulator) (p : persona)
    (dp : decision_point) : M decision_record :=
  actions ← listen_and_act p;
  response ← lift (_extract_talk_text actions);
  parsed ← lift (Utils.parse_decision_response (PyStr response));
  resolve_decision sim dp parsed.

(** *** simulate_scenario *)

(** [scenario_result["decisions"].append(d)] *)
Definition append_decision (d : decision_record) : M unit :=
  fun st =>
    (Ok tt,
     JState (draws st) (calls st) (journey st)
       (option_map (fun r =>
          ScenarioRecord (scenario_id r) (scenario_name r) (decisions r ++ [d])
            (skills_earned r) (time_spent_seconds r)) (scenario_result st))).

(** [skill not in earned] and the append that follows. *)
Definition note_earned (skill : string) (r : scenario_record) : scenario_record :=
  if existsb (String.eqb skill) (skills_earned r) then r
  else ScenarioRecord (scenario_id r) (scenario_name r) (decisions r)
         (skills_earned r ++ [skill]) (time_spent_seconds r).

(** One turn of [for skill in chosen_option["skills"]]:
    [current_skills[skill] += 1], which raises on an unknown skill. *)
Definition earn (skill : string) : M unit :=
  fun st =>
    match final_skills (journey st) !! skill with
    | None => (Err (Exn KeyError (repr skill)), st)
    | Some n =>
        let j := journey st in
        (Ok tt,
         JState (draws st) (calls st)
           (JourneyRecord (persona_id j) (persona_background j) (selection j)
              (scenarios j) (<[skill := (n + 1)%Z]> (final_skills j))
              (feedback j) (completion_status j) (error j) (error_traceback j))
           (option_map (note_earned skill) (scenario_result st)))
    end.

(** One turn of [for decision_point in scenario_data["decision_points"]]. *)
Definition decision_turn (sim : simulator) (p : persona) (dp : decision_point) : M unit :=
  decision_result ← simulate_decision_point sim p dp;
  append_decision decision_result;;
  chosen_option ← lift (option_item (choice decision_result) (dp_options dp));
  for_each (opt_skills chosen_option) earn.

(** [return scenario_result]: the local leaves the frame.  It is always set
    when this is reached. *)
Definition return_scenario_result : M scenario_record :=
  fun st =>
    match scenario_result st with
    | Some r => (Ok r, JState (draws st) (calls st) (journey st) None)
    | None => (Err (Exn RuntimeError "no scenario in progress"), st)
    end.

Definition simulate_scenario (sim : simulator) (p : persona) (sc : scenario)
  : M scenario_record :=
  t ← randint sim 180 420;
  set_scenario_result
    (Some (ScenarioRecord (sc_id sc) (sc_name sc) [] [] t));;
  for_each (sc_decision_points sc) (decision_turn sim p);;
  return_scenario_result.

(** *** generate_feedback_response *)
Definition generate_feedback_response (p : persona) : M Utils.feedback :=
  actions ← listen_and_act p;
  response ← lift (_extract_talk_text actions);
  lift (Utils.parse_feedback_response (PyStr response)).

(** *** simulate_full_journey *)

Definition new_journey (p : persona) : journey_record :=
  JourneyRecord (name p)
    (nationality p ++ " - " ++ professional_interests p)
    None []
    (list_to_map (map (fun skill => (skill, 0%Z)) SKILLS))
    None "incomplete" None None.

(** One turn of [for scenario_data in self.scenarios_data["scenarios"]]. *)
Definition scenario_turn (sim : simulator) (p : persona) (sc : scenario) : M unit :=
  r ← simulate_scenario sim p sc;
  set_journey (fun j =>
    JourneyRecord (persona_id j) (persona_background j) (selection j)
      (scenarios j ++ [r]) (final_skills j) (feedback j)
      (completion_status j) (error j) (error_traceback j)).

(** The body of the [try]. *)
Definition journey_body (sim : simulator) (p : persona) : M unit :=
  cs ← simulate_character_selection p;
  set_journey (fun j =>
    JourneyRecord (persona_id j) (persona_background j) (Some cs)
      (scenarios j) (final_skills j) (feedback j)
      (completion_status j) (error j) (error_traceback j));;
  for_each (scenarios_data sim) (scenario_turn sim p);;
  set_journey (fun j =>
    JourneyRecord (persona_id j) (persona_background j) (selection j)
      (scenarios j) (final_skills j) (feedback j) "completed" (error j)
      (error_traceback j));;
  fb ← generate_feedback_response p;
  set_journey (fun j =>
    JourneyRecord (persona_id j) (persona_background j) (selection j)
      (scenarios j) (final_skills j) (Some fb) (completion_status j) (error j)
      (error_traceback j)).

(** The [except Exception as e] handler. *)
Definition on_error (sim : simulator) (e : exn) (j : journey_record) : journey_record :=
  JourneyRecord (persona_id j) (persona_background j) (selection j)
    (scenarios j) (final_skills j) (feedback j) "error" (Some (message e))
    (Some (format_exc sim e)).

(** The state in which a journey starts, [d] draws having been made. *)
Definition start (p : persona) (d : nat) : jstate :=
  JState d 0 (new_journey p) None.

(** [simulate_full_journey]: the journey dictionary, and the generator
    afterwards.  Time stamps are left out. *)
Definition simulate_full_journey (sim : simulator) (p : persona) (d : nat)
  : journey_record * nat :=
  match journey_body sim p (start p d) with
  | (Ok _, st) => (journey st, draws st)
  | (Err e, st) => (on_error sim e (journey st), draws st)
  end.

(** *** run_simulation and save_results *)

(** The [for i, persona in enumerate(personas, 1)] loop on [self.results]. *)
Fixpoint run_journeys (sim : simulator) (personas : list persona)
    (results : list journey_record) (d : nat) : list journey_record * nat :=
  match personas with
  | [] => (results, d)
  | p :: rest =>
      let '(j, d') := simulate_full_journey sim p d in
      run_journeys sim rest (results ++ [j]) d'
  end.

(** What [save_results] does to the file system, one step at a time. *)
Inductive fs_op :=
| Makedirs (path : string)              (* os.makedirs(path, exist_ok=True) *)
| OpenW (path : string)                 (* open(path, 'w') *)
| FileWrite (path chunk : string)       (* f.write(chunk) *)
| FileClose (path : string)             (* leaving the with block *)
| Rename (src dst : string).            (* os.replace(src, dst): never issued *)

(** [save_results]; [chunks] are the pieces that [json.dump] writes. *)
Definition save_results (chunks : list string) : list fs_op :=
  [Makedirs OUTPUT_DIR; OpenW RESULTS_FILE]
  ++ map (FileWrite RESULTS_FILE) chunks
  ++ [FileClose RESULTS_FILE].

(** The files of the file system, by path. *)
Definition apply_op (fs : gmap string string) (op : fs_op) : gmap string string :=
  match op with
  | Makedirs _ => fs
  | OpenW path => <[path := ""]> fs
  | FileWrite path chunk =>
      match fs !! path with
      | Some old => <[path := (old ++ chunk)%string]> fs
      | None => fs
      end
  | FileClose _ => fs
  | Rename src dst =>
      match fs !! src with
      | Some c => <[dst := c]> (delete src fs)
      | None => fs
      end
  end.

Definition apply_ops (fs : gmap string string) (ops : list fs_op) : gmap string string :=
  fold_left apply_op ops fs.

(** The steps [ops] replace the file at [path] atomically: stopped after
    any number of them, the file is as it was before or as it is after all
    of them. *)
Definition atomic_replace (fs : gmap string string) (ops : list fs_op)
    (path : string) : Prop :=
  forall n,
    apply_ops fs (firstn n ops) !! path = fs !! path \/
    apply_ops fs (firstn n ops) !! path = apply_ops fs ops !! path.

(** [run_simulation]: the results, the generator afterwards, and the file
    operations issued.  [json_chunks] stands for the [json] encoder. *)
Definition run_simulation (json_chunks : list journey_record -> list string)
    (sim : simulator) (personas : list persona)
    (results : list journey_record) (d : nat)
  : list journey_record * nat * list fs_op :=
  let '(results', d') := run_journeys sim personas results d in
  (results', d', save_results (json_chunks results')).

End Sim.

(* ===================================================================== *)
(** ** Counting decisions and skill points *)
(* ===================================================================== *)

Module Tally.
Import Py Sim.

(** A decision that was made: the decision point and the record of it. *)
Definition made : Type := decision_point * decision_record.

(** The skill-tags on the option that a decision chose. *)
Definition chosen_skills (pd : made) : list string :=
  match option_get (choice (snd pd)) (dp_options (fst pd)) with
  | Some o => opt_skills o
  | None => []
  end.

(** How often [skill] occurs in a list of tags. *)
Definition occurrences (skill : string) (tags : list string) : nat :=
  length (List.filter (String.eqb skill) tags).

(** The sum, over the decisions, of the occurrences of [skill] among the
    tags of the chosen option. *)
Fixpoint points (skill : string) (l : list made) : nat :=
  match l with
  | [] => 0
  | pd :: rest => occurrences skill (chosen_skills pd) + points skill rest
  end.

(** No tag occurs twice. *)
Fixpoint distinct (tags : list string) : bool :=
  match tags with
  | [] => true
  | t :: rest => negb (existsb (String.eqb t) rest) && distinct rest
  end.

(** The number of decisions whose chosen option lists [skill]. *)
Definition decisions_listing (skill : string) (l : list made) : nat :=
  length (List.filter (fun pd => existsb (String.eqb skill) (chosen_skills pd)) l).

(** The records of a scenario, each with its decision point, in order. *)
Definition scenario_pairs (sc : scenario) (r : scenario_record) : list made :=
  combine (sc_decision_points sc) (decisions r).

Fixpoint paired (scs : list scenario) (recs : list scenario_record) : list made :=
  match scs, recs with
  | sc :: scs', r :: recs' => scenario_pairs sc r ++ paired scs' recs'
  | _, _ => []
  end.

(** The scenario in progress, if any, as a list. *)
Definition in_progress (st : jstate) : list scenario_record :=
  match scenario_result st with
  | Some r => [r]
  | None => []
  end.

(** Every decision made so far in a journey: those of the scenarios that
    were completed and those of the scenario in progress. *)
Definition decisions_made (sim : simulator) (st : jstate) : list made :=
  paired (scenarios_data sim) (scenarios (journey st) ++ in_progress st).

(** Every decision that a journey record holds. *)
Definition decisions_kept (j : journey_record) : list decision_record :=
  flat_map decisions (scenarios j).

(** [sk'] is [sk] with the points of the decisions [l] added. *)
Definition accrued (sk sk' : gmap string Z) (l : list made) : Prop :=
  forall k, sk' !! k = (fun n => (n + Z.of_nat (points k l))%Z) <$> sk !! k.

(** Some decision of [l] chose an option with a tag that [sk] does not know. *)
Definition unknown_tag (sk : gmap string Z) (l : list made) : Prop :=
  exists pd tag, In pd l /\ In tag (chosen_skills pd) /\ sk !! tag = None.

(** A journey record apart from its skills. *)
Definition outside_skills (j : journey_record) :=
  (persona_id j, persona_background j, selection j, scenarios j,
   feedback j, completion_status j, error j, error_traceback j).

(** What every step inside a scenario keeps: the record apart from its
    skills, the set of known skills, and each count from falling. *)
Definition grows (st st' : jstate) : Prop :=
  draws st <= draws st' /\
  outside_skills (journey st') = outside_skills (journey st) /\
  (forall k, final_skills (journey st') !! k = None <->
             final_skills (journey st) !! k = None) /\
  (forall k n, final_skills (journey st) !! k = Some n ->
     exists n', final_skills (journey st') !! k = Some n' /\ (n <= n')%Z).

(** What a run of decisions [l] does to the skills: all their points were
    added, or it stopped at a tag that the skills do not know. *)
Definition effect (sk sk' : gmap string Z) (l : list made) : Prop :=
  accrued sk sk' l \/ unknown_tag sk l.

(** A scenario record apart from its earned skills. *)
Definition sr_core (r : scenario_record) :=
  (scenario_id r, scenario_name r, time_spent_seconds r, decisions r).

Definition core (st : jstate) := option_map sr_core (scenario_result st).

(** The scenario in progress is the same, but perhaps for its earned
    skills. *)
Definition same_core (st st' : jstate) : Prop := core st' = core st.

(** A journey record apart from its scenarios and its skills. *)
Definition outside_run (j : journey_record) :=
  (persona_id j, persona_background j, selection j,
   feedback j, completion_status j, error j, error_traceback j).

(** The synthetic duration of a scenario is within three to seven minutes. *)
Definition time_in_range (r : scenario_record) : Prop :=
  (180 <= time_spent_seconds r <= 420)%Z.

(** Only the generator and the agent moved on. *)
Definition quiet (st st' : jstate) : Prop :=
  draws st <= draws st' /\ journey st' = journey st /\
  scenario_result st' = scenario_result st.

(** A computation all of whose runs satisfy the relation [R] between the
    state before and the state after. *)
Definition always {A} (R : jstate -> jstate -> Prop) (m : M A) : Prop :=
  forall st r st', m st = (r, st') -> R st st'.

(** A scenario record is complete for a scenario: it has its identifier and
    one decision record for each decision point, in order. *)
Definition complete_for (sc : scenario) (r : scenario_record) : Prop :=
  scenario_id r = sc_id sc /\
  scenario_name r = sc_name sc /\
  map decision_id (decisions r) = map dp_id (sc_decision_points sc).

(** The journey goes on in [st'] from where a step left it in [st]: with
    the same generator, agent and skill counts, and no scenario in
    progress. *)
Definition resumes (st st' : jstate) : Prop :=
  draws st' = draws st /\ calls st' = calls st /\
  final_skills (journey st') = final_skills (journey st) /\
  scenario_result st' = None.

(** The scenarios [scs] were gone through from the state [st], one after
    the other, and each was finished: [recs] are the records that
    [simulate_scenario] returned for them, in order, and [st'] is the state
    in which the journey went on after the last. *)
Inductive finished (sim : simulator) (p : persona)
  : list scenario -> jstate -> list scenario_record -> jstate -> Prop :=
| finished_nil st :
    finished sim p [] st [] st
| finished_cons sc scs st r st1 st2 recs st' :
    simulate_scenario sim p sc st = (Ok r, st1) ->
    resumes st1 st2 ->
    finished sim p scs st2 recs st' ->
    finished sim p (sc :: scs) st (r :: recs) st'.

(** How far a journey that started after [d] draws had got when the
    exception [e] stopped it in the state [st]: [sel] is the character
    selection it had made and [recs] are the records of the scenarios it had
    finished.  The exception came from the character selection; or from the
    scenario that follows the finished ones; or, all scenarios finished,
    from the survey. *)
Inductive stopped (sim : simulator) (p : persona) (d : nat) (e : exn) (st : jstate)
  : option character_selection -> list scenario_record -> Prop :=
| stopped_in_selection :
    simulate_character_selection p (start p d) = (Err e, st) ->
    stopped sim p d e st None []
| stopped_in_scenario cs st0 st1 recs st2 sc :
    simulate_character_selection p (start p d) = (Ok cs, st0) ->
    resumes st0 st1 ->
    finished sim p (firstn (length recs) (scenarios_data sim)) st1 recs st2 ->
    nth_error (scenarios_data sim) (length recs) = Some sc ->
    simulate_scenario sim p sc st2 = (Err e, st) ->
    stopped sim p d e st (Some cs) recs
| stopped_in_survey cs st0 st1 recs st2 st3 :
    simulate_character_selection p (start p d) = (Ok cs, st0) ->
    resumes st0 st1 ->
    finished sim p (scenarios_data sim) st1 recs st2 ->
    resumes st2 st3 ->
    generate_feedback_response p st3 = (Err e, st) ->
    stopped sim p d e st (Some cs) recs.

End Tally.

(* ===================================================================== *)
(** ** The markers, in the words of the specification *)
(* ===================================================================== *)

Module Markers.
Import Py Re.

(** [f] holds of [s] or of one of its suffixes. *)
Fixpoint somewhere (f : string -> bool) (s : string) : bool :=
  f s || match s with
         | EmptyString => false
         | String _ t => somewhere f t
         end.

(** [s] begins with the word [w], letter case aside; what follows it. *)
Fixpoint after_word (w s : string) : option string :=
  match w, s with
  | EmptyString, _ => Some s
  | String c w', String x s' =>
      if Ascii.eqb (lower x) (lower c) then after_word w' s' else None
  | String _ _, EmptyString => None
  end.

(** The word [w] occurs in [s], with text after it that [follows] accepts. *)
Definition has_marker (w : string) (follows : string -> bool) (s : string) : bool :=
  somewhere (fun t => match after_word w t with
                      | Some rest => follows rest
                      | None => false
                      end) s.

(** One of the option labels of the fixed alphabet, in either case. *)
Definition is_label (c : ascii) : bool :=
  existsb (Ascii.eqb c) (list_ascii_of_string "ABCDabcd").

(** One of the option labels as the catalog writes them. *)
Definition is_upper_label (c : ascii) : bool :=
  existsb (Ascii.eqb c) (list_ascii_of_string "ABCD").

(** A separator after a label at the start of a line. *)
Definition is_separator (c : ascii) : bool :=
  existsb (Ascii.eqb c) (list_ascii_of_string ".):") || is_space c.

(** A [CHOICE:] marker with a label: white space may come between. *)
Definition has_choice_label (s : string) : bool :=
  has_marker "CHOICE:"
    (fun rest => match lstrip rest with
                 | String c _ => is_label c
                 | EmptyString => false
                 end) s.

(** A label at the start of a line, followed by a separator. *)
Fixpoint line_label_from (at_start : bool) (s : string) : bool :=
  match s with
  | EmptyString => false
  | String c t =>
      (at_start && is_upper_label c &&
       match t with
       | String d _ => is_separator d
       | EmptyString => false
       end)
      || line_label_from (Ascii.eqb c newline) t
  end.

Definition has_line_label (s : string) : bool := line_label_from true s.

(** Only newlines. *)
Fixpoint only_newlines (s : string) : bool :=
  match s with
  | EmptyString => true
  | String c t => Ascii.eqb c newline && only_newlines t
  end.

(** A [CHOICE:] marker followed by text: something other than newlines. *)
Definition has_choice_text (s : string) : bool :=
  has_marker "CHOICE:" (fun rest => negb (only_newlines rest)) s.

(** A [REASONING:] marker followed by text. *)
Definition has_reasoning_text (s : string) : bool :=
  has_marker "REASONING:" (fun rest => negb (String.eqb rest "")) s.

End Markers.

(* ===================================================================== *)
(** ** A small catalog and two scripted participants *)
(* ===================================================================== *)

Module Examples.
Import Py Re Sim.

Definition nl : string := String newline "".

Definition step_in : choice_option :=
  ChoiceOption "Step in and check on her" ["warning_signs"] "You noticed the signs.".

Definition walk_away : choice_option :=
  ChoiceOption "Walk away" [] "Consider what a check-in could change.".

Definition d1 : decision_point :=
  DecisionPoint "d1" "You see a friend being cornered. What do you do?"
    [("A", step_in); ("B", walk_away)].

Definition d2 : decision_point :=
  DecisionPoint "d2" "She says she is fine. What now?"
    [("A", step_in); ("B", walk_away)].

Definition party : scenario :=
  Scenario "scenario_1" "Party Observation" "A crowded party on campus." [d1; d2].

(** The text of a traceback, but for its frames. *)
Definition trace (e : exn) : string :=
  "Traceback (most recent call last): " ++ message e.

Definition sim : simulator := Simulator [party] (fun n => 7 * n + 3) trace.

(** An agent that says [text]. *)
Definition talk (text : string) : result (list action) :=
  Ok [ActionDict "TALK" text].

(** An agent that gives the replies of [l] in turn and then fails. *)
Definition script (l : list (result (list action))) : nat -> result (list action) :=
  fun n => nth n l (Err (Exn RuntimeError "agent down")).

(** A participant whose agent answers every prompt. *)
Definition steady : persona :=
  Persona "Amara" "Nigerian" "public health"
    (script [talk ("CHOICE: Sam Rivera" ++ nl ++ "REASONING: I relate to Sam.");
             talk ("CHOICE: A" ++ nl ++ "REASONING: test");
             talk "B) I would rather not get involved";
             talk "Rate: 5 Rate: 4 Rate: 3 Rate: 2 Rate: 1"]).

(** A participant whose agent fails at the second decision. *)
Definition cut_off : persona :=
  Persona "Bilal" "Pakistani" "engineering"
    (script [talk "CHOICE: Alex Chen";
             talk ("CHOICE: A" ++ nl ++ "REASONING: test")]).

(** A catalog of two scenarios; in the second, option A lists a tag twice. *)
Definition call_out : choice_option :=
  ChoiceOption "Change the subject, twice" ["distraction"; "distraction"]
    "You drew the attention away.".

Definition d3 : decision_point :=
  DecisionPoint "d3" "The group chat turns on a classmate. What do you do?"
    [("A", call_out); ("B", walk_away)].

Definition chat : scenario :=
  Scenario "scenario_2" "Group Chat" "A group chat of your course." [d3; d1].

Definition sim2 : simulator := Simulator [party; chat] (fun n => 7 * n + 3) trace.

(** A participant whose agent answers every prompt of this catalog. *)
Definition keen : persona :=
  Persona "Dara" "Irish" "nursing"
    (script [talk "CHOICE: Alex Chen";
             talk "CHOICE: A";
             talk "CHOICE: B";
             talk "CHOICE: A";
             talk "CHOICE: B";
             talk "Rate: 4"]).

(** A participant whose agent fails in the second scenario, at its second
    decision. *)
Definition late : persona :=
  Persona "Chidi" "Ghanaian" "law"
    (script [talk "CHOICE: Jordan Williams";
             talk ("CHOICE: A" ++ nl ++ "REASONING: test");
             talk "B) I would rather not get involved";
             talk "CHOICE: A"]).

End Examples.

(* ===================================================================== *)
(** ** The parsers as scanners *)
(* ===================================================================== *)

Module Scan.
Import Py Re Utils Markers.

(** What [here] gives at the first place of [s], from the left, where it
    gives something. *)
Fixpoint first_of {A} (here : string -> option A) (s : string) : option A :=
  match here s with
  | Some a => Some a
  | None =>
      match s with
      | EmptyString => None
      | String _ t => first_of here t
      end
  end.

(** The label after a [CHOICE:] marker that starts [t]. *)
Definition choice_label_here (t : string) : option ascii :=
  match after_word "CHOICE:" t with
  | Some rest =>
      match lstrip rest with
      | String c _ => if is_label c then Some c else None
      | EmptyString => None
      end
  | None => None
  end.

(** The first label that starts a line and has a separator after it. *)
Fixpoint first_line_label (at_start : bool) (s : string) : option ascii :=
  match s with
  | EmptyString => None
  | String c t =>
      if at_start && is_upper_label c &&
         match t with
         | String d _ => is_separator d
         | EmptyString => false
         end
      then Some c
      else first_line_label (Ascii.eqb c newline) t
  end.

(** The label of a decision text. *)
Definition scan_label (s : string) : string :=
  match first_of choice_label_here s with
  | Some c => str_upper (String c "")
  | None =>
      match first_line_label true s with
      | Some c => str_upper (String c "")
      | None => "A"
      end
  end.

(** The text after a [REASONING:] marker that starts [t], if there is any. *)
Definition reasoning_here (t : string) : option string :=
  match after_word "REASONING:" t with
  | Some rest => if String.eqb rest "" then None else Some rest
  | None => None
  end.

(** The reasoning of a reply: all that follows the first marker. *)
Definition scan_reasoning (dflt s : string) : string :=
  match first_of reasoning_here s with
  | Some rest => strip rest
  | None => dflt
  end.

(** The text of [s] before the first place at which [stop] holds. *)
Fixpoint take_until (stop : string -> bool) (s : string) : string :=
  if stop s then ""
  else match s with
       | EmptyString => ""
       | String c t => String c (take_until stop t)
       end.

(** The text that follows a marker, [rest] being all that comes after the
    marker: from the first character that is no white space to the first
    place after it at which [stop] holds, stripped. *)
Definition text_after (stop : string -> bool) (rest : string) : string :=
  match lstrip rest with
  | EmptyString => ""
  | String x tail => strip (String x (take_until stop tail))
  end.

(** Where the text of a character choice ends: at the end of the text, at a
    newline, and at the word [REASONING]. *)
Definition choice_stop (t : string) : bool :=
  match t with
  | EmptyString => true
  | String c _ => Ascii.eqb c newline
  end
  || match after_word "REASONING" t with
     | Some _ => true
     | None => false
     end.

(** The text after a [CHOICE:] marker that starts [t], if there is more
    than newlines after the marker. *)
Definition choice_text_here (t : string) : option string :=
  match after_word "CHOICE:" t with
  | Some rest =>
      if only_newlines rest then None else Some (text_after choice_stop rest)
  | None => None
  end.

(** The character of a selection text. *)
Definition scan_character (s : string) : string :=
  match first_of choice_text_here s with
  | Some c => match_roster c
  | None => "Alex Chen"
  end.

(** The text after the decimal digits that start [t]. *)
Fixpoint skip_digits (t : string) : string :=
  match t with
  | EmptyString => EmptyString
  | String d t' => if is_digit d then skip_digits t' else t
  end.

(** [t] begins as the next question of the survey does: with a newline, a
    number and a full stop. *)
Definition next_question (t : string) : bool :=
  match t with
  | String c (String d t') =>
      Ascii.eqb c newline && is_digit d &&
      match skip_digits t' with
      | String e _ => Ascii.eqb e "."
      | EmptyString => false
      end
  | _ => false
  end.

(** Where an answer of the survey ends: at the end of the text, before a
    newline that ends the text, and before the next question. *)
Definition answer_stop (t : string) : bool :=
  match t with
  | EmptyString => true
  | String c EmptyString => Ascii.eqb c newline
  | _ => false
  end
  || next_question t.

(** The answer after a marker that starts [t], if anything follows the
    marker. *)
Definition marker_text_here (marker t : string) : option string :=
  match after_word marker t with
  | Some rest =>
      if String.eqb rest "" then None else Some (text_after answer_stop rest)
  | None => None
  end.

(** The answer to the question whose number starts [t]: the one after the
    first marker that comes after the number and has something after it. *)
Definition answer_here (number marker t : string) : option string :=
  match after_word (number ++ ".") t with
  | Some rest => first_of (marker_text_here marker) rest
  | None => None
  end.

(** The answer to a question of the survey. *)
Definition scan_answer (number marker dflt s : string) : string :=
  match first_of (answer_here number marker) s with
  | Some a => a
  | None => dflt
  end.

(** The digit after a [Rate:] marker that starts [t], white space between
    aside. *)
Definition rate_here (t : string) : option ascii :=
  match after_word "Rate:" t with
  | Some rest =>
      match lstrip rest with
      | String d _ => if is_digit d then Some d else None
      | EmptyString => None
      end
  | None => None
  end.

(** The digits after the [Rate:] markers of [s], in the order of the text. *)
Fixpoint rates (s : string) : list ascii :=
  match rate_here s with
  | Some d => [d]
  | None => []
  end ++
  match s with
  | EmptyString => []
  | String _ t => rates t
  end.

(** The value of a decimal digit. *)
Definition digit_value (d : ascii) : Z := Z.of_N (code d) - 48.

(** The five ratings of a survey text: the first five digits after [Rate:]
    markers, when there are as many. *)
Definition scan_ratings (s : string) : Z * Z * Z * Z * Z :=
  match rates s with
  | d0 :: d1 :: d2 :: d3 :: d4 :: _ =>
      (digit_value d0, digit_value d1, digit_value d2, digit_value d3,
       digit_value d4)
  | _ => (3, 3, 3, 3, 3)%Z
  end.

(** The feedback of a survey text. *)
Definition scan_feedback (s : string) : feedback :=
  let '(r0, r1, r2, r3, r4) := scan_ratings s in
  {| realistic := r0;
     realistic_explain := scan_answer "1" "Explain:" "" s;
     felt_safe := r1;
     felt_safe_explain := scan_answer "2" "Explain:" "" s;
     helpful_feedback := r2;
     helpful_feedback_explain := scan_answer "3" "Explain:" "" s;
     would_recommend := r3;
     would_recommend_explain := scan_answer "4" "Explain:" "" s;
     confidence := r4;
     confidence_explain := scan_answer "5" "Explain:" "" s;
     most_valuable_scenario := scan_answer "6" "Answer:" "" s;
     likely_strategy := scan_answer "7" "Answer:" "" s;
     what_worked := scan_answer "8" "Answer:" "" s;
     improvements := scan_answer "9" "Answer:" "" s;
     cultural_relevance := scan_answer "10" "Answer:" "" s;
     raw_response := s |}.

End Scan.

(* ===================================================================== *)
(** ** The options as shown to a participant *)
(* ===================================================================== *)

Module Format.
Import Py Re Sim.

(** [format_options]: one line per option, [key. text], in the order of the
    dictionary. *)
Definition format_options (options_dict : list (string * choice_option)) : string :=
  join (String newline "")
    (map (fun kv : string * choice_option =>
            (fst kv ++ ". " ++ opt_text (snd kv))%string) options_dict).

End Format.

(* ===================================================================== *)
(** ** A survey reply in the format the prompt asks for *)
(* ===================================================================== *)

Module Reply.
Import Py Re Utils.

(** The decimal digit of a rating. *)
Definition digit_of (z : Z) : ascii := ascii_of_N (Z.to_N (z + 48)).

(** A text that can stand as an answer: not empty, no white space at its
    ends, no digit and no colon in it. *)
Definition plain (e : string) : bool :=
  negb (String.eqb e "") && String.eqb (strip e) e &&
  forallb (fun c => negb (is_digit c) && negb (Ascii.eqb c ":"))
          (list_ascii_of_string e).

(** A rated question: its number, the rating, the explanation. *)
Definition rated (n : string) (d : ascii) (e : string) : string :=
  n ++ ". Rate: " ++ String d (String newline ("Explain: " ++ e)).

(** An open question: its number and the answer. *)
Definition answered (n a : string) : string := n ++ ". Answer: " ++ a.

(** The reply that states the feedback [fb], one question after the other,
    each number at the start of a line. *)
Definition survey_reply (fb : feedback) : string :=
  join (String newline "")
    [rated "1" (digit_of (realistic fb)) (realistic_explain fb);
     rated "2" (digit_of (felt_safe fb)) (felt_safe_explain fb);
     rated "3" (digit_of (helpful_feedback fb)) (helpful_feedback_explain fb);
     rated "4" (digit_of (would_recommend fb)) (would_recommend_explain fb);
     rated "5" (digit_of (confidence fb)) (confidence_explain fb);
     answered "6" (most_valuable_scenario fb);
     answered "7" (likely_strategy fb);
     answered "8" (what_worked fb);
     answered "9" (improvements fb);
     answered "10" (cultural_relevance fb)].

End Reply.

(* ===================================================================== *)
(** ** Actions without words, and texts set side by side *)
(* ===================================================================== *)

Module Talk.
Import Py Sim.

(** An action from which no text is taken: what is no dictionary, a
    dictionary without [action] entry, and a dictionary whose [action] entry
    is a dictionary of another type than TALK or with no [content], or with
    one that counts as false. *)
Definition wordless (a : action) : bool :=
  match a with
  | VDict d =>
      match dict_get "action" d with
      | None => true
      | Some (VDict inner) =>
          negb (is_text "TALK" (match dict_get "type" inner with
                                | Some t => t
                                | None => VNone
                                end))
          || negb (truth (match dict_get "content" inner with
                          | Some c => c
                          | None => VStr ""
                          end))
      | Some _ => false
      end
  | _ => true
  end.

(** Two texts with one space between them, unless one of them is empty. *)
Definition side_by_side (t1 t2 : string) : string :=
  if String.eqb t1 "" then t2
  else if String.eqb t2 "" then t1
       else (t1 ++ " " ++ t2)%string.

End Talk.
(* ===================================================================== *)
(** ** Facts about strings *)
(* ===================================================================== *)

Section StringFacts.
Import Py.

Lemma str_app_cons (c : ascii) (u v : string) :
  (String c u ++ v)%string = String c (u ++ v).
Proof. reflexivity. Qed.

Lemma str_app_nil (v : string) : ("" ++ v)%string = v.
Proof. reflexivity. Qed.

Lemma str_length_app (u v : string) :
  String.length (u ++ v) = String.length u + String.length v.
Proof.
  induction u as [|c u IH]; [reflexivity|].
  rewrite str_app_cons. simpl. now rewrite IH.
Qed.

Lemma str_app_empty_r (u : string) : (u ++ "")%string = u.
Proof.
  induction u as [|c u IH]; [reflexivity|]. rewrite str_app_cons. now rewrite IH.
Qed.

Lemma str_app_assoc (u v w : string) : ((u ++ v) ++ w)%string = (u ++ (v ++ w))%string.
Proof.
  induction u as [|c u IH]; [reflexivity|]. rewrite !str_app_cons. now rewrite IH.
Qed.

Lemma substring_prefix (u v : string) :
  substring 0 (String.length u) (u ++ v) = u.
Proof.
  induction u as [|c u IH]; [now destruct v|].
  rewrite str_app_cons. simpl. now rewrite IH.
Qed.

Lemma consumed_app (u v : string) : Re.consumed (u ++ v) v = u.
Proof.
  unfold Re.consumed. rewrite str_length_app.
  replace (String.length u + String.length v - String.length v) with (String.length u) by lia.
  apply substring_prefix.
Qed.

Lemma consumed_one (x : ascii) (t : string) : Re.consumed (String x t) t = String x "".
Proof. apply (consumed_app (String x "") t). Qed.

End StringFacts.

(* ===================================================================== *)
(** ** The matcher finds only what the pattern describes *)
(* ===================================================================== *)

Section MatcherSound.
Import Py Re.

Variable fl : flags.

Lemma star_sound greedy i (k : cont) :
  forall s p g m,
    star fl greedy i k p s g = Some m ->
    exists p' s' g',
      matches fl (Star greedy i) p s g p' s' g' /\ k p' s' g' = Some m.
Proof.
  induction s as [|x t IH]; intros p g m H; simpl in H.
  - exists p, "", g. split; [constructor | exact H].
  - destruct (item_match fl i x) eqn:Hx.
    + destruct greedy.
      * destruct (star fl true i k (Some x) t g) eqn:Hs.
        -- injection H as <-. destruct (IH _ _ _ Hs) as (p' & s' & g' & Hm & Hk).
           exists p', s', g'. split; [now apply matches_star_more | exact Hk].
        -- exists p, (String x t), g. split; [constructor | exact H].
      * destruct (k p (String x t) g) eqn:Hk0.
        -- injection H as <-. exists p, (String x t), g. split; [constructor | exact Hk0].
        -- destruct (IH _ _ _ H) as (p' & s' & g' & Hm & Hk).
           exists p', s', g'. split; [now apply matches_star_more | exact Hk].
    + exists p, (String x t), g. split; [constructor | exact H].
Qed.

Lemma mtch_sound r :
  forall (k : cont) p s g m,
    mtch fl r k p s g = Some m ->
    exists p' s' g', matches fl r p s g p' s' g' /\ k p' s' g' = Some m.
Proof.
  induction r as [|i|r1 IH1 r2 IH2|r1 IH1 r2 IH2|greedy i|r IH| | |r IH];
    intros k p s g m H; simpl in H.
  - exists p, s, g. split; [constructor | exact H].
  - destruct s as [|x t]; [discriminate|].
    destruct (item_match fl i x) eqn:Hx; [|discriminate].
    exists (Some x), t, g. split; [now constructor | exact H].
  - destruct (IH1 _ _ _ _ _ H) as (p1 & s1 & g1 & Hm1 & Hk1).
    destruct (IH2 _ _ _ _ _ Hk1) as (p2 & s2 & g2 & Hm2 & Hk2).
    exists p2, s2, g2. split; [eapply matches_seq; eassumption | exact Hk2].
  - destruct (mtch fl r1 k p s g) eqn:H1.
    + injection H as <-. destruct (IH1 _ _ _ _ _ H1) as (p' & s' & g' & Hm & Hk).
      exists p', s', g'. split; [now apply matches_alt_l | exact Hk].
    + destruct (IH2 _ _ _ _ _ H) as (p' & s' & g' & Hm & Hk).
      exists p', s', g'. split; [now apply matches_alt_r | exact Hk].
  - now apply star_sound.
  - destruct (IH _ _ _ _ _ H) as (p' & s' & g' & Hm & Hk).
    exists p', s', (Some (consumed s s')). split; [eapply matches_group; eassumption | exact Hk].
  - destruct (at_bol fl p) eqn:Hb; [|discriminate].
    exists p, s, g. split; [now constructor | exact H].
  - destruct (at_eol fl s) eqn:Hb; [|discriminate].
    exists p, s, g. split; [now constructor | exact H].
  - destruct (mtch fl r (fun p' s' g' => Some (MState p' s' g')) p s g) eqn:Hl; [|discriminate].
    destruct (IH _ _ _ _ _ Hl) as (p' & s' & g' & Hm & _).
    exists p, s, g. split; [eapply matches_look; eassumption | exact H].
Qed.

(** A match ends at a suffix of where it began. *)
Lemma matches_suffix r p s g p' s' g' :
  matches fl r p s g p' s' g' -> exists u, s = (u ++ s')%string.
Proof.
  induction 1;
    try (now exists "");
    try assumption.
  - now exists (String x "").
  - destruct IHmatches1 as [u1 ->]. destruct IHmatches2 as [u2 ->].
    exists (u1 ++ u2)%string. now rewrite str_app_assoc.
  - destruct IHmatches as [u ->]. now exists (String x u).
Qed.

(** Once set, the group stays set. *)
Lemma matches_group_kept r p s g p' s' g' :
  matches fl r p s g p' s' g' -> g <> None -> g' <> None.
Proof. induction 1; intros Hg; auto; discriminate. Qed.

Lemma matches_sets_group r p s g p' s' g' :
  matches fl r p s g p' s' g' -> sets_group r = true -> g' <> None.
Proof.
  induction 1; simpl; intros Hs; try discriminate.
  - apply orb_true_iff in Hs as [Hs|Hs].
    + eapply matches_group_kept; [eassumption | auto].
    + auto.
  - apply andb_true_iff in Hs as [Hs _]. auto.
  - apply andb_true_iff in Hs as [_ Hs]. auto.
Qed.

(** What [re.search] returns is a match of the pattern from the position
    where it says the match began, and that position is in the text. *)
Lemma search_from_sound r :
  forall s p m,
    search_from fl r p s = Some m ->
    exists u,
      s = (u ++ m_start m)%string /\
      matches fl r (prev_after p u) (m_start m) None
        (st_prev (m_end m)) (st_rest (m_end m)) (st_group (m_end m)).
Proof.
  induction s as [|x t IH]; intros p m H; simpl in H.
  - destruct (mtch fl r accept p "" None) eqn:Hm; [|discriminate].
    injection H as <-. apply mtch_sound in Hm as (p' & s' & g' & Hm & Hk).
    injection Hk as <-. exists "". split; [reflexivity | exact Hm].
  - destruct (mtch fl r accept p (String x t) None) eqn:Hm.
    + injection H as <-. apply mtch_sound in Hm as (p' & s' & g' & Hm & Hk).
      injection Hk as <-. exists "". split; [reflexivity | exact Hm].
    + destruct (IH _ _ H) as (u & Hu & Hm'). exists (String x u).
      split; [rewrite str_app_cons; now rewrite <- Hu | exact Hm'].
Qed.

Lemma search_sets_group r s m :
  sets_group r = true -> search fl r s = Some m -> exists t, group1 m = Some t.
Proof.
  intros Hs H. apply search_from_sound in H as (u & _ & Hm).
  apply matches_sets_group in Hm; [|exact Hs]. unfold group1.
  destruct (st_group (m_end m)) as [t|]; [now exists t | contradiction].
Qed.

End MatcherSound.

(* ===================================================================== *)
(** ** Reading a match of a pattern back, part by part *)
(* ===================================================================== *)

Section MatchInversion.
Import Py Re.

Variable fl : flags.

Lemma matches_seq_inv r1 r2 p s g p2 s2 g2 :
  matches fl (Seq r1 r2) p s g p2 s2 g2 ->
  exists p1 s1 g1,
    matches fl r1 p s g p1 s1 g1 /\ matches fl r2 p1 s1 g1 p2 s2 g2.
Proof. inversion 1; subst; eauto. Qed.

Lemma matches_one_inv i p s g p' s' g' :
  matches fl (One i) p s g p' s' g' ->
  exists x, s = String x s' /\ item_match fl i x = true /\ p' = Some x /\ g' = g.
Proof. inversion 1; subst; eauto. Qed.

Lemma matches_group_inv r p s g p' s' g' :
  matches fl (Group r) p s g p' s' g' ->
  g' = Some (consumed s s') /\ exists g0, matches fl r p s g p' s' g0.
Proof. inversion 1; subst; eauto. Qed.

Lemma matches_bol_inv p s g p' s' g' :
  matches fl Bol p s g p' s' g' ->
  at_bol fl p = true /\ p' = p /\ s' = s /\ g' = g.
Proof. inversion 1; subst; auto. Qed.

(** A repetition reads characters of its class and leaves the group alone. *)
Lemma matches_star_inv greedy i p s g p' s' g' :
  matches fl (Star greedy i) p s g p' s' g' ->
  g' = g /\
  exists u, s = (u ++ s')%string /\
            forall c, In c (list_ascii_of_string u) -> item_match fl i c = true.
Proof.
  intros H. remember (Star greedy i) as r eqn:Hr.
  induction H; try discriminate; injection Hr as -> ->.
  - split; [reflexivity|]. exists "". split; [reflexivity | intros c []].
  - destruct (IHmatches eq_refl) as (-> & u & -> & Hu).
    split; [reflexivity|]. exists (String x u). split; [reflexivity|].
    intros c [<-|Hc]; auto.
Qed.

End MatchInversion.

(* ===================================================================== *)
(** ** Facts about single characters, checked over all 256 of them *)
(* ===================================================================== *)

Section CharFacts.
Import Py Re Markers.

Lemma ascii_all (P : ascii -> bool) :
  forallb (fun n => P (ascii_of_nat n)) (seq 0 256) = true ->
  forall x, P x = true.
Proof.
  intros H x. rewrite forallb_forall in H.
  rewrite <- (ascii_nat_embedding x). apply H.
  apply in_seq. pose proof (nat_ascii_bounded x). lia.
Qed.

(** [Q] holds of every character of which [P] holds, by running through
    them. *)
Lemma ascii_all_impl (P Q : ascii -> bool) :
  forallb (fun n => implb (P (ascii_of_nat n)) (Q (ascii_of_nat n))) (seq 0 256) = true ->
  forall x, P x = true -> Q x = true.
Proof.
  intros H x Hx. pose proof (ascii_all (fun c => implb (P c) (Q c)) H x) as Hi.
  cbn beta in Hi. now rewrite Hx in Hi.
Qed.

Lemma label_class_ci x :
  item_match Utils.I (ISet [ARange "A" "D"]) x = true ->
  is_label x = true /\ is_space x = false /\
  In (str_upper (String x "")) ["A"; "B"; "C"; "D"].
Proof.
  intros H.
  apply (ascii_all_impl _
           (fun c => is_label c && negb (is_space c) &&
                     existsb (String.eqb (str_upper (String c ""))) ["A"; "B"; "C"; "D"]))
    in H; [|vm_compute; reflexivity].
  apply andb_true_iff in H as [H H3]. apply andb_true_iff in H as [H1 H2].
  split; [exact H1|]. split; [now apply negb_true_iff in H2|].
  apply existsb_exists in H3 as (l & Hl & He). apply String.eqb_eq in He. now rewrite He.
Qed.

Lemma label_class_cs x :
  item_match Utils.M (ISet [ARange "A" "D"]) x = true ->
  is_upper_label x = true /\
  In (str_upper (String x "")) ["A"; "B"; "C"; "D"].
Proof.
  intros H.
  apply (ascii_all_impl _
           (fun c => is_upper_label c &&
                     existsb (String.eqb (str_upper (String c ""))) ["A"; "B"; "C"; "D"]))
    in H; [|vm_compute; reflexivity].
  apply andb_true_iff in H as [H1 H3]. split; [exact H1|].
  apply existsb_exists in H3 as (l & Hl & He). apply String.eqb_eq in He. now rewrite He.
Qed.

Lemma separator_class x :
  item_match Utils.M (ISet [AChar "."; AChar ")"; AChar ":"; ASpace]) x = true ->
  is_separator x = true.
Proof. apply ascii_all_impl. vm_compute. reflexivity. Qed.

Lemma space_class fl x : item_match fl space x = true -> is_space x = true.
Proof. simpl. now rewrite orb_false_r. Qed.

Lemma digit_class fl x : item_match fl digit x = true -> is_digit x = true.
Proof. simpl. now rewrite orb_false_r. Qed.

Lemma any_class x : item_match Utils.I IAny x = true -> Ascii.eqb x newline = false.
Proof. simpl. now rewrite negb_true_iff. Qed.

(** [int] of one decimal digit is its value. *)
Lemma int_digit x :
  is_digit x = true ->
  exists v, int (String x "") = Ok v /\ (0 <= v <= 9)%Z.
Proof.
  intros H.
  apply (ascii_all_impl _
           (fun c => match int (String c "") with
                     | Ok v => (0 <=? v)%Z && (v <=? 9)%Z
                     | Err _ => false
                     end))
    in H; [|vm_compute; reflexivity].
  destruct (int (String x "")) as [v|e]; [|discriminate].
  exists v. split; [reflexivity|]. lia.
Qed.

End CharFacts.

(* ===================================================================== *)
(** ** What the parsers' patterns find *)
(* ===================================================================== *)

Section PatternFacts.
Import Py Re Utils Markers.

Lemma lit_matches fl w :
  IGNORECASE fl = true ->
  forall p s g p' s' g',
    matches fl (lit w) p s g p' s' g' -> after_word w s = Some s' /\ g' = g.
Proof.
  intros Hi. induction w as [|c w IH]; intros p s g p' s' g' H.
  - inversion H; subst. split; reflexivity.
  - assert (Hone : forall p s g p' s' g',
               matches fl (One (IChr c)) p s g p' s' g' ->
               exists x, s = String x s' /\ Ascii.eqb (lower x) (lower c) = true /\ g' = g).
    { intros p0 s0 g0 p1 s1 g1 H0. apply matches_one_inv in H0 as (x & -> & Hx & _ & ->).
      exists x. simpl in Hx. unfold chr_match in Hx. rewrite Hi in Hx. auto. }
    destruct w as [|d w].
    + apply Hone in H as (x & -> & Hx & ->). simpl. rewrite Hx. auto.
    + change (lit (String c (String d w)))
        with (Seq (One (IChr c)) (lit (String d w))) in H.
      apply matches_seq_inv in H as (p1 & s1 & g1 & H1 & H2).
      apply Hone in H1 as (x & -> & Hx & ->).
      apply IH in H2 as [H2 ->]. split; [|reflexivity].
      change (after_word (String c (String d w)) (String x s1))
        with (if Ascii.eqb (lower x) (lower c) then after_word (String d w) s1 else None).
      now rewrite Hx.
Qed.

Lemma somewhere_app f u t : f t = true -> somewhere f (u ++ t) = true.
Proof.
  intros H. induction u as [|x u IH].
  - rewrite str_app_nil. destruct t; simpl; now rewrite H.
  - rewrite str_app_cons. simpl. rewrite IH. apply orb_true_r.
Qed.

Lemma has_marker_intro w follows u t rest :
  after_word w t = Some rest -> follows rest = true ->
  has_marker w follows (u ++ t) = true.
Proof.
  intros Ha Hf. unfold has_marker. apply somewhere_app. now rewrite Ha.
Qed.

Lemma lstrip_spaces u v :
  (forall c, In c (list_ascii_of_string u) -> is_space c = true) ->
  lstrip (u ++ v) = lstrip v.
Proof.
  induction u as [|x u IH]; intros H; [reflexivity|].
  rewrite str_app_cons. simpl. rewrite (H x (or_introl eq_refl)).
  apply IH. intros c Hc. apply H. now right.
Qed.

Lemma only_newlines_app u x t :
  Ascii.eqb x newline = false -> only_newlines (u ++ String x t) = false.
Proof.
  intros Hx. induction u as [|y u IH].
  - rewrite str_app_nil. simpl. now rewrite Hx.
  - rewrite str_app_cons. simpl. rewrite IH. apply andb_false_r.
Qed.

Lemma line_label_intro c d t :
  is_upper_label c = true -> is_separator d = true ->
  forall u p,
    at_bol M (prev_after p u) = true ->
    line_label_from (at_bol M p) (u ++ String c (String d t)) = true.
Proof.
  intros Hc Hd. induction u as [|x u IH]; intros p Hp.
  - rewrite str_app_nil. simpl in *. now rewrite Hp, Hc, Hd.
  - rewrite str_app_cons. simpl in Hp.
    change (line_label_from (at_bol M p) (String x (u ++ String c (String d t))))
      with ((at_bol M p && is_upper_label x &&
             match (u ++ String c (String d t))%string with
             | String d0 _ => is_separator d0
             | EmptyString => false
             end)
            || line_label_from (at_bol M (Some x)) (u ++ String c (String d t))).
    rewrite (IH _ Hp). apply orb_true_r.
Qed.

Lemma decision_choice_re_eq :
  decision_choice_re =
  Seq (lit "CHOICE:") (Seq (Star true space) (Group (One (ISet [ARange "A" "D"])))).
Proof. reflexivity. Qed.

Lemma fallback_re_eq :
  fallback_re =
  Seq Bol (Seq (Group (One (ISet [ARange "A" "D"])))
               (One (ISet [AChar "."; AChar ")"; AChar ":"; ASpace]))).
Proof. reflexivity. Qed.

Lemma character_choice_re_eq :
  character_choice_re =
  Seq (lit "CHOICE:")
    (Seq (Star true space)
       (Seq (Group (Seq (One IAny) (Star false IAny)))
          (Alt (One (IChr newline)) (Alt (lit "REASONING") Eol)))).
Proof. reflexivity. Qed.

Lemma reasoning_re_eq :
  reasoning_re =
  Seq (lit "REASONING:")
    (Seq (Star true space) (Seq (Group (Seq (One IAny) (Star false IAny))) Eol)).
Proof. reflexivity. Qed.

Lemma ratings_pattern_eq :
  ratings_pattern = Seq (lit "Rate:") (Seq (Star true space) (Group (One digit))).
Proof. reflexivity. Qed.

(** The [CHOICE:] pattern of a decision finds a label after the marker. *)
Lemma decision_choice_found s m :
  search I decision_choice_re s = Some m ->
  has_choice_label s = true /\
  exists l, group_upper m = Ok l /\ In l ["A"; "B"; "C"; "D"].
Proof.
  intros H. apply search_from_sound in H as (u & Hs & Hm).
  rewrite decision_choice_re_eq in Hm.
  apply matches_seq_inv in Hm as (p1 & s1 & g1 & H1 & Hm).
  apply matches_seq_inv in Hm as (p2 & s2 & g2 & H2 & H3).
  apply lit_matches in H1 as [Hw ->]; [|reflexivity].
  apply matches_star_inv in H2 as (-> & ws & -> & Hws).
  apply matches_group_inv in H3 as (Hg & g0 & H3).
  apply matches_one_inv in H3 as (x & -> & Hx & _ & _).
  rewrite consumed_one in Hg.
  apply label_class_ci in Hx as (Hl & Hsp & Hu).
  split.
  - rewrite Hs. unfold has_choice_label. eapply has_marker_intro; [exact Hw|].
    rewrite lstrip_spaces by (intros c Hc; eapply space_class, Hws, Hc).
    simpl. now rewrite Hsp.
  - unfold group_upper, group1. rewrite Hg. eauto.
Qed.

(** The fallback pattern finds a label that starts a line. *)
Lemma fallback_found s m :
  search M fallback_re s = Some m ->
  has_line_label s = true /\
  exists l, group_upper m = Ok l /\ In l ["A"; "B"; "C"; "D"].
Proof.
  intros H. apply search_from_sound in H as (u & Hs & Hm).
  rewrite fallback_re_eq in Hm.
  apply matches_seq_inv in Hm as (p1 & s1 & g1 & H1 & Hm).
  apply matches_seq_inv in Hm as (p2 & s2 & g2 & H2 & H3).
  apply matches_bol_inv in H1 as (Hb & -> & -> & ->).
  apply matches_group_inv in H2 as (Hg & g0 & H2).
  apply matches_one_inv in H2 as (x & Hx0 & Hx & _ & _).
  apply matches_one_inv in H3 as (d & -> & Hd & Hp & Hg2).
  rewrite Hx0 in Hg. rewrite consumed_one in Hg.
  apply label_class_cs in Hx as (Hl & Hu). apply separator_class in Hd.
  split.
  - rewrite Hs, Hx0. unfold has_line_label.
    apply (line_label_intro x d _ Hl Hd u None Hb).
  - unfold group_upper, group1. rewrite Hg2, Hg. eauto.
Qed.

(** The [CHOICE:] pattern of a character selection finds text after the
    marker. *)
Lemma character_choice_found s m :
  search I character_choice_re s = Some m ->
  has_choice_text s = true /\ exists t, group1 m = Some t.
Proof.
  intros H. split; [|now apply (search_sets_group I character_choice_re s m)].
  apply search_from_sound in H as (u & Hs & Hm).
  rewrite character_choice_re_eq in Hm.
  apply matches_seq_inv in Hm as (p1 & s1 & g1 & H1 & Hm).
  apply matches_seq_inv in Hm as (p2 & s2 & g2 & H2 & Hm).
  apply matches_seq_inv in Hm as (p3 & s3 & g3 & H3 & _).
  apply lit_matches in H1 as [Hw ->]; [|reflexivity].
  apply matches_star_inv in H2 as (-> & ws & -> & Hws).
  apply matches_group_inv in H3 as (_ & g0 & H3).
  apply matches_seq_inv in H3 as (p4 & s4 & g4 & H3 & _).
  apply matches_one_inv in H3 as (x & -> & Hx & _ & _).
  apply any_class in Hx.
  rewrite Hs. unfold has_choice_text. eapply has_marker_intro; [exact Hw|].
  now rewrite only_newlines_app.
Qed.

(** The [REASONING:] pattern finds text after the marker. *)
Lemma reasoning_found s m :
  search I_S reasoning_re s = Some m ->
  has_reasoning_text s = true /\ exists t, group1 m = Some t.
Proof.
  intros H. split; [|now apply (search_sets_group I_S reasoning_re s m)].
  apply search_from_sound in H as (u & Hs & Hm).
  rewrite reasoning_re_eq in Hm.
  apply matches_seq_inv in Hm as (p1 & s1 & g1 & H1 & Hm).
  apply matches_seq_inv in Hm as (p2 & s2 & g2 & H2 & Hm).
  apply matches_seq_inv in Hm as (p3 & s3 & g3 & H3 & _).
  apply lit_matches in H1 as [Hw ->]; [|reflexivity].
  apply matches_star_inv in H2 as (-> & ws & -> & Hws).
  apply matches_group_inv in H3 as (_ & g0 & H3).
  apply matches_seq_inv in H3 as (p4 & s4 & g4 & H3 & _).
  apply matches_one_inv in H3 as (x & -> & Hx & _ & _).
  rewrite Hs. unfold has_reasoning_text. eapply has_marker_intro; [exact Hw|].
  destruct ws; reflexivity.
Qed.

(** Every hit of the ratings pattern is one decimal digit. *)
Lemma ratings_match_digit p0 s p' s' g' :
  matches I ratings_pattern p0 s None p' s' g' ->
  (exists x, g' = Some (String x "") /\ is_digit x = true) /\
  String.length s' < String.length s.
Proof.
  intros Hm. rewrite ratings_pattern_eq in Hm.
  apply matches_seq_inv in Hm as (p1 & s1 & g1 & H1 & Hm).
  apply matches_seq_inv in Hm as (p2 & s2 & g2 & H2 & H3).
  apply matches_suffix in H1 as Hsuf. destruct Hsuf as [u1 ->].
  apply matches_star_inv in H2 as (-> & ws & -> & Hws).
  apply matches_group_inv in H3 as (Hg & g0 & H3).
  apply matches_one_inv in H3 as (x & -> & Hx & _ & _).
  rewrite consumed_one in Hg. apply digit_class in Hx.
  split; [eauto|]. rewrite !str_length_app. simpl. lia.
Qed.

Lemma findall_ratings_digits fuel :
  forall p s,
    Forall (fun t => exists x, t = String x "" /\ is_digit x = true)
           (findall_from fuel I ratings_pattern p s).
Proof.
  induction fuel as [|fuel IH]; intros p s; simpl; [constructor|].
  destruct (search_from I ratings_pattern p s) as [m|] eqn:Hs; [|constructor].
  apply search_from_sound in Hs as (u & Hu & Hm).
  apply ratings_match_digit in Hm as ((x & Hg & Hx) & Hlen).
  rewrite Hg. apply Nat.ltb_lt in Hlen. rewrite Hlen.
  constructor; [eauto | apply IH].
Qed.

Lemma question_sets_group number marker :
  sets_group (question_re number marker) = true.
Proof.
  unfold question_re. cbn [cat sets_group].
  destruct (sets_group (lit number)), (sets_group (lit marker)); reflexivity.
Qed.

End PatternFacts.

(* ===================================================================== *)
(** ** The matcher finds whatever the pattern describes *)
(* ===================================================================== *)

Section MatcherComplete.
Import Py Re.

Variable fl : flags.

Lemma mtch_complete r p s g p' s' g' :
  matches fl r p s g p' s' g' ->
  forall k : cont,
    (exists m, k p' s' g' = Some m) -> exists m, mtch fl r k p s g = Some m.
Proof.
  induction 1; intros k Hk; simpl.
  - exact Hk.
  - now rewrite H.
  - apply IHmatches1. apply IHmatches2. exact Hk.
  - destruct (IHmatches k Hk) as [m ->]. eauto.
  - destruct (mtch fl r1 k p s g); [eauto | apply IHmatches, Hk].
  - destruct Hk as [m Hk]. destruct s as [|x t]; simpl; [eauto|].
    destruct (item_match fl i x); [|eauto].
    destruct greedy.
    + destruct (star fl true i k (Some x) t g); eauto.
    + rewrite Hk. eauto.
  - rewrite H. destruct (IHmatches k Hk) as [m Hm]. simpl in Hm.
    destruct greedy.
    + rewrite Hm. eauto.
    + destruct (k p (String x t) g); eauto.
  - apply IHmatches. exact Hk.
  - now rewrite H.
  - now rewrite H.
  - destruct (IHmatches (fun p' s' g' => Some (MState p' s' g'))) as [m ->]; eauto.
Qed.

(** If the pattern matches from some position of the text, [re.search]
    returns a match. *)
Lemma search_from_complete r u t p' s' g' :
  forall p,
    matches fl r (prev_after p u) t None p' s' g' ->
    exists m, search_from fl r p (u ++ t) = Some m.
Proof.
  assert (Hhere : forall p s, matches fl r p s None p' s' g' ->
                              exists m, search_from fl r p s = Some m).
  { intros p s Hm. apply mtch_complete with (k := accept) in Hm; [|unfold accept; eauto].
    destruct Hm as [m Hm]. destruct s; simpl; rewrite Hm; eauto. }
  induction u as [|x u IH]; intros p Hm.
  - rewrite str_app_nil. now apply Hhere.
  - rewrite str_app_cons. simpl.
    destruct (mtch fl r accept p (String x (u ++ t)) None); [eauto|].
    apply IH. exact Hm.
Qed.

(** A repetition can read any run of characters of its class. *)
Lemma matches_star_run greedy i u :
  (forall c, In c (list_ascii_of_string u) -> item_match fl i c = true) ->
  forall p v g, matches fl (Star greedy i) p (u ++ v) g (prev_after p u) v g.
Proof.
  induction u as [|x u IH]; intros Hu p v g.
  - rewrite str_app_nil. constructor.
  - rewrite str_app_cons. simpl. apply matches_star_more.
    + apply Hu. now left.
    + apply IH. intros c Hc. apply Hu. now right.
Qed.

End MatcherComplete.

(* ===================================================================== *)
(** ** The markers are what the patterns find *)
(* ===================================================================== *)

Section MarkersComplete.
Import Py Re Utils Markers.

Lemma somewhere_split f s :
  somewhere f s = true -> exists u t, s = (u ++ t)%string /\ f t = true.
Proof.
  induction s as [|x s IH]; simpl; intros H.
  - rewrite orb_false_r in H. now exists "", "".
  - apply orb_true_iff in H as [H|H].
    + now exists "", (String x s).
    + destruct (IH H) as (u & t & -> & Ht). now exists (String x u), t.
Qed.

Lemma has_marker_split w follows s :
  has_marker w follows s = true ->
  exists u t rest,
    s = (u ++ t)%string /\ after_word w t = Some rest /\ follows rest = true.
Proof.
  intros H. apply somewhere_split in H as (u & t & -> & H).
  destruct (after_word w t) as [rest|] eqn:Hw; [|discriminate]. eauto 6.
Qed.

Lemma lit_complete fl w :
  IGNORECASE fl = true ->
  forall p t g rest,
    after_word w t = Some rest -> exists p', matches fl (lit w) p t g p' rest g.
Proof.
  intros Hi. induction w as [|c w IH]; intros p t g rest H.
  - simpl in H. injection H as <-. exists p. constructor.
  - destruct t as [|x t]; [destruct w; discriminate|].
    assert (Hx : Ascii.eqb (lower x) (lower c) = true /\ after_word w t = Some rest).
    { simpl in H. destruct (Ascii.eqb (lower x) (lower c)); [auto | discriminate]. }
    destruct Hx as [Hx Hw].
    assert (Hone : matches fl (One (IChr c)) p (String x t) g (Some x) t g).
    { constructor. simpl. unfold chr_match. now rewrite Hi. }
    destruct w as [|d w].
    + simpl in Hw. injection Hw as <-. exists (Some x). exact Hone.
    + destruct (IH (Some x) t g rest Hw) as [p' Hm]. exists p'.
      change (lit (String c (String d w)))
        with (Seq (One (IChr c)) (lit (String d w))).
      eapply matches_seq; eassumption.
Qed.

Lemma lstrip_split s :
  exists u, s = (u ++ lstrip s)%string /\
            forall c, In c (list_ascii_of_string u) -> is_space c = true.
Proof.
  induction s as [|x s IH]; simpl.
  - exists "". split; [reflexivity | intros c []].
  - destruct (is_space x) eqn:Hx.
    + destruct IH as (u & Hu & Hsp). exists (String x u). split.
      * rewrite str_app_cons. now rewrite <- Hu.
      * intros c [<-|Hc]; auto.
    + exists "". split; [reflexivity | intros c []].
Qed.

Lemma only_newlines_split s :
  only_newlines s = false ->
  exists u x t,
    s = (u ++ String x t)%string /\
    (forall c, In c (list_ascii_of_string u) -> is_space c = true) /\
    Ascii.eqb x newline = false.
Proof.
  induction s as [|y s IH]; simpl; [discriminate|].
  destruct (Ascii.eqb_spec y newline) as [->|Hy]; simpl.
  - intros H. destruct (IH H) as (u & x & t & -> & Hu & Hx).
    exists (String newline u), x, t. split; [reflexivity|]. split; [|exact Hx].
    intros c [<-|Hc]; [reflexivity | auto].
  - intros _. exists "", y, s. split; [reflexivity|]. split; [intros c []|].
    now apply Ascii.eqb_neq.
Qed.

(** The text up to the end of the line. *)
Lemma line_split s :
  exists v rest,
    s = (v ++ rest)%string /\
    (forall c, In c (list_ascii_of_string v) -> Ascii.eqb c newline = false) /\
    (rest = "" \/ exists t, rest = String newline t).
Proof.
  induction s as [|y s IH].
  - exists "", "". split; [reflexivity|]. split; [intros c [] | now left].
  - destruct (Ascii.eqb_spec y newline) as [->|Hy].
    + exists "", (String newline s). split; [reflexivity|]. split; [intros c [] | eauto].
    + destruct IH as (v & rest & -> & Hv & Hrest). exists (String y v), rest.
      split; [reflexivity|]. split; [|exact Hrest].
      intros c [<-|Hc]; [now apply Ascii.eqb_neq | auto].
Qed.

Lemma label_class_ci_complete x :
  is_label x = true -> item_match I (ISet [ARange "A" "D"]) x = true.
Proof. apply ascii_all_impl. vm_compute. reflexivity. Qed.

Lemma label_class_cs_complete x :
  is_upper_label x = true -> item_match M (ISet [ARange "A" "D"]) x = true.
Proof. apply ascii_all_impl. vm_compute. reflexivity. Qed.

Lemma separator_class_complete x :
  is_separator x = true ->
  item_match M (ISet [AChar "."; AChar ")"; AChar ":"; ASpace]) x = true.
Proof. apply ascii_all_impl. vm_compute. reflexivity. Qed.

Lemma space_class_complete fl x : is_space x = true -> item_match fl space x = true.
Proof. simpl. now rewrite orb_false_r. Qed.

(** The decision parser's first pattern finds a match exactly in the texts
    that have a [CHOICE:] marker with a label. *)
Lemma choice_label_iff s :
  has_choice_label s = true <-> exists m, search I decision_choice_re s = Some m.
Proof.
  split; [|intros [m Hm]; now apply decision_choice_found in Hm].
  intros H. apply has_marker_split in H as (u & t & rest & -> & Hw & Hf).
  destruct (lstrip rest) as [|c tail] eqn:Hl; [discriminate|].
  destruct (lstrip_split rest) as (ws & Hrest & Hws). rewrite Hl in Hrest. subst rest.
  destruct (lit_complete I "CHOICE:" eq_refl (prev_after None u) t None _ Hw) as [p1 H1].
  eapply search_from_complete. rewrite decision_choice_re_eq.
  eapply matches_seq; [exact H1|].
  eapply matches_seq.
  - apply matches_star_run. intros x Hx. apply space_class_complete. auto.
  - eapply matches_group. constructor. now apply label_class_ci_complete.
Qed.

Lemma line_label_split s :
  forall b,
    line_label_from b s = true ->
    exists u c d t,
      s = (u ++ String c (String d t))%string /\
      is_upper_label c = true /\ is_separator d = true /\
      forall p, at_bol M p = b -> at_bol M (prev_after p u) = true.
Proof.
  induction s as [|c0 s IH]; intros b H; simpl in H; [discriminate|].
  apply orb_true_iff in H as [H|H].
  - apply andb_true_iff in H as [H Hd]. apply andb_true_iff in H as [Hb Hc].
    destruct s as [|d t]; [discriminate|].
    exists "", c0, d, t. split; [reflexivity|]. split; [exact Hc|]. split; [exact Hd|].
    intros p Hp. simpl. now rewrite Hp.
  - destruct (IH _ H) as (u & c & d & t & -> & Hc & Hd & Hp).
    exists (String c0 u), c, d, t. split; [reflexivity|]. split; [exact Hc|].
    split; [exact Hd|]. intros p _. simpl. apply Hp. reflexivity.
Qed.

(** The fallback pattern finds a match exactly in the texts that have a
    label at the start of a line, before a separator. *)
Lemma line_label_iff s :
  has_line_label s = true <-> exists m, search M fallback_re s = Some m.
Proof.
  split; [|intros [m Hm]; now apply fallback_found in Hm].
  intros H. apply line_label_split in H as (u & c & d & t & -> & Hc & Hd & Hp).
  eapply search_from_complete. rewrite fallback_re_eq.
  eapply matches_seq; [apply matches_bol, Hp; reflexivity|].
  eapply matches_seq.
  - eapply matches_group. constructor. now apply label_class_cs_complete.
  - constructor. now apply separator_class_complete.
Qed.

(** The character parser's pattern finds a match exactly in the texts that
    have a [CHOICE:] marker followed by something other than newlines. *)
Lemma choice_text_iff s :
  has_choice_text s = true <-> exists m, search I character_choice_re s = Some m.
Proof.
  split; [|intros [m Hm]; now apply character_choice_found in Hm].
  intros H. apply has_marker_split in H as (u & t & rest & -> & Hw & Hf).
  apply negb_true_iff, only_newlines_split in Hf as (ws & x & tail & -> & Hws & Hx).
  destruct (line_split tail) as (v & rest' & -> & Hv & Hrest).
  destruct Hrest as [->|[t' ->]].
  all: destruct (lit_complete I "CHOICE:" eq_refl (prev_after None u) t None _ Hw) as [p1 H1];
    eapply search_from_complete; rewrite character_choice_re_eq;
    (eapply matches_seq; [exact H1|]);
    (eapply matches_seq;
       [apply matches_star_run; intros c Hc; apply space_class_complete; auto|]);
    (eapply matches_seq;
       [eapply matches_group; eapply matches_seq;
          [constructor; simpl; now rewrite Hx
          |apply matches_star_run; intros c Hc; simpl; now rewrite (Hv c Hc)]|]).
  - apply matches_alt_r, matches_alt_r, matches_eol. reflexivity.
  - apply matches_alt_l, matches_one. reflexivity.
Qed.

(** The reasoning pattern finds a match exactly in the texts that have a
    [REASONING:] marker followed by text. *)
Lemma reasoning_text_iff s :
  has_reasoning_text s = true <-> exists m, search I_S reasoning_re s = Some m.
Proof.
  split; [|intros [m Hm]; now apply reasoning_found in Hm].
  intros H. apply has_marker_split in H as (u & t & rest & -> & Hw & Hf).
  destruct rest as [|x tail]; [discriminate|].
  destruct (lit_complete I_S "REASONING:" eq_refl (prev_after None u) t None _ Hw) as [p1 H1].
  eapply search_from_complete. rewrite reasoning_re_eq.
  eapply matches_seq; [exact H1|].
  eapply matches_seq; [apply matches_star_stop|].
  eapply matches_seq.
  { eapply matches_group. eapply matches_seq.
    - now constructor.
    - rewrite <- (str_app_empty_r tail) at 1.
      apply matches_star_run. intros c Hc. reflexivity. }
  apply matches_eol. reflexivity.
Qed.

End MarkersComplete.

(* ===================================================================== *)
(** ** The response parsers *)
(* ===================================================================== *)

Section Parsers.
Import Py Re Utils Markers.

Ltac unbind := unfold mbind, result_bind, rbind.

Lemma truthy_text s n : s <> "" -> truthy_of (PyStr s) n = Ok true.
Proof.
  intros Hne. simpl. f_equal. apply negb_true_iff. now apply String.eqb_neq.
Qed.

(** The guard of a parser lets a non-empty text through. *)
Ltac pass_guard Hne :=
  rewrite (truthy_text _ 0 Hne); unbind; cbn [negb orb is_str chars_of].

Lemma strip_or_ok fl r s dflt :
  sets_group r = true ->
  exists t, strip_or (search fl r s) dflt = Ok t /\
            (search fl r s = None -> t = dflt).
Proof.
  intros Hs. destruct (search fl r s) as [m|] eqn:Hm; simpl.
  - destruct (search_sets_group fl r s m Hs Hm) as [t Ht].
    unfold group_strip. rewrite Ht. exists (strip t). split; [reflexivity | discriminate].
  - exists dflt. split; reflexivity.
Qed.

Lemma answer_ok number marker text dflt :
  exists t, answer number marker text dflt = Ok t.
Proof.
  destruct (strip_or_ok I_S (question_re number marker) text dflt
              (question_sets_group number marker)) as (t & Ht & _).
  now exists t.
Qed.

Lemma rating_at_digit ratings i t :
  Forall (fun t => exists x, t = String x "" /\ is_digit x = true) ratings ->
  nth_error ratings i = Some t ->
  exists v, rating_at ratings i = Ok v /\ (0 <= v <= 9)%Z.
Proof.
  intros Hall Hn. unfold rating_at, index. rewrite Hn. unbind.
  rewrite List.Forall_forall in Hall.
  destruct (Hall t) as (x & -> & Hx); [eapply nth_error_In; eassumption|].
  now apply int_digit.
Qed.

(** The ratings read from the hits: the defaults below five hits, the first
    five hits, as integers, from five on. *)
Lemma read_ratings_spec ratings fb :
  Forall (fun t => exists x, t = String x "" /\ is_digit x = true) ratings ->
  exists r0 r1 r2 r3 r4,
    read_ratings ratings fb = Ok (r0, r1, r2, r3, r4) /\
    (length ratings < 5 ->
       r0 = realistic fb /\ r1 = felt_safe fb /\ r2 = helpful_feedback fb /\
       r3 = would_recommend fb /\ r4 = confidence fb) /\
    (5 <= length ratings ->
       rating_at ratings 0 = Ok r0 /\ rating_at ratings 1 = Ok r1 /\
       rating_at ratings 2 = Ok r2 /\ rating_at ratings 3 = Ok r3 /\
       rating_at ratings 4 = Ok r4 /\
       (0 <= r0 <= 9)%Z /\ (0 <= r1 <= 9)%Z /\ (0 <= r2 <= 9)%Z /\
       (0 <= r3 <= 9)%Z /\ (0 <= r4 <= 9)%Z).
Proof.
  intros Hall. unfold read_ratings.
  destruct (Nat.leb 5 (length ratings)) eqn:Hlen.
  - apply Nat.leb_le in Hlen.
    destruct ratings as [|a [|b [|c [|d [|e rest]]]]]; simpl in Hlen; try lia.
    destruct (rating_at_digit _ 0 a Hall eq_refl) as (r0 & E0 & B0).
    destruct (rating_at_digit _ 1 b Hall eq_refl) as (r1 & E1 & B1).
    destruct (rating_at_digit _ 2 c Hall eq_refl) as (r2 & E2 & B2).
    destruct (rating_at_digit _ 3 d Hall eq_refl) as (r3 & E3 & B3).
    destruct (rating_at_digit _ 4 e Hall eq_refl) as (r4 & E4 & B4).
    exists r0, r1, r2, r3, r4. rewrite E0, E1, E2, E3, E4. unbind.
    split; [reflexivity|]. split; [simpl; lia|]. intros _. repeat split; try reflexivity; lia.
  - apply Nat.leb_gt in Hlen.
    exists (realistic fb), (felt_safe fb), (helpful_feedback fb),
           (would_recommend fb), (confidence fb).
    split; [reflexivity|]. split; [auto | lia].
Qed.

(** The survey parser on a non-empty text: it returns, and its ratings are
    the ones [read_ratings] gives. *)
Lemma parse_feedback_text s :
  s <> "" ->
  exists fb r0 r1 r2 r3 r4,
    parse_feedback_response (PyStr s) = Ok fb /\
    read_ratings (findall I ratings_pattern s) (default_feedback s)
      = Ok (r0, r1, r2, r3, r4) /\
    realistic fb = r0 /\ felt_safe fb = r1 /\ helpful_feedback fb = r2 /\
    would_recommend fb = r3 /\ confidence fb = r4 /\ raw_response fb = s.
Proof.
  intros Hne. unfold parse_feedback_response, raw_text.
  rewrite (truthy_text _ 0 Hne), (truthy_text _ 1 Hne).
  unbind. cbn [negb orb is_str chars_of str_of].
  destruct (read_ratings_spec (findall I ratings_pattern s) (default_feedback s)
              (findall_ratings_digits _ _ _))
    as (r0 & r1 & r2 & r3 & r4 & Hr & _).
  rewrite Hr. unbind.
  destruct (answer_ok "1" "Explain:" s (realistic_explain (default_feedback s))) as [e1 ->].
  destruct (answer_ok "2" "Explain:" s (felt_safe_explain (default_feedback s))) as [e2 ->].
  destruct (answer_ok "3" "Explain:" s (helpful_feedback_explain (default_feedback s))) as [e3 ->].
  destruct (answer_ok "4" "Explain:" s (would_recommend_explain (default_feedback s))) as [e4 ->].
  destruct (answer_ok "5" "Explain:" s (confidence_explain (default_feedback s))) as [e5 ->].
  destruct (answer_ok "6" "Answer:" s (most_valuable_scenario (default_feedback s))) as [a6 ->].
  destruct (answer_ok "7" "Answer:" s (likely_strategy (default_feedback s))) as [a7 ->].
  destruct (answer_ok "8" "Answer:" s (what_worked (default_feedback s))) as [a8 ->].
  destruct (answer_ok "9" "Answer:" s (improvements (default_feedback s))) as [a9 ->].
  destruct (answer_ok "10" "Answer:" s (cultural_relevance (default_feedback s))) as [a10 ->].
  eexists _, r0, r1, r2, r3, r4. split; [reflexivity|].
  split; [reflexivity|]. repeat split; reflexivity.
Qed.



Lemma parse_feedback_other truth text :
  parse_feedback_response (PyOther truth text)
  = (raw ← raw_text (PyOther truth text); _ ← truth 1; Ok (default_feedback raw)).
Proof.
  unfold parse_feedback_response. unbind.
  destruct (raw_text (PyOther truth text)); [|reflexivity]. simpl.
  destruct (truth 1) as [[]|]; reflexivity.
Qed.

(** Every rating that the survey parser returns is a digit's value or the
    default: it lies between 0 and 9. *)
Lemma feedback_ratings_range v fb :
  parse_feedback_response v = Ok fb ->
  (0 <= realistic fb <= 9)%Z /\ (0 <= felt_safe fb <= 9)%Z /\
  (0 <= helpful_feedback fb <= 9)%Z /\ (0 <= would_recommend fb <= 9)%Z /\
  (0 <= confidence fb <= 9)%Z.
Proof.
  intros H. destruct v as [|s|truth text].
  { injection H as <-. simpl. lia. }
  2: { rewrite parse_feedback_other in H. unbind.
       destruct (raw_text (PyOther truth text)); [|discriminate].
       destruct (truth 1); [|discriminate]. injection H as <-. simpl. lia. }
  destruct (String.eqb_spec s "") as [->|Hne].
  - injection H as <-. simpl. lia.
  - destruct (parse_feedback_text s Hne)
      as (fb' & r0 & r1 & r2 & r3 & r4 & Hp & Hr & <- & <- & <- & <- & <- & _).
    rewrite Hp in H. injection H as <-.
    destruct (read_ratings_spec (findall I ratings_pattern s) (default_feedback s)
                (findall_ratings_digits _ _ _))
      as (q0 & q1 & q2 & q3 & q4 & Hq & Hlt & Hge).
    rewrite Hr in Hq. injection Hq as <- <- <- <- <-.
    destruct (Nat.lt_ge_cases (length (findall I ratings_pattern s)) 5) as [Hl|Hl].
    + destruct (Hlt Hl) as (-> & -> & -> & -> & ->). simpl. lia.
    + destruct (Hge Hl) as (_ & _ & _ & _ & _ & B). exact B.
Qed.




(** C3. For every text: with fewer than five hits of the ratings pattern
    the five ratings are the default 3; with five or more, the ratings are the
    first five hits read as integers, in the order realism, safety, feedback
    quality, recommendation, confidence. *)
Theorem ratings_all_or_nothing (s : string) :
  exists fb,
    parse_feedback_response (PyStr s) = Ok fb /\
    let ratings := findall I ratings_pattern s in
    (length ratings < 5 ->
       realistic fb = 3%Z /\ felt_safe fb = 3%Z /\ helpful_feedback fb = 3%Z /\
       would_recommend fb = 3%Z /\ confidence fb = 3%Z) /\
    (5 <= length ratings ->
       rating_at ratings 0 = Ok (realistic fb) /\
       rating_at ratings 1 = Ok (felt_safe fb) /\
       rating_at ratings 2 = Ok (helpful_feedback fb) /\
       rating_at ratings 3 = Ok (would_recommend fb) /\
       rating_at ratings 4 = Ok (confidence fb)).
Proof.
  destruct (String.eqb_spec s "") as [->|Hne].
  - exists (default_feedback ""). split; [reflexivity|].
    change (findall I ratings_pattern "") with (@nil string).
    split; [intros _; repeat split; reflexivity | simpl; lia].
  - destruct (parse_feedback_text s Hne)
      as (fb & r0 & r1 & r2 & r3 & r4 & Hp & Hr & <- & <- & <- & <- & <- & _).
    exists fb. split; [exact Hp|].
    destruct (read_ratings_spec (findall I ratings_pattern s) (default_feedback s)
                (findall_ratings_digits _ _ _))
      as (q0 & q1 & q2 & q3 & q4 & Hq & Hlt & Hge).
    rewrite Hr in Hq. injection Hq as <- <- <- <- <-.
    split.
    + intros Hl. destruct (Hlt Hl) as (-> & -> & -> & -> & ->). repeat split; reflexivity.
    + intros Hl. destruct (Hge Hl) as (E0 & E1 & E2 & E3 & E4 & _). auto.
Qed.

(** C7. On a reply whose five [Rate:] markers carry the digits 9, 0, 7, 6
    and 8 the survey parser returns exactly these as the ratings: none of
    them lies in the domain 1-5. *)
Theorem rating_outside_domain :
  exists fb,
    parse_feedback_response (PyStr "Rate: 9 Rate: 0 Rate: 7 Rate: 6 Rate: 8") = Ok fb /\
    realistic fb = 9%Z /\ felt_safe fb = 0%Z /\ helpful_feedback fb = 7%Z /\
    would_recommend fb = 6%Z /\ confidence fb = 8%Z.
Proof. eexists. split; [vm_compute; reflexivity|]. repeat split; reflexivity. Qed.

(** C4, as amended. A decision text with no [CHOICE:] marker before a label
    and no label at the start of a line before a separator gives the label
    ["A"], the first of the fixed alphabet A-D, whatever the labels of the
    decision point are.  (These are the texts in which neither pattern of
    the parser finds a match: [choice_label_iff], [line_label_iff].) *)
Theorem no_marker_gives_first_letter (s : string) :
  has_choice_label s = false ->
  has_line_label s = false ->
  exists reasoning, parse_decision_response (PyStr s) = Ok ("A", reasoning).
Proof.
  intros Hc Hl. unfold parse_decision_response.
  destruct (String.eqb_spec s "") as [->|Hne]; [eexists; reflexivity|].
  pass_guard Hne.
  destruct (strip_or_ok I_S reasoning_re s "Default reasoning" eq_refl) as (rs & -> & _).
  destruct (search I decision_choice_re s) as [m|] eqn:Hm.
  { apply decision_choice_found in Hm as [Hm _]. congruence. }
  destruct (search M fallback_re s) as [m|] eqn:Hf.
  { apply fallback_found in Hf as [Hf _]. congruence. }
  unbind. eexists; reflexivity.
Qed.

Lemma no_marker_gives_first_letter_witness :
  has_choice_label "I would rather walk away" = false /\
  has_line_label "I would rather walk away" = false /\
  exists reasoning,
    parse_decision_response (PyStr "I would rather walk away") = Ok ("A", reasoning).
Proof.
  split; [reflexivity|]. split; [reflexivity|].
  apply (no_marker_gives_first_letter "I would rather walk away"); reflexivity.
Defined.

(** C4 as stated fails: the labels of a decision point are whatever the
    scenario file gives, the parser is not told them, and on a text without
    marker it answers ["A"], which need not be the first label, nor a label
    at all. *)
Lemma first_label_counterexample :
  let options := [("B", Sim.ChoiceOption "Step in" [] "ok");
                  ("C", Sim.ChoiceOption "Walk away" [] "ok")] in
  let text := "I would rather walk away" in
  has_choice_label text = false /\
  has_line_label text = false /\
  head (Sim.keys options) = Some "B" /\
  exists label reasoning,
    parse_decision_response (PyStr text) = Ok (label, reasoning) /\
    Some label <> head (Sim.keys options) /\
    Sim.has_key label options = false.
Proof.
  cbv zeta. split; [reflexivity|]. split; [reflexivity|]. split; [reflexivity|].
  exists "A", "Default reasoning". split; [vm_compute; reflexivity|].
  split; [discriminate | reflexivity].
Qed.

(** C6, as amended. A text in which no [CHOICE:] marker is followed by text
    gives the default character; and if no [REASONING:] marker is followed
    by text either, the reasoning is a default string.  (These are the texts
    in which the parser's patterns find no match: [choice_text_iff],
    [reasoning_text_iff].) *)
Theorem no_choice_marker_gives_default (s : string) :
  has_choice_text s = false ->
  exists reasoning,
    parse_character_selection (PyStr s) = Ok ("Alex Chen", reasoning) /\
    (has_reasoning_text s = false ->
       reasoning = "Selected based on background" \/
       reasoning = "Default selection due to invalid response").
Proof.
  intros Hc. unfold parse_character_selection.
  destruct (String.eqb_spec s "") as [->|Hne]; [eexists; split; [reflexivity | auto]|].
  pass_guard Hne.
  destruct (strip_or_ok I_S reasoning_re s "Selected based on background" eq_refl)
    as (rs & -> & Hrs).
  destruct (search I character_choice_re s) as [m|] eqn:Hm.
  { apply character_choice_found in Hm as [Hm _]. congruence. }
  unbind. exists rs. split; [reflexivity|]. intros Hr. left. apply Hrs.
  destruct (search I_S reasoning_re s) as [m|] eqn:Hm'; [|reflexivity].
  apply reasoning_found in Hm' as [Hm' _]. congruence.
Qed.

(** A marker whose text names nobody on the roster: the text is returned,
    stripped, as the character. *)
Lemma unknown_character_kept s m t :
  s <> "" ->
  search I character_choice_re s = Some m ->
  group1 m = Some t ->
  find (fun char_name => contains (str_lower char_name) (str_lower (strip t))) roster = None ->
  exists reasoning, parse_character_selection (PyStr s) = Ok (strip t, reasoning).
Proof.
  intros Hne Hm Hg Hf. unfold parse_character_selection.
  pass_guard Hne.
  destruct (strip_or_ok I_S reasoning_re s "Selected based on background" eq_refl)
    as (rs & -> & _).
  rewrite Hm. unfold group_strip. rewrite Hg. unbind.
  unfold match_roster. rewrite Hf. eexists; reflexivity.
Qed.

Lemma no_choice_marker_gives_default_witness :
  has_choice_text "I feel closest to Sam" = false /\
  exists reasoning,
    parse_character_selection (PyStr "I feel closest to Sam") = Ok ("Alex Chen", reasoning) /\
    (has_reasoning_text "I feel closest to Sam" = false ->
       reasoning = "Selected based on background" \/
       reasoning = "Default selection due to invalid response").
Proof.
  split; [reflexivity|].
  apply (no_choice_marker_gives_default "I feel closest to Sam"); reflexivity.
Defined.

(** C6 as stated fails twice.  A [CHOICE:] marker whose text names nobody on
    the roster gives that text back, not the default character; and the
    reasoning is read from its own marker whatever the choice was, so a
    text without [CHOICE:] marker can carry a reasoning that is no default. *)
Lemma unknown_character_counterexample :
  (search I character_choice_re "CHOICE: Bob" <> None /\
   forallb (fun n => negb (contains (str_lower n) (str_lower "Bob"))) roster = true /\
   parse_character_selection (PyStr "CHOICE: Bob")
     = Ok ("Bob", "Selected based on background")) /\
  (search I character_choice_re "REASONING: I like art" = None /\
   parse_character_selection (PyStr "REASONING: I like art")
     = Ok ("Alex Chen", "I like art")).
Proof. vm_compute. repeat split; try reflexivity. discriminate. Qed.

End Parsers.

(* ===================================================================== *)
(** ** The decision resolver *)
(* ===================================================================== *)

Section Resolver.
Import Py Sim.

Lemma bind_inv {A B} (m : M A) (f : A -> M B) st r st' :
  (m ≫= f) st = (r, st') ->
  (exists a st1, m st = (Ok a, st1) /\ f a st1 = (r, st')) \/
  (exists e, m st = (Err e, st') /\ r = Err e).
Proof.
  unfold mbind, M_bind, bind. destruct (m st) as [[a|e] st1]; intros H.
  - left. eauto.
  - right. injection H as <- <-. eauto.
Qed.

Lemma option_get_In label options o :
  option_get label options = Some o -> In label (keys options).
Proof.
  induction options as [|[k o'] rest IH]; simpl; [discriminate|].
  destruct (String.eqb_spec k label) as [->|Hne]; [auto|]. intros H. right. auto.
Qed.

Lemma In_option_get label options :
  In label (keys options) -> exists o, option_get label options = Some o.
Proof.
  induction options as [|[k o'] rest IH]; simpl; [intros []|].
  destruct (String.eqb_spec k label) as [->|Hne]; [eauto|].
  intros [H|H]; [contradiction | auto].
Qed.

Lemma has_key_true label options :
  has_key label options = true <-> In label (keys options).
Proof.
  unfold has_key. split.
  - destruct (option_get label options) eqn:H; [|discriminate].
    intros _. eapply option_get_In, H.
  - intros H. apply In_option_get in H as [o ->]. reflexivity.
Qed.

Lemma random_choice_some {A} sim (l : list A) st :
  l <> [] ->
  exists c,
    random_choice sim l st
      = (Ok c, JState (S (draws st)) (calls st) (journey st) (scenario_result st)) /\
    nth_error l (rand sim (draws st) mod length l) = Some c.
Proof.
  intros Hne. destruct l as [|a l]; [contradiction|].
  unfold random_choice, mbind, M_bind, bind, randbelow, lift, index.
  assert (Hlt : rand sim (draws st) mod length (a :: l) < length (a :: l)).
  { apply Nat.mod_upper_bound. simpl. lia. }
  destruct (nth_error (a :: l) (rand sim (draws st) mod length (a :: l))) as [c|] eqn:Hn.
  - exists c. split; reflexivity.
  - apply nth_error_None in Hn. lia.
Qed.

(** C1. Whatever label was extracted, and for every decision point with at
    least one option, the resolver returns a record whose label is one of
    the decision point's labels.  A legal extracted label is kept, with its
    reasoning, and no random draw is made; an illegal one is replaced by the
    label that the next draw of the generator picks among the legal ones,
    and the reasoning becomes the fixed parsing-error marker that shows in
    the record. *)
Theorem resolver_returns_legal_label sim dp (parsed : string * string) st :
  dp_options dp <> [] ->
  exists d st',
    resolve_decision sim dp parsed st = (Ok d, st') /\
    In (choice d) (keys (dp_options dp)) /\
    (In (fst parsed) (keys (dp_options dp)) ->
       choice d = fst parsed /\ reasoning d = snd parsed /\ st' = st) /\
    (~ In (fst parsed) (keys (dp_options dp)) ->
       nth_error (keys (dp_options dp))
         (rand sim (draws st) mod length (keys (dp_options dp))) = Some (choice d) /\
       reasoning d = "Default choice due to parsing error").
Proof.
  intros Hne. unfold resolve_decision.
  destruct (has_key (fst parsed) (dp_options dp)) eqn:Hk; cbn [negb].
  - apply has_key_true in Hk as Hin. destruct (In_option_get _ _ Hin) as [o Ho].
    unfold mbind, M_bind, bind, ret, lift, option_item. rewrite Ho.
    eexists _, st. split; [reflexivity|]. cbn [choice reasoning].
    split; [exact Hin|]. split; [auto | intros Hn; contradiction].
  - assert (Hk' : keys (dp_options dp) <> []).
    { unfold keys. destruct (dp_options dp); [contradiction | discriminate]. }
    destruct (random_choice_some sim _ st Hk') as (c & Hc & Hn).
    assert (Hin : In c (keys (dp_options dp))) by (eapply nth_error_In; exact Hn).
    destruct (In_option_get _ _ Hin) as [o Ho].
    unfold mbind, M_bind, bind, ret, lift, option_item in *. rewrite Hc. cbn [fst snd].
    rewrite Ho. eexists _, _. split; [reflexivity|]. cbn [choice reasoning].
    split; [exact Hin|]. split.
    + intros Hl. apply has_key_true in Hl. congruence.
    + intros _. split; [exact Hn | reflexivity].
Qed.

Lemma resolver_returns_legal_label_witness :
  let dp := DecisionPoint "d1" "What do you do?"
              [("A", ChoiceOption "Step in" ["direct_intervention"] "Good");
               ("B", ChoiceOption "Walk away" [] "Hm")] in
  let sim := Simulator [] (fun n => n) message in
  let st := start (Persona "P" "" "" (fun _ => Ok [])) 1 in
  exists d st',
    resolve_decision sim dp ("E", "I prefer E") st = (Ok d, st') /\
    In (choice d) (keys (dp_options dp)) /\
    (In "E" (keys (dp_options dp)) ->
       choice d = "E" /\ reasoning d = "I prefer E" /\ st' = st) /\
    (~ In "E" (keys (dp_options dp)) ->
       nth_error (keys (dp_options dp))
         (rand sim (draws st) mod length (keys (dp_options dp))) = Some (choice d) /\
       reasoning d = "Default choice due to parsing error").
Proof.
  cbv zeta.
  apply (resolver_returns_legal_label
           (Simulator [] (fun n => n) message)
           (DecisionPoint "d1" "What do you do?"
              [("A", ChoiceOption "Step in" ["direct_intervention"] "Good");
               ("B", ChoiceOption "Walk away" [] "Hm")])
           ("E", "I prefer E")).
  simpl. discriminate.
Defined.

End Resolver.

(* ===================================================================== *)
(** ** Steps inside a scenario *)
(* ===================================================================== *)

Section ScenarioSteps.
Import Py Sim Tally.

Lemma grows_refl st : grows st st.
Proof.
  unfold grows. split; [lia|]. split; [reflexivity|]. split; [tauto|].
  intros k n H. exists n. split; [exact H | lia].
Qed.

Lemma grows_trans st1 st2 st3 : grows st1 st2 -> grows st2 st3 -> grows st1 st3.
Proof.
  intros (D1 & O1 & N1 & M1) (D2 & O2 & N2 & M2). unfold grows.
  split; [lia|]. split; [congruence|]. split.
  - intros k. rewrite N2. apply N1.
  - intros k n H. destruct (M1 k n H) as (n1 & H1 & L1).
    destruct (M2 k n1 H1) as (n2 & H2 & L2). exists n2. split; [exact H2 | lia].
Qed.

(** Steps that leave the journey record alone. *)
Lemma grows_same_journey st st' :
  draws st <= draws st' -> journey st' = journey st -> grows st st'.
Proof.
  intros Hd Hj. unfold grows. rewrite Hj. split; [exact Hd|]. split; [reflexivity|].
  split; [tauto|]. intros k n H. exists n. split; [exact H | lia].
Qed.

Create HintDb steps.
#[local] Hint Resolve grows_refl grows_trans : steps.

Lemma always_bind {A B} R (m : M A) (f : A -> M B) :
  (forall st, R st st) ->
  (forall a b c, R a b -> R b c -> R a c) ->
  always R m -> (forall a, always R (f a)) -> always R (m ≫= f).
Proof.
  intros Hrefl Htrans Hm Hf st r st' H.
  apply bind_inv in H as [(a & st1 & H1 & H2)|(e & H1 & _)].
  - eapply Htrans; [eapply Hm, H1 | eapply Hf, H2].
  - eapply Hm, H1.
Qed.

Lemma always_for_each {A} R (l : list A) (body : A -> M unit) :
  (forall st, R st st) ->
  (forall a b c, R a b -> R b c -> R a c) ->
  (forall x, In x l -> always R (body x)) -> always R (for_each l body).
Proof.
  intros Hrefl Htrans. induction l as [|x l IH]; intros Hb; simpl.
  - intros st r st' H. injection H as _ <-. apply Hrefl.
  - apply always_bind; auto.
    + apply Hb. now left.
    + intros _. apply IH. intros y Hy. apply Hb. now right.
Qed.

Lemma always_lift {A} R (r : result A) : (forall st, R st st) -> always R (lift r).
Proof. intros Hrefl st r' st' H. injection H as _ <-. apply Hrefl. Qed.

Lemma always_ret {A} R (a : A) : (forall st, R st st) -> always R (mret a).
Proof. intros Hrefl st r' st' H. injection H as _ <-. apply Hrefl. Qed.

Lemma grows_bind {A B} (m : M A) (f : A -> M B) :
  always grows m -> (forall a, always grows (f a)) -> always grows (m ≫= f).
Proof. apply always_bind; eauto with steps. Qed.

Lemma quiet_refl st : quiet st st.
Proof. unfold quiet. auto. Qed.

Lemma quiet_trans st1 st2 st3 : quiet st1 st2 -> quiet st2 st3 -> quiet st1 st3.
Proof. intros (D1 & J1 & S1) (D2 & J2 & S2). unfold quiet. split; [lia|]. split; congruence. Qed.

#[local] Hint Resolve quiet_refl quiet_trans : steps.

Lemma quiet_bind {A B} (m : M A) (f : A -> M B) :
  always quiet m -> (forall a, always quiet (f a)) -> always quiet (m ≫= f).
Proof. apply always_bind; eauto with steps. Qed.

Lemma quiet_grows st st' : quiet st st' -> grows st st'.
Proof. intros (D & J & _). now apply grows_same_journey. Qed.

Lemma quiet_randbelow sim n : always quiet (randbelow sim n).
Proof. intros st r st' H. injection H as _ <-. unfold quiet. simpl. auto. Qed.

Lemma quiet_listen p : always quiet (listen_and_act p).
Proof. intros st r st' H. injection H as _ <-. unfold quiet. simpl. auto. Qed.

Lemma quiet_random_choice {A} sim (l : list A) : always quiet (random_choice sim l).
Proof.
  destruct l as [|a l]; unfold random_choice.
  - intros st r st' H. injection H as _ <-. apply quiet_refl.
  - apply quiet_bind; [apply quiet_randbelow|]. intros i. apply always_lift; auto with steps.
Qed.

Lemma quiet_resolve sim dp parsed : always quiet (resolve_decision sim dp parsed).
Proof.
  unfold resolve_decision. apply quiet_bind.
  - destruct (negb (has_key (fst parsed) (dp_options dp))).
    + apply quiet_bind; [apply quiet_random_choice|]. intros c. apply always_ret; auto with steps.
    + apply always_ret; auto with steps.
  - intros cr. apply quiet_bind; [apply always_lift; auto with steps|].
    intros o. apply always_ret; auto with steps.
Qed.

Lemma quiet_decision_point sim p dp : always quiet (simulate_decision_point sim p dp).
Proof.
  unfold simulate_decision_point. apply quiet_bind; [apply quiet_listen|].
  intros actions. apply quiet_bind; [apply always_lift; auto with steps|].
  intros response. apply quiet_bind; [apply always_lift; auto with steps|].
  intros parsed. apply quiet_resolve.
Qed.

(** The record of a decision carries the identifier of its decision point
    and one of its labels. *)
Lemma decision_point_record sim p dp st d st' :
  simulate_decision_point sim p dp st = (Ok d, st') ->
  decision_id d = dp_id dp /\
  exists o, option_get (choice d) (dp_options dp) = Some o.
Proof.
  unfold simulate_decision_point, resolve_decision. intros H.
  apply bind_inv in H as [(actions & st1 & _ & H)|(e & _ & He)]; [|discriminate].
  apply bind_inv in H as [(response & st1' & _ & H)|(e & _ & He)]; [|discriminate].
  apply bind_inv in H as [(parsed & st2 & _ & H)|(e & _ & He)]; [|discriminate].
  apply bind_inv in H as [(cr & st3 & _ & H)|(e & _ & He)]; [|discriminate].
  apply bind_inv in H as [(o & st4 & Ho & H)|(e & _ & He)]; [|discriminate].
  injection H as <- _. cbn [decision_id choice]. split; [reflexivity|].
  unfold lift, option_item in Ho.
  destruct (option_get (fst cr) (dp_options dp)) as [o'|]; [eauto | discriminate].
Qed.

Lemma grows_append d : always grows (append_decision d).
Proof.
  intros st r st' H. injection H as _ <-. apply grows_same_journey; simpl; [lia | reflexivity].
Qed.

Lemma grows_earn skill : always grows (earn skill).
Proof.
  intros st r st' H. unfold earn in H.
  destruct (final_skills (journey st) !! skill) as [n|] eqn:Hs.
  - injection H as _ <-. unfold grows. simpl.
    split; [lia|]. split; [reflexivity|]. split.
    + intros k. destruct (decide (skill = k)) as [<-|Hne].
      * rewrite lookup_insert_eq, Hs. split; discriminate.
      * now rewrite lookup_insert_ne.
    + intros k m Hk. destruct (decide (skill = k)) as [<-|Hne].
      * rewrite lookup_insert_eq. exists (n + 1)%Z. split; [reflexivity|].
        rewrite Hs in Hk. injection Hk as <-. lia.
      * rewrite lookup_insert_ne by exact Hne. exists m. split; [exact Hk | lia].
  - injection H as _ <-. apply grows_refl.
Qed.

Lemma grows_decision_turn sim p dp : always grows (decision_turn sim p dp).
Proof.
  unfold decision_turn. apply grows_bind.
  { intros st r st' H. eapply quiet_grows, quiet_decision_point, H. }
  intros d. apply grows_bind; [apply grows_append|].
  intros _. apply grows_bind; [apply always_lift; auto with steps|].
  intros o. apply always_for_each; [apply grows_refl | apply grows_trans|].
  intros skill _. apply grows_earn.
Qed.

Lemma same_core_earn skill : always same_core (earn skill).
Proof.
  intros st r st' H. unfold earn in H.
  destruct (final_skills (journey st) !! skill) as [n|].
  - injection H as _ <-. unfold same_core, core. simpl.
    destruct (scenario_result st) as [cur|]; [|reflexivity]. simpl.
    unfold note_earned. now destruct (existsb _ _).
  - injection H as _ <-. reflexivity.
Qed.

Lemma occurrences_cons_eq skill tags : occurrences skill (skill :: tags) = S (occurrences skill tags).
Proof. unfold occurrences. simpl. now rewrite String.eqb_refl. Qed.

Lemma occurrences_cons_ne k skill tags :
  skill <> k -> occurrences k (skill :: tags) = occurrences k tags.
Proof.
  intros Hne. unfold occurrences. simpl.
  destruct (String.eqb_spec k skill) as [->|_]; [contradiction | reflexivity].
Qed.

(** The loop over the tags of the chosen option: every tag earns a point,
    or the loop stops at a tag that is not a known skill. *)
Lemma earn_all_spec tags :
  forall st r st',
    for_each tags earn st = (r, st') ->
    (r = Ok tt /\
     forall k, final_skills (journey st') !! k
               = (fun n => (n + Z.of_nat (occurrences k tags))%Z)
                   <$> final_skills (journey st) !! k) \/
    (exists e tag, r = Err e /\ In tag tags /\ final_skills (journey st) !! tag = None).
Proof.
  induction tags as [|t tags IH]; intros st r st' H; simpl in H.
  - injection H as <- <-. left. split; [reflexivity|]. intros k.
    destruct (final_skills (journey st) !! k) as [n|]; simpl; [|reflexivity].
    f_equal. unfold occurrences. simpl. lia.
  - apply bind_inv in H as [([] & st1 & H1 & H2)|(e & H1 & ->)].
    + unfold earn in H1.
      destruct (final_skills (journey st) !! t) as [n|] eqn:Ht; [|discriminate].
      injection H1 as <-.
      destruct (IH _ _ _ H2) as [(-> & Hk)|(e & tag & -> & Hin & Hn)].
      * left. split; [reflexivity|]. intros k. rewrite Hk. simpl.
        destruct (decide (t = k)) as [<-|Hne].
        -- rewrite lookup_insert_eq, Ht. simpl. f_equal.
           rewrite occurrences_cons_eq. lia.
        -- rewrite lookup_insert_ne by exact Hne.
           now rewrite (occurrences_cons_ne k t tags Hne).
      * right. exists e, tag. split; [reflexivity|]. split; [now right|].
        simpl in Hn. destruct (decide (t = tag)) as [<-|Hne].
        -- rewrite lookup_insert_eq in Hn. discriminate.
        -- now rewrite lookup_insert_ne in Hn.
    + right. unfold earn in H1.
      destruct (final_skills (journey st) !! t) as [n|] eqn:Ht; [discriminate|].
      exists e, t. split; [reflexivity|]. split; [now left | exact Ht].
Qed.

Lemma same_core_earn_all tags : always same_core (for_each tags earn).
Proof.
  apply always_for_each; unfold same_core; [reflexivity | intros a b c; congruence|].
  intros skill _. apply same_core_earn.
Qed.

Lemma core_some st c :
  core st = Some c -> exists cur, scenario_result st = Some cur /\ sr_core cur = c.
Proof.
  unfold core. destruct (scenario_result st) as [cur|]; [|discriminate].
  intros H. injection H as <-. eauto.
Qed.

Lemma accrued_nil sk : accrued sk sk [].
Proof. intros k. destruct (sk !! k); simpl; [f_equal; lia | reflexivity]. Qed.

(** One decision: its record joins the scenario in progress and the tags of
    the chosen option earn their points, unless the agent, the parser or
    the draw failed before there was a record. *)
Lemma decision_turn_spec sim p dp st r st' cur :
  decision_turn sim p dp st = (r, st') ->
  scenario_result st = Some cur ->
  exists new cur',
    scenario_result st' = Some cur' /\
    sr_core cur' = (scenario_id cur, scenario_name cur, time_spent_seconds cur,
                    decisions cur ++ new) /\
    (r = Ok tt -> length new = 1) /\
    (new = [] \/ exists d, new = [d] /\ decision_id d = dp_id dp) /\
    effect (final_skills (journey st)) (final_skills (journey st')) (combine [dp] new).
Proof.
  unfold decision_turn. intros H Hcur.
  apply bind_inv in H as [(d & st1 & H1 & H)|(e & H1 & ->)].
  - destruct (quiet_decision_point _ _ _ _ _ _ H1) as (_ & J1 & S1).
    destruct (decision_point_record _ _ _ _ _ _ H1) as (Hid & o & Ho).
    apply bind_inv in H as [([] & st2 & H2 & H)|(e & H2 & _)]; [|discriminate].
    injection H2 as <-.
    apply bind_inv in H as [(o' & st3 & H3 & H)|(e & H3 & _)].
    2: { unfold lift, option_item in H3. rewrite Ho in H3. discriminate. }
    unfold lift, option_item in H3. rewrite Ho in H3. injection H3 as <- <-.
    pose proof (same_core_earn_all _ _ _ _ H) as Hc. unfold same_core in Hc.
    unfold core in Hc at 2. cbn [scenario_result] in Hc. rewrite S1, Hcur in Hc.
    apply core_some in Hc as (cur' & Hcur' & Hcore).
    exists [d], cur'. split; [exact Hcur'|]. split; [exact Hcore|].
    split; [reflexivity|]. split; [right; eauto|].
    apply earn_all_spec in H. cbn [journey] in H. rewrite J1 in H.
    assert (Hch : chosen_skills (dp, d) = opt_skills o).
    { unfold chosen_skills. cbn [fst snd]. now rewrite Ho. }
    destruct H as [(-> & Hk)|(e & tag & -> & Hin & Hn)].
    + left. intros k. rewrite Hk. simpl. rewrite Hch.
      destruct (final_skills (journey st) !! k); simpl; [f_equal; lia | reflexivity].
    + right. exists (dp, d), tag. split; [now left|]. rewrite Hch. auto.
  - destruct (quiet_decision_point _ _ _ _ _ _ H1) as (_ & J1 & S1).
    exists [], cur. rewrite S1, J1, app_nil_r. split; [exact Hcur|].
    split; [reflexivity|]. split; [discriminate|]. split; [now left|].
    left. apply accrued_nil.
Qed.

End ScenarioSteps.

(* ===================================================================== *)
(** ** Scenarios and journeys *)
(* ===================================================================== *)

Section Journeys.
Import Py Sim Tally.

Lemma points_app k l1 l2 : points k (l1 ++ l2) = points k l1 + points k l2.
Proof. induction l1 as [|pd l1 IH]; simpl; [reflexivity | rewrite IH; lia]. Qed.

Lemma effect_app sk sk1 sk2 l1 l2 :
  (forall k, sk1 !! k = None <-> sk !! k = None) ->
  effect sk sk1 l1 -> effect sk1 sk2 l2 -> effect sk sk2 (l1 ++ l2).
Proof.
  intros Hdom [H1|(pd & tag & Hin & Ht & Hn)].
  - intros [H2|(pd & tag & Hin & Ht & Hn)].
    + left. intros k. rewrite H2, H1, points_app.
      destruct (sk !! k); simpl; [f_equal; lia | reflexivity].
    + right. exists pd, tag. split; [apply in_or_app; now right|].
      split; [exact Ht | now apply Hdom].
  - intros _. right. exists pd, tag. split; [apply in_or_app; now left | auto].
Qed.

Lemma grows_dom st st' k :
  grows st st' ->
  final_skills (journey st') !! k = None <-> final_skills (journey st) !! k = None.
Proof. intros (_ & _ & H & _). apply H. Qed.

(** The loop over the decision points of a scenario. *)
Lemma decision_loop_spec sim p dps :
  forall st r st' cur,
    for_each dps (decision_turn sim p) st = (r, st') ->
    scenario_result st = Some cur ->
    exists new cur',
      scenario_result st' = Some cur' /\
      sr_core cur' = (scenario_id cur, scenario_name cur, time_spent_seconds cur,
                      decisions cur ++ new) /\
      length new <= length dps /\
      (r = Ok tt -> length new = length dps) /\
      map decision_id new = map dp_id (firstn (length new) dps) /\
      effect (final_skills (journey st)) (final_skills (journey st')) (combine dps new).
Proof.
  induction dps as [|dp dps IH]; intros st r st' cur H Hcur; simpl in H.
  - injection H as <- <-. exists [], cur. rewrite app_nil_r.
    repeat split; auto. left. apply accrued_nil.
  - apply bind_inv in H as [([] & st1 & H1 & H2)|(e & H1 & ->)].
    + pose proof (grows_decision_turn _ _ _ _ _ _ H1) as Hg.
      destruct (decision_turn_spec _ _ _ _ _ _ _ H1 Hcur)
        as (new1 & cur1 & Hc1 & Hcore1 & Hlen1 & Hnew1 & Heff1).
      specialize (Hlen1 eq_refl).
      destruct Hnew1 as [->|(d & -> & Hid)]; [discriminate|].
      destruct (IH _ _ _ _ H2 Hc1) as (new2 & cur' & Hc' & Hcore' & Hle & Hok & Hids & Heff2).
      injection Hcore1 as E1 E2 E3 E4.
      exists (d :: new2), cur'. split; [exact Hc'|]. split.
      { rewrite Hcore', E1, E2, E3, E4, <- app_assoc. reflexivity. }
      split; [simpl; lia|]. split; [intros Hr; simpl; now rewrite (Hok Hr)|].
      split; [simpl; now rewrite Hid, Hids|].
      change (combine (dp :: dps) (d :: new2)) with (combine [dp] [d] ++ combine dps new2).
      eapply effect_app; [intros k; apply grows_dom, Hg | exact Heff1 | exact Heff2].
    + destruct (decision_turn_spec _ _ _ _ _ _ _ H1 Hcur)
        as (new1 & cur1 & Hc1 & Hcore1 & _ & Hnew1 & Heff1).
      exists new1, cur1. split; [exact Hc1|]. split; [exact Hcore1|].
      destruct Hnew1 as [->|(d & -> & Hid)].
      * simpl. repeat split; try lia; auto. discriminate.
      * split; [simpl; lia|]. split; [discriminate|].
        split; [simpl; now rewrite Hid|].
        simpl combine. rewrite combine_nil. exact Heff1.
Qed.

Lemma grows_simulate_scenario sim p sc : always grows (simulate_scenario sim p sc).
Proof.
  unfold simulate_scenario, randint. apply grows_bind.
  { apply grows_bind; [intros st r st' H; eapply quiet_grows, quiet_randbelow, H|].
    intros k. apply always_ret, grows_refl. }
  intros t. apply grows_bind.
  { intros st r st' H. injection H as _ <-. apply grows_same_journey; simpl; auto. }
  intros _. apply grows_bind.
  { apply always_for_each; [apply grows_refl | apply grows_trans|].
    intros dp _. apply grows_decision_turn. }
  intros _ st r st' H. unfold return_scenario_result in H.
  destruct (scenario_result st); injection H as _ <-.
  - apply grows_same_journey; simpl; auto.
  - apply grows_refl.
Qed.

(** One scenario: a record with the scenario's identifier, a duration of
    180 to 420 seconds taken from the next draw, and the decisions made;
    returned when all decision points were passed, left in progress when a
    step raised. *)
Lemma simulate_scenario_spec sim p sc st r st' :
  simulate_scenario sim p sc st = (r, st') ->
  exists cur,
    scenario_id cur = sc_id sc /\ scenario_name cur = sc_name sc /\
    time_spent_seconds cur = (180 + Z.of_nat (rand sim (draws st) mod 241))%Z /\
    draws st < draws st' /\
    map decision_id (decisions cur)
      = map dp_id (firstn (length (decisions cur)) (sc_decision_points sc)) /\
    effect (final_skills (journey st)) (final_skills (journey st')) (scenario_pairs sc cur) /\
    ((r = Ok cur /\ scenario_result st' = None /\
      length (decisions cur) = length (sc_decision_points sc)) \/
     (exists e, r = Err e /\ scenario_result st' = Some cur)).
Proof.
  unfold simulate_scenario, randint. intros H.
  apply bind_inv in H as [(t & st1 & H1 & H)|(e & H1 & _)].
  2: { apply bind_inv in H1 as [(k & st0 & H0 & H1)|(e' & H0 & _)]; discriminate. }
  apply bind_inv in H1 as [(k & st0 & H0 & H1)|(e' & H0 & _)]; [|discriminate].
  injection H0 as <- <-. injection H1 as <- <-.
  change (Z.to_nat (420 - 180 + 1)) with 241.
  apply bind_inv in H as [([] & st2 & H2 & H)|(e & H2 & _)]; [|discriminate].
  injection H2 as <-.
  apply bind_inv in H as [([] & st3 & H3 & H)|(e & H3 & ->)].
  - pose proof (always_for_each grows _ _ grows_refl grows_trans
                  (fun dp _ => grows_decision_turn sim p dp) _ _ _ H3) as (Hd & _).
    destruct (decision_loop_spec _ _ _ _ _ _ _ H3 eq_refl)
      as (new & cur & Hc & Hcore & Hle & Hok & Hids & Heff).
    specialize (Hok eq_refl). cbn [scenario_id scenario_name time_spent_seconds decisions] in Hcore.
    injection Hcore as E1 E2 E3 E4. simpl in E4. subst new.
    unfold return_scenario_result in H. rewrite Hc in H. injection H as <- <-.
    exists cur. cbn [journey scenario_result draws] in *.
    repeat split; auto; try lia.
  - pose proof (always_for_each grows _ _ grows_refl grows_trans
                  (fun dp _ => grows_decision_turn sim p dp) _ _ _ H3) as (Hd & _).
    destruct (decision_loop_spec _ _ _ _ _ _ _ H3 eq_refl)
      as (new & cur & Hc & Hcore & Hle & _ & Hids & Heff).
    cbn [scenario_id scenario_name time_spent_seconds decisions] in Hcore.
    injection Hcore as E1 E2 E3 E4. simpl in E4. subst new.
    exists cur. cbn [journey scenario_result draws] in *.
    repeat split; eauto; try lia.
Qed.

Lemma map_snd_combine {A B} (l1 : list A) (l2 : list B) :
  length l2 <= length l1 -> map snd (combine l1 l2) = l2.
Proof.
  revert l2. induction l1 as [|a l1 IH]; intros [|b l2] Hl; simpl in *; try reflexivity; try lia.
  f_equal. apply IH. lia.
Qed.

(** The decision records of a scenario record go with the first decision
    points of the scenario. *)
Lemma scenario_pairs_records sc cur :
  map decision_id (decisions cur)
    = map dp_id (firstn (length (decisions cur)) (sc_decision_points sc)) ->
  map snd (scenario_pairs sc cur) = decisions cur.
Proof.
  intros H. apply map_snd_combine. apply (f_equal (@length string)) in H.
  rewrite !length_map, List.length_firstn in H. lia.
Qed.

Lemma paired_nil_r scs : paired scs [] = [].
Proof. now destruct scs. Qed.

Lemma time_in_range_draw n :
  (180 <= 180 + Z.of_nat (n mod 241) <= 420)%Z.
Proof. pose proof (Nat.mod_upper_bound n 241). lia. Qed.

(** The loop over the scenarios: the records of the scenarios passed are
    appended, complete and in order; when a step raises, the scenario it
    raised in stays in progress and out of the journey record. *)
Lemma scenario_loop_spec sim p scs :
  forall st r st',
    for_each scs (scenario_turn sim p) st = (r, st') ->
    scenario_result st = None ->
    outside_run (journey st') = outside_run (journey st) /\
    (forall k, final_skills (journey st') !! k = None <->
               final_skills (journey st) !! k = None) /\
    exists recs,
      scenarios (journey st') = scenarios (journey st) ++ recs /\
      length recs <= length scs /\
      Forall2 complete_for (firstn (length recs) scs) recs /\
      Forall time_in_range recs /\
      effect (final_skills (journey st)) (final_skills (journey st'))
        (paired scs (recs ++ in_progress st')) /\
      map snd (paired scs (recs ++ in_progress st'))
        = flat_map decisions (recs ++ in_progress st') /\
      ((r = Ok tt /\ length recs = length scs /\ scenario_result st' = None) \/
       (exists e cur, r = Err e /\ scenario_result st' = Some cur)).
Proof.
  induction scs as [|sc scs IH]; intros st r st' H Hnone; simpl in H.
  - injection H as <- <-. split; [reflexivity|]. split; [tauto|].
    exists []. rewrite app_nil_r. unfold in_progress. rewrite Hnone.
    repeat split; auto. left. apply accrued_nil.
  - apply bind_inv in H as [([] & st2 & H1 & H2)|(e & H1 & ->)].
    + unfold scenario_turn in H1.
      apply bind_inv in H1 as [(cur & st1 & H0 & H1)|(e & H0 & ?)]; [|discriminate].
      injection H1 as <-.
      pose proof (grows_simulate_scenario _ _ _ _ _ _ H0) as (_ & Hout & Hdom & _).
      destruct (simulate_scenario_spec _ _ _ _ _ _ H0)
        as (cur' & Hid & Hname & Htime & _ & Hids & Heff & [(Hr & Hsr & Hlen)|(e & Hr & _)]);
        [|discriminate].
      injection Hr as <-.
      destruct (IH _ _ _ H2 Hsr)
        as (Hout2 & Hdom2 & recs & Hsc & Hle & Hcomp & Htimes & Heff2 & Hrecs & Hend).
      cbn [journey final_skills scenarios] in *.
      unfold outside_skills in Hout. injection Hout as O1 O2 O3 O4 O5 O6 O7 O8.
      split.
      { rewrite Hout2. unfold outside_run. cbn. congruence. }
      split.
      { intros k. rewrite Hdom2. apply Hdom. }
      exists (cur :: recs). split.
      { rewrite Hsc, O4, <- app_assoc. reflexivity. }
      split; [simpl; lia|]. split.
      { simpl. constructor; [|exact Hcomp]. unfold complete_for.
        rewrite Hlen, firstn_all in Hids. auto. }
      split.
      { constructor; [|exact Htimes]. unfold time_in_range. rewrite Htime.
        apply time_in_range_draw. }
      split.
      { change (paired (sc :: scs) ((cur :: recs) ++ in_progress st'))
          with (scenario_pairs sc cur ++ paired scs (recs ++ in_progress st')).
        eapply effect_app; [exact Hdom | exact Heff | exact Heff2]. }
      split.
      { change (paired (sc :: scs) ((cur :: recs) ++ in_progress st'))
          with (scenario_pairs sc cur ++ paired scs (recs ++ in_progress st')).
        change (flat_map decisions ((cur :: recs) ++ in_progress st'))
          with (decisions cur ++ flat_map decisions (recs ++ in_progress st')).
        rewrite map_app. f_equal; [now apply scenario_pairs_records | exact Hrecs]. }
      destruct Hend as [(-> & Hl & Hs)|(e & c & -> & Hs)].
      * left. repeat split; auto. simpl. now rewrite Hl.
      * right. eauto.
    + unfold scenario_turn in H1.
      apply bind_inv in H1 as [(cur & st1 & H0 & H1)|(e' & H0 & _)]; [discriminate|].
      pose proof (grows_simulate_scenario _ _ _ _ _ _ H0) as (_ & Hout & Hdom & _).
      destruct (simulate_scenario_spec _ _ _ _ _ _ H0)
        as (cur & Hid & Hname & Htime & _ & Hids & Heff & [(Hr & _)|(e0 & Hr & Hsr)]);
        [discriminate|].
      unfold outside_skills in Hout. injection Hout as O1 O2 O3 O4 O5 O6 O7 O8.
      split; [unfold outside_run; congruence|]. split; [exact Hdom|].
      exists []. rewrite app_nil_r. split; [exact O4|]. split; [simpl; lia|].
      split; [constructor|]. split; [constructor|]. split.
      { unfold in_progress. rewrite Hsr. simpl. now rewrite paired_nil_r, app_nil_r. }
      split.
      { unfold in_progress. rewrite Hsr. simpl. rewrite paired_nil_r, !app_nil_r.
        now apply scenario_pairs_records. }
      right. eauto.
Qed.

End Journeys.

(* ===================================================================== *)
(** ** The body of a journey *)
(* ===================================================================== *)

Section JourneyBody.
Import Py Sim Tally.

Lemma quiet_character_selection p : always quiet (simulate_character_selection p).
Proof.
  unfold simulate_character_selection. apply quiet_bind; [apply quiet_listen|].
  intros actions. apply quiet_bind; [apply always_lift, quiet_refl|].
  intros response. apply quiet_bind; [apply always_lift, quiet_refl|].
  intros cr. apply always_ret, quiet_refl.
Qed.

Lemma quiet_feedback p : always quiet (generate_feedback_response p).
Proof.
  unfold generate_feedback_response. apply quiet_bind; [apply quiet_listen|].
  intros actions. apply quiet_bind; [apply always_lift, quiet_refl|].
  intros response. apply always_lift, quiet_refl.
Qed.

(** What holds of the state in which the body of the [try] ends, whether it
    ended normally or by an exception. *)
Lemma journey_body_spec sim p d r st :
  journey_body sim p (start p d) = (r, st) ->
  persona_id (journey st) = name p /\
  error (journey st) = None /\
  (forall k, final_skills (journey st) !! k = None <->
             final_skills (new_journey p) !! k = None) /\
  length (scenarios (journey st)) <= length (scenarios_data sim) /\
  Forall2 complete_for
    (firstn (length (scenarios (journey st))) (scenarios_data sim))
    (scenarios (journey st)) /\
  Forall time_in_range (scenarios (journey st)) /\
  effect (final_skills (new_journey p)) (final_skills (journey st))
    (decisions_made sim st) /\
  map snd (decisions_made sim st)
    = flat_map decisions (scenarios (journey st) ++ in_progress st) /\
  (r = Ok tt ->
     completion_status (journey st) = "completed" /\
     length (scenarios (journey st)) = length (scenarios_data sim) /\
     scenario_result st = None /\
     feedback (journey st) <> None /\ selection (journey st) <> None).
Proof.
  unfold journey_body. intros H.
  assert (Hstart : journey (start p d) = new_journey p /\
                   scenario_result (start p d) = None) by (split; reflexivity).
  destruct Hstart as [J0 S0].
  apply bind_inv in H as [(cs & st1 & H1 & H)|(e & H1 & ->)].
  2: { destruct (quiet_character_selection _ _ _ _ H1) as (_ & J & S).
       unfold decisions_made, in_progress. rewrite J, S, J0, S0.
       change (scenarios (new_journey p)) with (@nil scenario_record).
       rewrite paired_nil_r.
       repeat split; auto; try tauto; try (simpl; lia); try discriminate.
       left. apply accrued_nil. }
  destruct (quiet_character_selection _ _ _ _ H1) as (_ & J1 & S1).
  rewrite J0 in J1. rewrite S0 in S1.
  apply bind_inv in H as [([] & st2 & H2 & H)|(e & H2 & _)]; [|discriminate].
  injection H2 as <-.
  apply bind_inv in H as [([] & st3 & H3 & H)|(e & H3 & ->)].
  - destruct (scenario_loop_spec _ _ _ _ _ _ H3 S1)
      as (Hout & Hdom & recs & Hsc & Hle & Hcomp & Htimes & Heff & Hrecs & Hend).
    cbn [journey scenario_result scenarios final_skills] in Hsc, Hdom, Heff.
    rewrite J1 in Hsc, Hdom, Heff.
    change (scenarios (new_journey p)) with (@nil scenario_record) in Hsc.
    rewrite app_nil_l in Hsc.
    unfold outside_run in Hout. cbn [journey persona_id persona_background selection
      feedback completion_status error error_traceback] in Hout. rewrite J1 in Hout.
    injection Hout as O1 O2 O3 O4 O5 O6 O7.
    destruct Hend as [(_ & Hlen & S3)|(e & c & He & _)]; [|discriminate].
    unfold in_progress in Heff, Hrecs. rewrite S3 in Heff, Hrecs.
    apply bind_inv in H as [([] & st4 & H4 & H)|(e & H4 & _)]; [|discriminate].
    injection H4 as <-.
    apply bind_inv in H as [(fb & st5 & H5 & H)|(e & H5 & ->)].
    + destruct (quiet_feedback _ _ _ _ H5) as (_ & J5 & S5).
      injection H as <- <-. unfold decisions_made, in_progress.
      cbn [journey scenario_result] in *. rewrite J5, S5, S3.
      cbn [persona_id error final_skills scenarios completion_status feedback selection].
      rewrite Hsc, O1, O6, O3, <- Hlen.
      repeat split; auto; try lia; try apply Hdom; try discriminate; exact Hrecs.
    + destruct (quiet_feedback _ _ _ _ H5) as (_ & J5 & S5).
      unfold decisions_made, in_progress.
      cbn [journey scenario_result] in *. rewrite J5, S5, S3.
      cbn [persona_id error final_skills scenarios completion_status feedback selection].
      rewrite Hsc, O1, O6.
      repeat split; auto; try lia; try apply Hdom; try discriminate; exact Hrecs.
  - destruct (scenario_loop_spec _ _ _ _ _ _ H3 S1)
      as (Hout & Hdom & recs & Hsc & Hle & Hcomp & Htimes & Heff & Hrecs & Hend).
    cbn [journey scenario_result scenarios final_skills] in Hsc, Hdom, Heff.
    rewrite J1 in Hsc, Hdom, Heff.
    change (scenarios (new_journey p)) with (@nil scenario_record) in Hsc.
    rewrite app_nil_l in Hsc.
    unfold outside_run in Hout. cbn [journey persona_id persona_background selection
      feedback completion_status error error_traceback] in Hout. rewrite J1 in Hout.
    injection Hout as O1 O2 O3 O4 O5 O6 O7.
    unfold decisions_made. rewrite Hsc, O1, O6.
    repeat split; auto; try lia; try apply Hdom; try discriminate; exact Hrecs.
Qed.

End JourneyBody.

(* ===================================================================== *)
(** ** Journeys, the runner and the result file *)
(* ===================================================================== *)

Section Runner.
Import Py Config Sim Tally.

Lemma full_journey_cases sim p d :
  exists r st,
    journey_body sim p (start p d) = (r, st) /\
    ((r = Ok tt /\ fst (simulate_full_journey sim p d) = journey st) \/
     (exists e, r = Err e /\
                fst (simulate_full_journey sim p d) = on_error sim e (journey st))).
Proof.
  unfold simulate_full_journey.
  destruct (journey_body sim p (start p d)) as [[[]|e] st]; eexists _, st;
    (split; [reflexivity|]); [left | right]; eauto.
Qed.

Lemma full_journey_persona sim p d :
  persona_id (fst (simulate_full_journey sim p d)) = name p.
Proof.
  destruct (full_journey_cases sim p d) as (r & st & Hb & [(_ & ->)|(e & _ & ->)]);
    apply journey_body_spec in Hb as (Hp & _); exact Hp.
Qed.

(** The runner appends one record for each participant, in roster order. *)
Lemma run_journeys_spec sim personas :
  forall results d,
    exists js,
      fst (run_journeys sim personas results d) = results ++ js /\
      Forall2 (fun p j => persona_id j = name p /\
                          exists d', j = fst (simulate_full_journey sim p d'))
              personas js.
Proof.
  induction personas as [|p rest IH]; intros results d; simpl.
  - exists []. split; [now rewrite app_nil_r | constructor].
  - destruct (simulate_full_journey sim p d) as [j d'] eqn:Hj.
    destruct (IH (results ++ [j]) d') as (js & Hjs & Hall).
    exists (j :: js). split; [rewrite Hjs, <- app_assoc; reflexivity|].
    constructor; [|exact Hall].
    assert (Ej : j = fst (simulate_full_journey sim p d)) by now rewrite Hj.
    split; [rewrite Ej; apply full_journey_persona | eauto].
Qed.

(** The loop over the scenarios, told by what [simulate_scenario] returned:
    the records appended are the records returned for the scenarios that
    were finished, and a fault is the fault of the scenario after them. *)
Lemma scenario_loop_finished sim p scs :
  forall st r st',
    for_each scs (scenario_turn sim p) st = (r, st') ->
    exists recs st2,
      scenarios (journey st') = scenarios (journey st) ++ recs /\
      finished sim p (firstn (length recs) scs) st recs st2 /\
      ((r = Ok tt /\ length recs = length scs /\ st' = st2) \/
       (exists e sc, r = Err e /\ nth_error scs (length recs) = Some sc /\
                     simulate_scenario sim p sc st2 = (Err e, st'))).
Proof.
  induction scs as [|sc scs IH]; intros st r st' H; simpl in H.
  - injection H as <- <-. exists [], st. rewrite app_nil_r.
    split; [reflexivity|]. split; [constructor|]. left. auto.
  - apply bind_inv in H as [([] & stA & H1 & H2)|(e & H1 & ->)].
    + unfold scenario_turn in H1.
      apply bind_inv in H1 as [(cur & st1 & H0 & H1)|(e & H0 & ?)]; [|discriminate].
      injection H1 as <-.
      pose proof (grows_simulate_scenario _ _ _ _ _ _ H0) as (_ & Hout & _).
      destruct (simulate_scenario_spec _ _ _ _ _ _ H0)
        as (cur' & _ & _ & _ & _ & _ & _ & [(Hr & Hsr & _)|(e & Hr & _)]); [|discriminate].
      destruct (IH _ _ _ H2) as (recs & st2 & Hsc & Hfin & Hend).
      cbn [journey scenarios] in Hsc.
      assert (O4 : scenarios (journey st1) = scenarios (journey st)).
      { unfold outside_skills in Hout. now injection Hout. }
      exists (cur :: recs), st2. split.
      { rewrite Hsc, O4, <- app_assoc. reflexivity. }
      split.
      { simpl. econstructor; [exact H0 | | exact Hfin].
        unfold resumes. cbn. auto. }
      destruct Hend as [(-> & Hl & ->)|(e & sc' & -> & Hn & He)].
      * left. simpl. auto.
      * right. exists e, sc'. simpl. auto.
    + unfold scenario_turn in H1.
      apply bind_inv in H1 as [(cur & st1 & H0 & H1)|(e' & H0 & He)]; [discriminate|].
      injection He as <-.
      pose proof (grows_simulate_scenario _ _ _ _ _ _ H0) as (_ & Hout & _).
      assert (O4 : scenarios (journey st') = scenarios (journey st)).
      { unfold outside_skills in Hout. now injection Hout. }
      exists [], st. rewrite app_nil_r. split; [exact O4|].
      split; [constructor|]. right. exists e, sc. auto.
Qed.

(** Where the body of a journey stopped when it raised. *)
Lemma journey_body_stopped sim p d e st :
  journey_body sim p (start p d) = (Err e, st) ->
  stopped sim p d e st (selection (journey st)) (scenarios (journey st)).
Proof.
  unfold journey_body. intros H.
  apply bind_inv in H as [(cs & st0 & H0 & H)|(e0 & H0 & He)].
  2: { injection He as <-.
       destruct (quiet_character_selection _ _ _ _ H0) as (_ & J & _).
       rewrite J. now constructor. }
  destruct (quiet_character_selection _ _ _ _ H0) as (_ & J0 & S0).
  apply bind_inv in H as [([] & st1 & H1 & H)|(e1 & H1 & _)]; [|discriminate].
  injection H1 as <-.
  match type of H with
  | (for_each _ _ ≫= _) ?s = _ => set (st1 := s) in *
  end.
  assert (R1 : resumes st0 st1).
  { unfold resumes. subst st1. cbn. rewrite S0. auto. }
  assert (J1 : selection (journey st1) = Some cs /\ scenarios (journey st1) = [])
    by (subst st1; cbn; rewrite J0; auto).
  destruct J1 as [Sel1 Sc1].
  apply bind_inv in H as [([] & st2 & H2 & H)|(e2 & H2 & He)].
  - assert (S1 : scenario_result st1 = None) by apply R1.
    destruct (scenario_loop_spec _ _ _ _ _ _ H2 S1)
      as (Hout & _ & recs0 & _ & _ & _ & _ & _ & _ & Hend).
    destruct Hend as [(_ & _ & S2)|(e' & c & He' & _)]; [|discriminate].
    destruct (scenario_loop_finished _ _ _ _ _ _ H2)
      as (recs & st2' & Hsc & Hfin & [(_ & Hlen & <-)|(e' & sc & He' & _)]);
      [|discriminate].
    rewrite Sc1, app_nil_l in Hsc.
    rewrite Hlen, firstn_all in Hfin.
    assert (Sel2 : selection (journey st2) = Some cs).
    { unfold outside_run in Hout. injection Hout as _ _ O3 _. congruence. }
    apply bind_inv in H as [([] & st3 & H3 & H)|(e3 & H3 & _)]; [|discriminate].
    injection H3 as <-.
    match type of H with
    | (generate_feedback_response _ ≫= _) ?s = _ => set (st3 := s) in *
    end.
    assert (R3 : resumes st2 st3) by (unfold resumes; subst st3; cbn; auto).
    apply bind_inv in H as [(fb & st4 & H4 & H)|(e4 & H4 & He)]; [discriminate|].
    injection He as <-.
    destruct (quiet_feedback _ _ _ _ H4) as (_ & J4 & _).
    rewrite J4. subst st3. cbn [journey selection scenarios].
    rewrite Sel2, Hsc. eapply stopped_in_survey; eauto.
  - injection He as <-.
    assert (S1 : scenario_result st1 = None) by apply R1.
    destruct (scenario_loop_spec _ _ _ _ _ _ H2 S1) as (Hout & _).
    destruct (scenario_loop_finished _ _ _ _ _ _ H2)
      as (recs & st2' & Hsc & Hfin & [(Hr & _)|(e' & sc & He' & Hn & Hs)]);
      [discriminate|].
    injection He' as <-.
    rewrite Sc1, app_nil_l in Hsc.
    assert (Sel2 : selection (journey st) = Some cs).
    { unfold outside_run in Hout. injection Hout as _ _ O3 _. congruence. }
    rewrite Sel2, Hsc. eapply stopped_in_scenario; eauto.
Qed.

(** C2, as amended. When a step of a journey raises, the journey still
    yields its record: it bears the participant's name, the status "error",
    the message of the exception and its formatted traceback, and it keeps
    the character selection, the skill counts and the record that
    [simulate_scenario] returned for each scenario that was finished before
    the fault, complete and in catalog order; the fault is that of the
    character selection, of the scenario after the finished ones, or of the
    survey.  The decisions it keeps are those of the finished scenarios: the
    decisions made are these and then those of the scenario in progress,
    which are not kept.  And whatever happens in the journeys, the runner
    yields one record for each participant of the roster, in order. *)
Theorem journey_fault_is_recorded :
  (forall sim p d e st,
     journey_body sim p (start p d) = (Err e, st) ->
     let j := fst (simulate_full_journey sim p d) in
     persona_id j = name p /\
     completion_status j = "error" /\
     error j = Some (message e) /\
     error_traceback j = Some (format_exc sim e) /\
     selection j = selection (journey st) /\
     final_skills j = final_skills (journey st) /\
     scenarios j = scenarios (journey st) /\
     stopped sim p d e st (selection j) (scenarios j) /\
     length (scenarios j) <= length (scenarios_data sim) /\
     Forall2 complete_for
       (firstn (length (scenarios j)) (scenarios_data sim)) (scenarios j) /\
     map snd (decisions_made sim st)
       = decisions_kept j ++ flat_map decisions (in_progress st)) /\
  (forall sim personas results d,
     exists js,
       fst (run_journeys sim personas results d) = results ++ js /\
       Forall2 (fun p j => persona_id j = name p /\
                           exists d', j = fst (simulate_full_journey sim p d'))
               personas js).
Proof.
  split; [|intros; apply run_journeys_spec].
  intros sim p d e st Hb. unfold simulate_full_journey. rewrite Hb. cbn [fst].
  pose proof (journey_body_stopped _ _ _ _ _ Hb) as Hstop.
  apply journey_body_spec in Hb as (Hp & _ & _ & Hle & Hcomp & _ & _ & Hrecs & _).
  unfold decisions_kept. cbn. rewrite <- flat_map_app. repeat split; auto.
Qed.

(** C10. Every scenario record of every journey has a duration between
    180 and 420 seconds; and the duration of a scenario is taken from the
    draw that the generator makes when the scenario starts, a draw of its
    own. *)
Theorem scenario_time_in_range :
  (forall sim p d,
     Forall (fun r => (180 <= time_spent_seconds r <= 420)%Z)
            (scenarios (fst (simulate_full_journey sim p d)))) /\
  (forall sim p sc st r st',
     simulate_scenario sim p sc st = (Ok r, st') ->
     (180 <= time_spent_seconds r <= 420)%Z /\
     time_spent_seconds r = (180 + Z.of_nat (rand sim (draws st) mod 241))%Z /\
     draws st < draws st').
Proof.
  split.
  - intros sim p d.
    destruct (full_journey_cases sim p d) as (r & st & Hb & [(_ & ->)|(e & _ & ->)]);
      apply journey_body_spec in Hb as (_ & _ & _ & _ & _ & Ht & _); exact Ht.
  - intros sim p sc st r st' H.
    destruct (simulate_scenario_spec _ _ _ _ _ _ H)
      as (cur & _ & _ & Htime & Hd & _ & _ & [(Hr & _)|(e & Hr & _)]); [|discriminate].
    injection Hr as <-. rewrite Htime. split; [apply time_in_range_draw | auto].
Qed.

Lemma initial_skills p skill :
  In skill SKILLS -> final_skills (new_journey p) !! skill = Some 0%Z.
Proof.
  unfold new_journey. cbn [final_skills]. simpl In.
  intros [<-|[<-|[<-|[<-|[<-|[]]]]]]; vm_compute; reflexivity.
Qed.

Lemma occurrences_absent k tags : ~ In k tags -> occurrences k tags = 0.
Proof.
  induction tags as [|t tags IH]; intros Hn; [reflexivity|].
  rewrite occurrences_cons_ne; [apply IH | ]; intros H; apply Hn; [now right | now left].
Qed.

Lemma occurrences_nodup k tags :
  List.NoDup tags ->
  occurrences k tags = if existsb (String.eqb k) tags then 1 else 0.
Proof.
  induction 1 as [|t tags Hn Hnd IH]; [reflexivity|]. simpl existsb.
  destruct (String.eqb_spec k t) as [->|Hne]; simpl.
  - rewrite occurrences_cons_eq, occurrences_absent; auto.
  - rewrite occurrences_cons_ne by congruence. exact IH.
Qed.

Lemma points_listing k l :
  Forall (fun pd => List.NoDup (chosen_skills pd)) l ->
  points k l = decisions_listing k l.
Proof.
  unfold decisions_listing. induction 1 as [|pd l Hn Hall IH]; [reflexivity|].
  simpl. rewrite IH, (occurrences_nodup _ _ Hn).
  now destruct (existsb (String.eqb k) (chosen_skills pd)).
Qed.

Lemma known_tags_check (l : list made) :
  forallb (fun pd => forallb (fun tag => existsb (String.eqb tag) SKILLS) (chosen_skills pd)) l
    = true ->
  Forall (fun pd => Forall (fun tag => In tag SKILLS) (chosen_skills pd)) l.
Proof.
  intros H. apply List.Forall_forall. intros pd Hpd.
  rewrite forallb_forall in H. specialize (H pd Hpd).
  apply List.Forall_forall. intros tag Htag.
  rewrite forallb_forall in H. specialize (H tag Htag).
  apply existsb_exists in H as (k & Hk & He). apply String.eqb_eq in He. now subst.
Qed.

Lemma distinct_nodup tags : distinct tags = true -> List.NoDup tags.
Proof.
  induction tags as [|t rest IH]; simpl; intros H; constructor.
  - apply andb_true_iff in H as [H _]. apply negb_true_iff in H. intros Hin.
    assert (existsb (String.eqb t) rest = true); [|congruence].
    apply existsb_exists. exists t. split; [exact Hin | apply String.eqb_refl].
  - apply andb_true_iff in H as [_ H]. auto.
Qed.

Lemma tag_sets_check (l : list made) :
  forallb (fun pd => distinct (chosen_skills pd)) l = true ->
  Forall (fun pd => List.NoDup (chosen_skills pd)) l.
Proof.
  intros H. apply List.Forall_forall. intros pd Hpd.
  rewrite forallb_forall in H. apply distinct_nodup, H, Hpd.
Qed.

(** C8, as amended. In a journey in which every tag on a chosen option is
    one of the skills the journey starts with, the final count of each skill
    is the sum, over the decisions made, of the times the chosen option
    lists it, one point for each listing; that is the number of decisions
    whose chosen option lists the skill when no chosen option lists a tag
    twice, and only then need it be.  And no decision, in any journey,
    makes a count smaller. *)
Theorem skills_count_decisions sim p d r st :
  journey_body sim p (start p d) = (r, st) ->
  Forall (fun pd => Forall (fun tag => In tag SKILLS) (chosen_skills pd))
         (decisions_made sim st) ->
  (forall skill,
     In skill SKILLS ->
     final_skills (fst (simulate_full_journey sim p d)) !! skill
       = Some (Z.of_nat (points skill (decisions_made sim st)))) /\
  (Forall (fun pd => List.NoDup (chosen_skills pd)) (decisions_made sim st) ->
   forall skill,
     In skill SKILLS ->
     final_skills (fst (simulate_full_journey sim p d)) !! skill
       = Some (Z.of_nat (decisions_listing skill (decisions_made sim st)))) /\
  (forall dp st1 r1 st2 skill n,
     decision_turn sim p dp st1 = (r1, st2) ->
     final_skills (journey st1) !! skill = Some n ->
     exists n', final_skills (journey st2) !! skill = Some n' /\ (n <= n')%Z).
Proof.
  intros Hb Hall.
  assert (Hpoints : forall skill,
            In skill SKILLS ->
            final_skills (fst (simulate_full_journey sim p d)) !! skill
              = Some (Z.of_nat (points skill (decisions_made sim st)))).
  { intros skill Hs.
    assert (Hfin : final_skills (fst (simulate_full_journey sim p d))
                   = final_skills (journey st)).
    { unfold simulate_full_journey. rewrite Hb. now destruct r. }
    rewrite Hfin.
    apply journey_body_spec in Hb as (_ & _ & _ & _ & _ & _ & Heff & _).
    destruct Heff as [Hacc|(pd & tag & Hin & Htag & Hnone)].
    - rewrite (Hacc skill), (initial_skills p skill Hs). reflexivity.
    - rewrite List.Forall_forall in Hall. pose proof (Hall pd Hin) as Hk.
      rewrite List.Forall_forall in Hk.
      rewrite (initial_skills p tag (Hk tag Htag)) in Hnone. discriminate. }
  split; [exact Hpoints|]. split.
  - intros Hset skill Hs. rewrite (Hpoints skill Hs). now rewrite points_listing.
  - intros dp st1 r1 st2 skill n Ht Hn.
    destruct (grows_decision_turn _ _ _ _ _ _ Ht) as (_ & _ & _ & Hmono). now apply Hmono.
Qed.

Lemma writes_append path chunks :
  forall fs old,
    fs !! path = Some old ->
    fold_left apply_op (map (FileWrite path) chunks) fs !! path
      = Some (old ++ join "" chunks)%string.
Proof.
  induction chunks as [|c rest IH]; intros fs old Hfs.
  - simpl. now rewrite str_app_empty_r.
  - simpl fold_left. rewrite Hfs. rewrite (IH _ (old ++ c)%string).
    + f_equal. rewrite str_app_assoc. f_equal.
      destruct rest; simpl; [now rewrite str_app_empty_r | reflexivity].
    + apply lookup_insert_eq.
Qed.

(** C5, as amended. At the end of a run, after one record was appended for
    each participant, the results are written to the results file itself:
    the file is opened for writing, which empties it, the pieces of the
    encoding are written to it one after the other, and it is closed.  No
    other path is written and nothing is renamed. *)
Theorem results_written_in_place json_chunks sim personas results d fs :
  let '(results', _, ops) := run_simulation json_chunks sim personas results d in
  length results' = length results + length personas /\
  ops = [Makedirs OUTPUT_DIR; OpenW RESULTS_FILE]
        ++ map (FileWrite RESULTS_FILE) (json_chunks results')
        ++ [FileClose RESULTS_FILE] /\
  (forall src dst, ~ In (Rename src dst) ops) /\
  apply_ops fs (firstn 2 ops) !! RESULTS_FILE = Some "" /\
  apply_ops fs ops !! RESULTS_FILE = Some (join "" (json_chunks results')).
Proof.
  unfold run_simulation.
  destruct (run_journeys_spec sim personas results d) as (js & Hjs & Hall).
  destruct (run_journeys sim personas results d) as [results' d'].
  cbn [fst] in Hjs. subst results'.
  split.
  { rewrite length_app. f_equal. symmetry. eapply Forall2_length, Hall. }
  split; [reflexivity|]. split.
  { intros src dst. unfold save_results. simpl.
    intros [H|[H|H]]; try discriminate.
    apply in_app_or in H as [H|[H|[]]]; [|discriminate].
    apply in_map_iff in H as (c & Hc & _). discriminate. }
  split.
  { unfold save_results, apply_ops. simpl. apply lookup_insert_eq. }
  unfold save_results, apply_ops. simpl fold_left.
  rewrite fold_left_app. simpl.
  rewrite (writes_append _ _ _ "" (lookup_insert_eq _ _ _)). reflexivity.
Qed.

End Runner.

(* ===================================================================== *)
(** ** The properties on a scripted run *)
(* ===================================================================== *)

Section ScriptedRuns.
Import Py Re Utils Config Sim Tally Examples.

(** Five markers: the ratings are the five digits, in order. *)
Lemma ratings_all_or_nothing_witness :
  exists fb,
    parse_feedback_response (PyStr "Rate: 5 Rate: 4 Rate: 3 Rate: 2 Rate: 1") = Ok fb /\
    realistic fb = 5%Z /\ felt_safe fb = 4%Z /\ helpful_feedback fb = 3%Z /\
    would_recommend fb = 2%Z /\ confidence fb = 1%Z.
Proof.
  destruct (ratings_all_or_nothing "Rate: 5 Rate: 4 Rate: 3 Rate: 2 Rate: 1")
    as (fb & Hp & _ & Hge).
  exists fb. split; [exact Hp|].
  assert (Hlen : 5 <= length (findall I ratings_pattern "Rate: 5 Rate: 4 Rate: 3 Rate: 2 Rate: 1"))
    by (vm_compute; lia).
  destruct (Hge Hlen) as (E0 & E1 & E2 & E3 & E4).
  assert (R0 : rating_at (findall I ratings_pattern "Rate: 5 Rate: 4 Rate: 3 Rate: 2 Rate: 1") 0
               = Ok 5%Z) by (vm_compute; reflexivity).
  assert (R1 : rating_at (findall I ratings_pattern "Rate: 5 Rate: 4 Rate: 3 Rate: 2 Rate: 1") 1
               = Ok 4%Z) by (vm_compute; reflexivity).
  assert (R2 : rating_at (findall I ratings_pattern "Rate: 5 Rate: 4 Rate: 3 Rate: 2 Rate: 1") 2
               = Ok 3%Z) by (vm_compute; reflexivity).
  assert (R3 : rating_at (findall I ratings_pattern "Rate: 5 Rate: 4 Rate: 3 Rate: 2 Rate: 1") 3
               = Ok 2%Z) by (vm_compute; reflexivity).
  assert (R4 : rating_at (findall I ratings_pattern "Rate: 5 Rate: 4 Rate: 3 Rate: 2 Rate: 1") 4
               = Ok 1%Z) by (vm_compute; reflexivity).
  rewrite R0 in E0. rewrite R1 in E1. rewrite R2 in E2. rewrite R3 in E3. rewrite R4 in E4.
  injection E0 as <-. injection E1 as <-. injection E2 as <-.
  injection E3 as <-. injection E4 as <-. repeat split; reflexivity.
Defined.

(** The agent fails in the second scenario, the first one finished: the
    record of the first is kept, as [simulate_scenario] returned it. *)
Lemma journey_fault_is_recorded_witness :
  let j := fst (simulate_full_journey sim2 late 0) in
  let run := journey_body sim2 late (start late 0) in
  fst run = Err (Exn RuntimeError "agent down") /\
  persona_id j = "Chidi" /\
  completion_status j = "error" /\
  error j = Some "agent down" /\
  error_traceback j = Some "Traceback (most recent call last): agent down" /\
  stopped sim2 late 0 (Exn RuntimeError "agent down") (snd run)
    (selection j) (scenarios j) /\
  map scenario_id (scenarios j) = ["scenario_1"] /\
  map decision_id (decisions_kept j) = ["d1"; "d2"].
Proof.
  cbv zeta.
  assert (Hb : journey_body sim2 late (start late 0)
               = (Err (Exn RuntimeError "agent down"),
                  snd (journey_body sim2 late (start late 0)))).
  { rewrite (surjective_pairing (journey_body sim2 late (start late 0))) at 1.
    f_equal; vm_compute; reflexivity. }
  destruct (proj1 journey_fault_is_recorded sim2 late 0 _ _ Hb)
    as (Hp & Hs & He & Ht & _ & _ & _ & Hstop & _).
  split; [now rewrite Hb|]. split; [exact Hp|]. split; [exact Hs|].
  split; [exact He|]. split; [exact Ht|]. split; [exact Hstop|].
  split; vm_compute; reflexivity.
Defined.

(** C2 as stated fails: the agent of this participant fails at the second
    decision of the scenario; the first decision had been made and recorded
    in the scenario's own record, and its skill point counted, but the
    journey record holds no scenario and no decision. *)
Lemma fault_drops_decisions :
  let run := journey_body sim cut_off (start cut_off 0) in
  let j := fst (simulate_full_journey sim cut_off 0) in
  fst run = Err (Exn RuntimeError "agent down") /\
  map (fun pd => (decision_id (snd pd), choice (snd pd))) (decisions_made sim (snd run))
    = [("d1", "A")] /\
  completion_status j = "error" /\
  scenarios j = [] /\
  decisions_kept j = [] /\
  decisions_kept j <> map snd (decisions_made sim (snd run)) /\
  final_skills j !! "warning_signs" = Some 1%Z.
Proof. vm_compute. repeat split; try reflexivity. discriminate. Qed.

(** The scenario of the catalog, from the first draw of the generator. *)
Lemma scenario_time_in_range_witness :
  exists r st',
    simulate_scenario sim steady party (JState 0 1 (new_journey steady) None) = (Ok r, st') /\
    (180 <= time_spent_seconds r <= 420)%Z /\
    Forall (fun r => (180 <= time_spent_seconds r <= 420)%Z)
           (scenarios (fst (simulate_full_journey sim steady 0))).
Proof.
  assert (HX : exists r st',
             simulate_scenario sim steady party (JState 0 1 (new_journey steady) None)
             = (Ok r, st')).
  { vm_compute. eexists _, _. reflexivity. }
  destruct HX as (r & st' & HX). exists r, st'. split; [exact HX|]. split.
  - exact (proj1 (proj2 scenario_time_in_range _ _ _ _ _ _ HX)).
  - exact (proj1 scenario_time_in_range sim steady 0).
Defined.

(** A full journey: one decision lists [warning_signs], none lists
    [distraction]. *)
Lemma skills_count_decisions_witness :
  let run := journey_body sim steady (start steady 0) in
  Forall (fun pd => Forall (fun tag => In tag SKILLS) (chosen_skills pd))
         (decisions_made sim (snd run)) /\
  Forall (fun pd => List.NoDup (chosen_skills pd)) (decisions_made sim (snd run)) /\
  final_skills (fst (simulate_full_journey sim steady 0)) !! "warning_signs" = Some 1%Z /\
  final_skills (fst (simulate_full_journey sim steady 0)) !! "distraction" = Some 0%Z.
Proof.
  cbv zeta.
  assert (Hall : Forall (fun pd => Forall (fun tag => In tag SKILLS) (chosen_skills pd))
                   (decisions_made sim (snd (journey_body sim steady (start steady 0))))).
  { apply known_tags_check. vm_compute. reflexivity. }
  assert (Hset : Forall (fun pd => List.NoDup (chosen_skills pd))
                   (decisions_made sim (snd (journey_body sim steady (start steady 0))))).
  { apply tag_sets_check. vm_compute. reflexivity. }
  split; [exact Hall|]. split; [exact Hset|].
  pose proof (skills_count_decisions sim steady 0 _ _
                (surjective_pairing (journey_body sim steady (start steady 0))) Hall)
    as (_ & Hcount & _).
  split.
  - rewrite (Hcount Hset "warning_signs"); [vm_compute; reflexivity | simpl; tauto].
  - rewrite (Hcount Hset "distraction"); [vm_compute; reflexivity | simpl; tauto].
Defined.

(** C8 as stated fails: a point is added for each tag in the list of the
    chosen option, so a tag that the option lists twice counts twice.  In
    this journey, which is completed and in which every tag is a known
    skill, one decision lists [distraction] and its count ends at 2. *)
Lemma tag_listed_twice_counts_twice :
  let run := journey_body sim2 keen (start keen 0) in
  let j := fst (simulate_full_journey sim2 keen 0) in
  completion_status j = "completed" /\
  forallb (fun pd => forallb (fun tag => existsb (String.eqb tag) SKILLS)
                       (chosen_skills pd))
          (decisions_made sim2 (snd run)) = true /\
  map (fun pd => (decision_id (snd pd), choice (snd pd), chosen_skills pd))
      (decisions_made sim2 (snd run))
    = [("d1", "A", ["warning_signs"]); ("d2", "B", []);
       ("d3", "A", ["distraction"; "distraction"]); ("d1", "B", [])] /\
  decisions_listing "distraction" (decisions_made sim2 (snd run)) = 1 /\
  final_skills j !! "distraction" = Some 2%Z /\
  final_skills j !! "distraction"
    <> Some (Z.of_nat (decisions_listing "distraction" (decisions_made sim2 (snd run)))).
Proof. vm_compute. repeat split; try reflexivity. discriminate. Qed.

(** C5 as stated fails: nothing is written to a temporary file and nothing
    is renamed; the results file is emptied when it is opened, so a run that
    is interrupted between the opening and the last write leaves it with
    neither the results of the previous run nor those of this one. *)
Lemma save_is_not_atomic :
  let '(_, _, ops) := run_simulation (fun _ => ["[]"]) sim [] [] 0 in
  let fs : gmap string string := {[ RESULTS_FILE := "[old results]" ]} in
  (forall src dst, ~ In (Rename src dst) ops) /\
  fs !! RESULTS_FILE = Some "[old results]" /\
  apply_ops fs ops !! RESULTS_FILE = Some "[]" /\
  apply_ops fs (firstn 2 ops) !! RESULTS_FILE = Some "" /\
  ~ atomic_replace fs ops RESULTS_FILE.
Proof.
  cbn. split.
  { intros src dst H. repeat (destruct H as [H|H]; [discriminate|]). exact H. }
  split; [vm_compute; reflexivity|]. split; [vm_compute; reflexivity|].
  split; [vm_compute; reflexivity|].
  intros H. specialize (H 2). vm_compute in H. destruct H as [H|H]; discriminate.
Qed.

End ScriptedRuns.

(* ===================================================================== *)
(** ** More about strings *)
(* ===================================================================== *)

Section StripFacts.
Import Py.

Lemma lstrip_all_spaces w :
  (forall c, In c (list_ascii_of_string w) -> is_space c = true) -> lstrip w = "".
Proof.
  induction w as [|c w IH]; intros H; [reflexivity|]. simpl.
  rewrite (H c (or_introl eq_refl)). apply IH. intros d Hd. apply H. now right.
Qed.

Lemma rstrip_all_spaces w :
  (forall c, In c (list_ascii_of_string w) -> is_space c = true) -> rstrip w = "".
Proof.
  induction w as [|c w IH]; intros H; [reflexivity|]. simpl.
  rewrite IH by (intros d Hd; apply H; now right).
  now rewrite (H c (or_introl eq_refl)).
Qed.

Lemma rstrip_app_spaces v w :
  (forall c, In c (list_ascii_of_string w) -> is_space c = true) ->
  rstrip (v ++ w) = rstrip v.
Proof.
  intros H. induction v as [|c v IH].
  - rewrite str_app_nil. now apply rstrip_all_spaces.
  - rewrite str_app_cons. simpl. now rewrite IH.
Qed.

Lemma strip_app_spaces g w :
  (forall c, In c (list_ascii_of_string w) -> is_space c = true) ->
  strip (g ++ w) = strip g.
Proof.
  intros H. unfold strip. induction g as [|c g IH].
  - rewrite str_app_nil. now rewrite (lstrip_all_spaces w H).
  - rewrite str_app_cons. simpl. destruct (is_space c); [exact IH|].
    rewrite <- str_app_cons. now apply rstrip_app_spaces.
Qed.

(** White space around a text does not change what [strip] gives. *)
Lemma strip_padded u g w :
  (forall c, In c (list_ascii_of_string u) -> is_space c = true) ->
  (forall c, In c (list_ascii_of_string w) -> is_space c = true) ->
  strip (u ++ g ++ w) = strip g.
Proof.
  intros Hu Hw. unfold strip. rewrite (lstrip_spaces u (g ++ w) Hu).
  now apply strip_app_spaces.
Qed.


Lemma lstrip_head s : match lstrip s with
                      | EmptyString => True
                      | String c _ => is_space c = false
                      end.
Proof.
  induction s as [|c s IH]; simpl; [exact I|].
  destruct (is_space c) eqn:Hc; [exact IH | exact Hc].
Qed.



Lemma strip_cons_space c s : is_space c = true -> strip (String c s) = strip s.
Proof. intros H. unfold strip. simpl. now rewrite H. Qed.

End StripFacts.

(* ===================================================================== *)
(** ** The first match, place by place *)
(* ===================================================================== *)

Section FirstMatch.
Import Py Re Utils Markers Scan.

(** [re.search] returns the match at the first place that has one: if what a
    match from a place gives is told by [here], the scan gives what
    [first_of here] gives. *)
Lemma search_from_first_of {A} fl r (here : string -> option A)
    (V : mstate -> A -> Prop) :
  (forall p t e, mtch fl r accept p t None = Some e ->
                 exists a, here t = Some a /\ V e a) ->
  (forall p t, mtch fl r accept p t None = None -> here t = None) ->
  forall s p,
    match search_from fl r p s with
    | Some m => exists a, first_of here s = Some a /\ V (m_end m) a
    | None => first_of here s = None
    end.
Proof.
  intros Hs Hn. induction s as [|x s IH]; intros p; simpl.
  - destruct (mtch fl r accept p "" None) as [e|] eqn:Hm.
    + destruct (Hs _ _ _ Hm) as (a & Ha & Hv). rewrite Ha. eauto.
    + now rewrite (Hn _ _ Hm).
  - destruct (mtch fl r accept p (String x s) None) as [e|] eqn:Hm.
    + destruct (Hs _ _ _ Hm) as (a & Ha & Hv). rewrite Ha. eauto.
    + rewrite (Hn _ _ Hm). apply IH.
Qed.

Lemma accept_inv p s g e : accept p s g = Some e -> e = MState p s g.
Proof. unfold accept. now intros [= <-]. Qed.

Lemma mtch_none_no_match fl r p t :
  mtch fl r accept p t None = None ->
  forall p' s' g', ~ matches fl r p t None p' s' g'.
Proof.
  intros Hn p' s' g' Hm.
  apply mtch_complete with (k := accept) in Hm as [m Hm]; [|unfold accept; eauto].
  congruence.
Qed.

(** A match of the decision parser's first pattern from a place. *)
Lemma decision_choice_at p t e :
  mtch I decision_choice_re accept p t None = Some e ->
  exists c, choice_label_here t = Some c /\ st_group e = Some (String c "").
Proof.
  intros H. apply mtch_sound in H as (p' & s' & g' & Hm & Hk).
  apply accept_inv in Hk as ->. simpl.
  rewrite decision_choice_re_eq in Hm.
  apply matches_seq_inv in Hm as (p1 & s1 & g1 & H1 & Hm).
  apply matches_seq_inv in Hm as (p2 & s2 & g2 & H2 & H3).
  apply lit_matches in H1 as [Hw ->]; [|reflexivity].
  apply matches_star_inv in H2 as (-> & ws & -> & Hws).
  apply matches_group_inv in H3 as (Hg & g0 & H3).
  apply matches_one_inv in H3 as (x & -> & Hx & _ & _).
  rewrite consumed_one in Hg.
  apply label_class_ci in Hx as (Hl & Hsp & Hu).
  exists x. split; [|exact Hg].
  unfold choice_label_here. rewrite Hw.
  rewrite lstrip_spaces by (intros c Hc; eapply space_class, Hws, Hc).
  simpl. now rewrite Hsp, Hl.
Qed.

Lemma decision_choice_not_at p t :
  mtch I decision_choice_re accept p t None = None -> choice_label_here t = None.
Proof.
  intros Hn. destruct (choice_label_here t) as [c|] eqn:Hc; [exfalso|reflexivity].
  unfold choice_label_here in Hc.
  destruct (after_word "CHOICE:" t) as [rest|] eqn:Hw; [|discriminate].
  destruct (lstrip rest) as [|x tail] eqn:Hl; [discriminate|].
  destruct (is_label x) eqn:Hx; [|discriminate].
  destruct (lstrip_split rest) as (ws & Hrest & Hws). rewrite Hl in Hrest. subst rest.
  destruct (lit_complete I "CHOICE:" eq_refl p t None _ Hw) as [p1 H1].
  eapply mtch_none_no_match; [exact Hn|]. rewrite decision_choice_re_eq.
  eapply matches_seq; [exact H1|].
  eapply matches_seq.
  - apply matches_star_run. intros c0 Hc0. apply space_class_complete, Hws, Hc0.
  - eapply matches_group. apply matches_one. now apply label_class_ci_complete.
Qed.

(** The decision parser's first pattern finds the label after the first
    [CHOICE:] marker that has one. *)
Lemma decision_choice_first s :
  match search I decision_choice_re s with
  | Some m => exists c, first_of choice_label_here s = Some c /\
                        group1 m = Some (String c "")
  | None => first_of choice_label_here s = None
  end.
Proof.
  apply (search_from_first_of I decision_choice_re choice_label_here
           (fun e c => st_group e = Some (String c ""))).
  - apply decision_choice_at.
  - apply decision_choice_not_at.
Qed.

Lemma upper_label_class x :
  item_match M (ISet [ARange "A" "D"]) x = is_upper_label x.
Proof.
  destruct (item_match M (ISet [ARange "A" "D"]) x) eqn:H1.
  - symmetry. now apply label_class_cs in H1.
  - destruct (is_upper_label x) eqn:H2; [|reflexivity].
    apply label_class_cs_complete in H2. congruence.
Qed.

Lemma separator_class_eq x :
  item_match M (ISet [AChar "."; AChar ")"; AChar ":"; ASpace]) x = is_separator x.
Proof.
  destruct (item_match M (ISet [AChar "."; AChar ")"; AChar ":"; ASpace]) x) eqn:H1.
  - symmetry. now apply separator_class in H1.
  - destruct (is_separator x) eqn:H2; [|reflexivity].
    apply separator_class_complete in H2. congruence.
Qed.

(** What the fallback pattern does at one place. *)
Lemma fallback_at p s :
  mtch M fallback_re accept p s None =
  match s with
  | String c (String d t) =>
      if at_bol M p && is_upper_label c && is_separator d
      then Some (MState (Some d) t (Some (String c "")))
      else None
  | _ => None
  end.
Proof.
  rewrite fallback_re_eq.
  change (mtch M (Seq Bol (Seq (Group (One (ISet [ARange "A" "D"])))
                          (One (ISet [AChar "."; AChar ")"; AChar ":"; ASpace]))))
            accept p s None)
    with (if at_bol M p then
            match s with
            | String x t =>
                if item_match M (ISet [ARange "A" "D"]) x then
                  match t with
                  | String d t' =>
                      if item_match M (ISet [AChar "."; AChar ")"; AChar ":"; ASpace]) d
                      then accept (Some d) t' (Some (consumed s t))
                      else None
                  | EmptyString => None
                  end
                else None
            | EmptyString => None
            end
          else None).
  destruct s as [|c [|d t]].
  - now destruct (at_bol M p).
  - rewrite upper_label_class. destruct (at_bol M p), (is_upper_label c); reflexivity.
  - rewrite upper_label_class, separator_class_eq, consumed_one.
    destruct (at_bol M p), (is_upper_label c), (is_separator d); reflexivity.
Qed.

(** The fallback pattern finds the first label that starts a line. *)
Lemma fallback_first s :
  forall p,
    match search_from M fallback_re p s with
    | Some m => exists c, first_line_label (at_bol M p) s = Some c /\
                          group1 m = Some (String c "")
    | None => first_line_label (at_bol M p) s = None
    end.
Proof.
  induction s as [|c s IH]; intros p.
  - change (search_from M fallback_re p "")
      with (match mtch M fallback_re accept p "" None with
            | Some e => Some (ReMatch "" e)
            | None => None
            end).
    rewrite fallback_at. reflexivity.
  - change (search_from M fallback_re p (String c s))
      with (match mtch M fallback_re accept p (String c s) None with
            | Some e => Some (ReMatch (String c s) e)
            | None => search_from M fallback_re (Some c) s
            end).
    rewrite fallback_at.
    change (first_line_label (at_bol M p) (String c s))
      with (if at_bol M p && is_upper_label c &&
               match s with
               | String d _ => is_separator d
               | EmptyString => false
               end
            then Some c
            else first_line_label (Ascii.eqb c newline) s).
    destruct s as [|d t].
    + rewrite andb_false_r. apply (IH (Some c)).
    + destruct (at_bol M p && is_upper_label c && is_separator d) eqn:Hb.
      * exists c. split; reflexivity.
      * apply (IH (Some c)).
Qed.

Lemma matches_eol_inv fl p s g p' s' g' :
  matches fl Eol p s g p' s' g' ->
  at_eol fl s = true /\ p' = p /\ s' = s /\ g' = g.
Proof. inversion 1; subst; auto. Qed.

(** A match of the [REASONING:] pattern from a place: the group is the rest
    of the text, white space at its ends aside. *)
Lemma reasoning_at p t e :
  mtch I_S reasoning_re accept p t None = Some e ->
  exists rest, reasoning_here t = Some rest /\
               exists g, st_group e = Some g /\ strip g = strip rest.
Proof.
  intros H. apply mtch_sound in H as (p' & s' & g' & Hm & Hk).
  apply accept_inv in Hk as ->. simpl.
  rewrite reasoning_re_eq in Hm.
  apply matches_seq_inv in Hm as (p1 & s1 & g1 & H1 & Hm).
  apply matches_seq_inv in Hm as (p2 & s2 & g2 & H2 & Hm).
  apply matches_seq_inv in Hm as (p3 & s3 & g3 & H3 & H4).
  apply lit_matches in H1 as [Hw ->]; [|reflexivity].
  apply matches_star_inv in H2 as (-> & ws & -> & Hws).
  apply matches_group_inv in H3 as (Hg & g0 & H3).
  apply matches_suffix in H3 as Hsuf. destruct Hsuf as [body ->].
  rewrite consumed_app in Hg.
  apply matches_seq_inv in H3 as (p4 & s4 & g4 & H3 & _).
  apply matches_one_inv in H3 as (x & Hx & _).
  apply matches_eol_inv in H4 as (He & -> & -> & ->).
  exists (ws ++ body ++ s3)%string. split.
  - unfold reasoning_here. rewrite Hw.
    destruct ws; [|reflexivity]. rewrite str_app_nil. now rewrite Hx.
  - exists body. split; [exact Hg|]. symmetry. apply strip_padded.
    + intros c Hc. eapply space_class, Hws, Hc.
    + destruct s3 as [|y [|z s3]]; simpl in He; try discriminate.
      * intros c [].
      * rewrite andb_true_r in He. apply Ascii.eqb_eq in He as ->.
        intros c [<-|[]]. reflexivity.
      * now rewrite andb_false_r in He.
Qed.

Lemma reasoning_not_at p t :
  mtch I_S reasoning_re accept p t None = None -> reasoning_here t = None.
Proof.
  intros Hn. destruct (reasoning_here t) as [r|] eqn:Hc; [exfalso|reflexivity].
  unfold reasoning_here in Hc.
  destruct (after_word "REASONING:" t) as [rest|] eqn:Hw; [|discriminate].
  destruct rest as [|x tail]; [discriminate|].
  destruct (lit_complete I_S "REASONING:" eq_refl p t None _ Hw) as [p1 H1].
  eapply mtch_none_no_match; [exact Hn|]. rewrite reasoning_re_eq.
  eapply matches_seq; [exact H1|].
  eapply matches_seq; [apply matches_star_stop|].
  eapply matches_seq.
  { eapply matches_group. eapply matches_seq.
    - now constructor.
    - rewrite <- (str_app_empty_r tail) at 1.
      apply matches_star_run. intros c0 Hc0. reflexivity. }
  apply matches_eol. reflexivity.
Qed.

(** The reasoning a parser returns is all that follows the first
    [REASONING:] marker with text after it, stripped. *)
Lemma reasoning_first s dflt :
  strip_or (search I_S reasoning_re s) dflt = Ok (scan_reasoning dflt s).
Proof.
  pose proof (search_from_first_of I_S reasoning_re reasoning_here
                (fun e rest => exists g, st_group e = Some g /\ strip g = strip rest)
                reasoning_at reasoning_not_at s None) as H.
  unfold search, scan_reasoning.
  destruct (search_from I_S reasoning_re None s) as [m|].
  - destruct H as (rest & -> & g & Hg & Hs). simpl. unfold group_strip, group1.
    now rewrite Hg, Hs.
  - now rewrite H.
Qed.

End FirstMatch.

(* ===================================================================== *)
(** ** What the decision parser returns *)
(* ===================================================================== *)

Section DecisionParser.
Import Py Re Sim Format Markers Scan Utils.


Lemma upper_of_upper_label c :
  is_upper_label c = true -> str_upper (String c "") = String c "".
Proof.
  intros H.
  apply (ascii_all_impl is_upper_label
           (fun x => String.eqb (str_upper (String x "")) (String x ""))) in H.
  - now apply String.eqb_eq in H.
  - vm_compute. reflexivity.
Qed.





(** The label the decision parser gives to a text. *)
Lemma decision_label_scan s :
  (match search I decision_choice_re s with
   | Some m => group_upper m
   | None =>
       match search M fallback_re s with
       | Some fallback => group_upper fallback
       | None => Ok "A"
       end
   end) = Ok (scan_label s).
Proof.
  unfold scan_label. pose proof (decision_choice_first s) as H1.
  destruct (search I decision_choice_re s) as [m|].
  - destruct H1 as (c & -> & Hg). unfold group_upper. now rewrite Hg.
  - rewrite H1. pose proof (fallback_first s None) as H2.
    unfold search. change (at_bol M None) with true in H2.
    destruct (search_from M fallback_re None s) as [m|].
    + destruct H2 as (c & -> & Hg). unfold group_upper. now rewrite Hg.
    + now rewrite H2.
Qed.

Lemma parse_decision_text s :
  s <> "" ->
  parse_decision_response (PyStr s) =
  Ok (scan_label s, scan_reasoning "Default reasoning" s).
Proof.
  intros Hs. unfold parse_decision_response.
  rewrite (truthy_text _ 0 Hs). unfold mbind, result_bind, rbind.
  cbn [negb orb is_str chars_of]. now rewrite decision_label_scan, reasoning_first.
Qed.


(** X2.  On a text that is not empty the decision parser returns: as label,
    the letter (made upper case) that follows the first [CHOICE:] marker
    with one of a-d or A-D after it, white space between aside; without such
    a marker the first of A-D that starts a line and has one of [.):] or
    white space after it; else A.  As reasoning, all that follows the first
    [REASONING:] marker with text after it, stripped; else
    ["Default reasoning"]. *)
Theorem decision_parser_scan (s : string) :
  s <> "" ->
  parse_decision_response (PyStr s) =
  Ok (scan_label s, scan_reasoning "Default reasoning" s).
Proof. apply parse_decision_text. Qed.

Lemma decision_parser_scan_witness :
  parse_decision_response (PyStr "I would pick b) because it is safer") =
  Ok (scan_label "I would pick b) because it is safer",
      scan_reasoning "Default reasoning" "I would pick b) because it is safer").
Proof. apply decision_parser_scan. discriminate. Defined.

Lemma label_cases c :
  is_label c = true ->
  In c (list_ascii_of_string "ABCDabcd").
Proof.
  unfold is_label. intros H. apply existsb_exists in H as (x & Hx & He).
  apply Ascii.eqb_eq in He. now subst.
Qed.

Lemma decision_reply_text (c : ascii) (r : string) :
  is_label c = true ->
  strip r = r ->
  parse_decision_response
    (PyStr ("CHOICE: " ++ String c (String newline ("REASONING: " ++ r)))) =
  Ok (str_upper (String c ""), r).
Proof.
  intros Hc Hr. rewrite parse_decision_text by discriminate.
  apply label_cases in Hc. f_equal. f_equal.
  - simpl in Hc.
    repeat (destruct Hc as [<-|Hc]; [vm_compute; reflexivity|]). contradiction.
  - assert (Hf : first_of reasoning_here
                   ("CHOICE: " ++ String c (String newline ("REASONING: " ++ r)))
                 = Some (String " " r)).
    { simpl in Hc.
      repeat (destruct Hc as [<-|Hc]; [vm_compute; reflexivity|]). contradiction. }
    unfold scan_reasoning. rewrite Hf. now rewrite strip_cons_space.
Qed.

(** X3.  A reply in the format the prompt asks for is read back as it was
    written: the label in upper case, and the reasoning as it stands when
    it has no white space at its ends. *)
Theorem decision_reply_round_trip (c : ascii) (r : string) :
  is_label c = true ->
  strip r = r ->
  parse_decision_response
    (PyStr ("CHOICE: " ++ String c (String newline ("REASONING: " ++ r)))) =
  Ok (str_upper (String c ""), r).
Proof. apply decision_reply_text. Qed.

Lemma decision_reply_round_trip_witness :
  parse_decision_response
    (PyStr ("CHOICE: " ++ String "b" (String newline ("REASONING: " ++ "It feels safer.")))) =
  Ok (str_upper (String "b" ""), "It feels safer.").
Proof. apply decision_reply_round_trip; vm_compute; reflexivity. Defined.

Lemma first_of_none_somewhere (f : string -> option ascii) g s :
  (forall t, f t = None <-> g t = false) ->
  somewhere g s = false -> first_of f s = None.
Proof.
  intros Hfg. induction s as [|x s IH]; simpl; intros H.
  - rewrite orb_false_r in H. apply Hfg in H. now rewrite H.
  - apply orb_false_iff in H as [H1 H2]. apply Hfg in H1. rewrite H1. now apply IH.
Qed.

Lemma no_choice_label s :
  has_choice_label s = false -> first_of choice_label_here s = None.
Proof.
  unfold has_choice_label, has_marker. apply first_of_none_somewhere.
  intros t. unfold choice_label_here. destruct (after_word "CHOICE:" t); [|tauto].
  destruct (lstrip s0) as [|x r]; [tauto|].
  destruct (is_label x); split; intros; try discriminate; reflexivity.
Qed.

(** X4.  When the options as [format_options] shows them come back as the
    reply, and no text in them has a [CHOICE:] marker with a label, the
    decision parser returns the key of the first option, if that is one of
    A-D. *)
Theorem options_echo_gives_first_key (c : ascii) (o : choice_option)
    (rest : list (string * choice_option)) :
  is_upper_label c = true ->
  has_choice_label (format_options ((String c "", o) :: rest)) = false ->
  exists reasoning,
    parse_decision_response (PyStr (format_options ((String c "", o) :: rest))) =
    Ok (String c "", reasoning).
Proof.
  intros Hc Hn.
  assert (Hs : exists t, format_options ((String c "", o) :: rest)
                         = String c (String "." t)).
  { unfold format_options. cbn [map fst snd]. destruct (map _ rest); simpl; eauto. }
  destruct Hs as [t Hs]. rewrite Hs in *.
  rewrite parse_decision_text by discriminate. eexists. f_equal. f_equal.
  unfold scan_label. rewrite (no_choice_label _ Hn).
  change (first_line_label true (String c (String "." t)))
    with (if true && is_upper_label c && is_separator "." then Some c
          else first_line_label (Ascii.eqb c newline) (String "." t)).
  rewrite Hc. simpl. now apply upper_of_upper_label.
Qed.

Lemma options_echo_gives_first_key_witness :
  exists reasoning,
    parse_decision_response
      (PyStr (format_options
                [("B", ChoiceOption "Ask a friend to help" ["delegate"] "Good.");
                 ("A", ChoiceOption "Walk away" [] "Hm.")])) =
    Ok ("B", reasoning).
Proof.
  apply (options_echo_gives_first_key "B"
           (ChoiceOption "Ask a friend to help" ["delegate"] "Good.")
           [("A", ChoiceOption "Walk away" [] "Hm.")]); vm_compute; reflexivity.
Defined.

End DecisionParser.

(* ===================================================================== *)
(** ** The order in which the matcher tries things *)
(* ===================================================================== *)

Section MatcherOrder.
Import Py Re Markers Scan.
Variable fl : flags.

(** A literal word reads the word and goes on. *)
Lemma lit_eval w :
  IGNORECASE fl = true ->
  forall p t,
    match after_word w t with
    | Some rest => exists p', forall (k : cont) g, mtch fl (lit w) k p t g = k p' rest g
    | None => forall (k : cont) g, mtch fl (lit w) k p t g = None
    end.
Proof.
  intros Hi. induction w as [|c w IH]; intros p t.
  - simpl. exists p. reflexivity.
  - assert (Hone : forall x t' (k : cont) g,
               mtch fl (One (IChr c)) k p (String x t') g =
               if Ascii.eqb (lower x) (lower c) then k (Some x) t' g else None).
    { intros x t' k g. simpl. unfold chr_match. now rewrite Hi. }
    destruct t as [|x t].
    + destruct w; simpl; reflexivity.
    + change (after_word (String c w) (String x t))
        with (if Ascii.eqb (lower x) (lower c) then after_word w t else None).
      destruct w as [|d w].
      * destruct (Ascii.eqb (lower x) (lower c)) eqn:Hx.
        -- exists (Some x). intros k g.
           change (lit (String c "")) with (One (IChr c)). rewrite Hone. now rewrite Hx.
        -- intros k g. change (lit (String c "")) with (One (IChr c)).
           rewrite Hone. now rewrite Hx.
      * change (lit (String c (String d w)))
          with (Seq (One (IChr c)) (lit (String d w))).
        destruct (Ascii.eqb (lower x) (lower c)) eqn:Hx.
        -- specialize (IH (Some x) t).
           destruct (after_word (String d w) t) as [rest|].
           ++ destruct IH as [p' IH]. exists p'. intros k g.
              change (mtch fl (Seq (One (IChr c)) (lit (String d w))) k p (String x t) g)
                with (mtch fl (One (IChr c)) (mtch fl (lit (String d w)) k) p (String x t) g).
              rewrite Hone, Hx. apply IH.
           ++ intros k g.
              change (mtch fl (Seq (One (IChr c)) (lit (String d w))) k p (String x t) g)
                with (mtch fl (One (IChr c)) (mtch fl (lit (String d w)) k) p (String x t) g).
              rewrite Hone, Hx. apply IH.
        -- intros k g.
           change (mtch fl (Seq (One (IChr c)) (lit (String d w))) k p (String x t) g)
             with (mtch fl (One (IChr c)) (mtch fl (lit (String d w)) k) p (String x t) g).
           rewrite Hone. now rewrite Hx.
Qed.

(** A greedy repetition that can go on after all of [u] does so. *)
Lemma star_greedy_eval i (k : cont) u :
  (forall c, In c (list_ascii_of_string u) -> item_match fl i c = true) ->
  forall p v g m,
    star fl true i k (prev_after p u) v g = Some m ->
    star fl true i k p (u ++ v) g = Some m.
Proof.
  induction u as [|x u IH]; intros Hu p v g m H.
  - exact H.
  - rewrite str_app_cons. simpl. rewrite (Hu x (or_introl eq_refl)).
    rewrite (IH (fun c Hc => Hu c (or_intror Hc)) (Some x) v g m H). reflexivity.
Qed.

(** A repetition stops before a character that is not of its class. *)
Lemma star_stop_eval greedy i (k : cont) p x t g :
  item_match fl i x = false ->
  star fl greedy i k p (String x t) g = k p (String x t) g.
Proof. intros H. simpl. now rewrite H. Qed.

(** A lazy repetition of [.] inside the group goes on to the first place at
    which what follows the group matches. *)
Lemma star_lazy_take (stop : string -> bool) (k' : cont) :
  (forall p s g, stop s = true -> exists e, k' p s g = Some e /\ st_group e = g) ->
  (forall p s g, stop s = false -> k' p s g = None) ->
  (forall y t, stop (String y t) = false -> item_match fl IAny y = true) ->
  stop "" = true ->
  forall tail u p g0,
    exists e,
      star fl false IAny
        (fun p' s' _ => k' p' s' (Some (consumed (u ++ tail) s'))) p tail g0 = Some e /\
      st_group e = Some (u ++ take_until stop tail)%string.
Proof.
  intros Hstop Hgo Hany Hend. induction tail as [|y t IH]; intros u p g0.
  - simpl. rewrite Hend.
    destruct (Hstop p "" (Some (consumed (u ++ "") "")) Hend) as (e & He & Hg).
    exists e. split; [exact He|]. now rewrite Hg, consumed_app, str_app_empty_r.
  - destruct (stop (String y t)) eqn:Hs.
    + destruct (Hstop p (String y t) (Some (consumed (u ++ String y t) (String y t))) Hs)
        as (e & He & Hg).
      exists e. split.
      * cbn [star]. rewrite He. now destruct (item_match fl IAny y).
      * rewrite Hg, consumed_app. simpl take_until. now rewrite Hs, str_app_empty_r.
    + destruct (IH (u ++ String y "")%string (Some y) g0) as (e & He & Hg).
      exists e. split.
      * cbn [star]. rewrite (Hany y t Hs), (Hgo _ _ _ Hs).
        rewrite str_app_assoc in He. exact He.
      * rewrite Hg, str_app_assoc. simpl take_until. now rewrite Hs.
Qed.

(** [\s*(.+?)] and what follows it, on text that has something other than
    white space: the white space is skipped, and the group runs from there
    to the first place at which what follows matches. *)
Lemma text_group_eval (T : regex) (stop : string -> bool) :
  (forall p s g, stop s = true ->
                 exists e, mtch fl T accept p s g = Some e /\ st_group e = g) ->
  (forall p s g, stop s = false -> mtch fl T accept p s g = None) ->
  (forall y t, stop (String y t) = false -> item_match fl IAny y = true) ->
  stop "" = true ->
  forall rest x tail,
    lstrip rest = String x tail ->
    item_match fl IAny x = true ->
    forall p g,
      exists e,
        mtch fl (Seq (Star true space) (Seq (Group (Seq (One IAny) (Star false IAny))) T))
          accept p rest g = Some e /\
        st_group e = Some (String x (take_until stop tail)).
Proof.
  intros Hstop Hgo Hany Hend rest x tail Hl Hx p g.
  destruct (lstrip_split rest) as (ws & Hrest & Hws). rewrite Hl in Hrest.
  pose proof (lstrip_head rest) as Hh. rewrite Hl in Hh.
  destruct (star_lazy_take stop (mtch fl T accept) Hstop Hgo Hany Hend
              tail (String x "") (Some x) g) as (e & He & Hg).
  exists e. split; [|exact Hg].
  change (mtch fl (Seq (Star true space) (Seq (Group (Seq (One IAny) (Star false IAny))) T))
            accept p rest g)
    with (star fl true space
            (mtch fl (Seq (Group (Seq (One IAny) (Star false IAny))) T) accept) p rest g).
  rewrite Hrest. apply star_greedy_eval.
  - intros c Hc. apply space_class_complete, Hws, Hc.
  - rewrite star_stop_eval.
    + cbn [mtch]. rewrite Hx. exact He.
    + simpl. now rewrite orb_false_r.
Qed.

(** The group of [\s*(.+?)] lies within the text. *)
Lemma text_group_within (T : regex) p rest g p' s' g' :
  matches fl (Seq (Star true space) (Seq (Group (Seq (One IAny) (Star false IAny))) T))
    p rest g p' s' g' ->
  (forall p1 s1 g1 p2 s2 g2, matches fl T p1 s1 g1 p2 s2 g2 -> g2 = g1) ->
  exists ws body s3,
    rest = (ws ++ body ++ s3)%string /\ g' = Some body.
Proof.
  intros Hm HT.
  apply matches_seq_inv in Hm as (p2 & s2 & g2 & H2 & Hm).
  apply matches_seq_inv in Hm as (p3 & s3 & g3 & H3 & H4).
  apply matches_star_inv in H2 as (-> & ws & -> & Hws).
  apply matches_group_inv in H3 as (Hg & g0 & H3).
  apply matches_suffix in H3 as Hsuf. destruct Hsuf as [body ->].
  rewrite consumed_app in Hg. apply HT in H4. subst.
  now exists ws, body, s3.
Qed.

End MatcherOrder.

Section StripMore.
Import Py.

Lemma lstrip_empty_spaces s :
  lstrip s = "" -> forall c, In c (list_ascii_of_string s) -> is_space c = true.
Proof.
  induction s as [|x s IH]; simpl; intros H c Hc; [contradiction|].
  destruct (is_space x) eqn:Hx; [|discriminate].
  destruct Hc as [<-|Hc]; [exact Hx | now apply IH].
Qed.

Lemma strip_all_spaces s :
  (forall c, In c (list_ascii_of_string s) -> is_space c = true) -> strip s = "".
Proof. intros H. unfold strip. now rewrite (lstrip_all_spaces s H). Qed.

Lemma in_str_app u v c :
  In c (list_ascii_of_string (u ++ v)) <->
  In c (list_ascii_of_string u) \/ In c (list_ascii_of_string v).
Proof.
  induction u as [|x u IH].
  - rewrite str_app_nil. simpl. tauto.
  - rewrite str_app_cons. simpl. rewrite IH. tauto.
Qed.

End StripMore.

(* ===================================================================== *)
(** ** What the character parser returns *)
(* ===================================================================== *)

Section CharacterParser.
Import Py Re Markers Scan Utils.

Lemma matches_alt_inv fl r1 r2 p s g p' s' g' :
  matches fl (Alt r1 r2) p s g p' s' g' ->
  matches fl r1 p s g p' s' g' \/ matches fl r2 p s g p' s' g'.
Proof. inversion 1; subst; auto. Qed.

Lemma newline_class x :
  chr_match I newline x = true -> Ascii.eqb x newline = true.
Proof.
  apply (ascii_all_impl (chr_match I newline) (fun c => Ascii.eqb c newline)).
  vm_compute. reflexivity.
Qed.

Lemma not_space_not_newline x : is_space x = false -> Ascii.eqb x newline = false.
Proof.
  intros H. destruct (Ascii.eqb x newline) eqn:Hx; [|reflexivity].
  apply Ascii.eqb_eq in Hx. subst. discriminate.
Qed.

(** What may follow the text of a character choice: [(?:\n|REASONING|$)]. *)
Lemma choice_end_sound p s g p' s' g' :
  matches I (Alt (One (IChr newline)) (Alt (lit "REASONING") Eol)) p s g p' s' g' ->
  choice_stop s = true /\ g' = g.
Proof.
  intros H. unfold choice_stop. apply matches_alt_inv in H as [H|H].
  - apply matches_one_inv in H as (x & -> & Hx & _ & ->).
    apply newline_class in Hx. now rewrite Hx.
  - apply matches_alt_inv in H as [H|H].
    + apply lit_matches in H as [Hw ->]; [|reflexivity]. rewrite Hw.
      split; [apply orb_true_r | reflexivity].
    + apply matches_eol_inv in H as (He & _ & _ & ->). split; [|reflexivity].
      destruct s as [|c t]; [reflexivity|]. simpl in He.
      apply andb_true_iff in He as [He _]. now rewrite He.
Qed.

Lemma choice_end_complete p s g :
  choice_stop s = true ->
  exists p' s',
    matches I (Alt (One (IChr newline)) (Alt (lit "REASONING") Eol)) p s g p' s' g.
Proof.
  unfold choice_stop. intros H.
  destruct (after_word "REASONING" s) as [rest|] eqn:Hw.
  - destruct (lit_complete I "REASONING" eq_refl p s g rest Hw) as [p' Hm].
    exists p', rest. apply matches_alt_r, matches_alt_l, Hm.
  - rewrite orb_false_r in H. destruct s as [|c t].
    + exists p, "". apply matches_alt_r, matches_alt_r, matches_eol. reflexivity.
    + apply Ascii.eqb_eq in H. subst c. exists (Some newline), t.
      apply matches_alt_l, matches_one. reflexivity.
Qed.

Lemma choice_end_stop p s g :
  choice_stop s = true ->
  exists e,
    mtch I (Alt (One (IChr newline)) (Alt (lit "REASONING") Eol)) accept p s g = Some e /\
    st_group e = g.
Proof.
  intros H. destruct (choice_end_complete p s g H) as (p' & s' & Hm).
  apply mtch_complete with (k := accept) in Hm as [e He]; [|unfold accept; eauto].
  exists e. split; [exact He|].
  apply mtch_sound in He as (p1 & s1 & g1 & Hm & Hk).
  apply choice_end_sound in Hm as [_ ->]. apply accept_inv in Hk. now subst e.
Qed.

Lemma choice_end_go p s g :
  choice_stop s = false ->
  mtch I (Alt (One (IChr newline)) (Alt (lit "REASONING") Eol)) accept p s g = None.
Proof.
  intros H.
  destruct (mtch I (Alt (One (IChr newline)) (Alt (lit "REASONING") Eol)) accept p s g)
    as [e|] eqn:He; [|reflexivity].
  apply mtch_sound in He as (p1 & s1 & g1 & Hm & _).
  apply choice_end_sound in Hm as [Hs _]. congruence.
Qed.

Lemma choice_stop_any y t :
  choice_stop (String y t) = false -> item_match I IAny y = true.
Proof.
  unfold choice_stop. intros H. apply orb_false_iff in H as [H _].
  simpl. now rewrite H.
Qed.

(** The parts of a match of [\s*(.+?)] and what follows. *)
Lemma text_group_parts fl (T : regex) p rest g p' s' g' :
  matches fl (Seq (Star true space) (Seq (Group (Seq (One IAny) (Star false IAny))) T))
    p rest g p' s' g' ->
  (forall p1 s1 g1 p2 s2 g2, matches fl T p1 s1 g1 p2 s2 g2 -> g2 = g1) ->
  exists ws x body s3,
    rest = (ws ++ String x body ++ s3)%string /\ g' = Some (String x body) /\
    (forall c, In c (list_ascii_of_string ws) -> is_space c = true) /\
    item_match fl IAny x = true.
Proof.
  intros Hm HT.
  apply matches_seq_inv in Hm as (p2 & s2 & g2 & H2 & Hm).
  apply matches_seq_inv in Hm as (p3 & s3 & g3 & H3 & H4).
  apply matches_star_inv in H2 as (-> & ws & -> & Hws).
  apply matches_group_inv in H3 as (Hg & g0 & H3).
  apply matches_suffix in H3 as Hsuf. destruct Hsuf as [body Hb].
  rewrite Hb in Hg. rewrite consumed_app in Hg. apply HT in H4.
  apply matches_seq_inv in H3 as (p4 & s4 & g4 & H3 & H5).
  apply matches_one_inv in H3 as (x & Hx & Hi & _ & _).
  destruct body as [|y body].
  - rewrite str_app_nil in Hb. rewrite Hb in Hx.
    apply matches_suffix in H5 as [u Hu]. exfalso.
    apply (f_equal String.length) in Hx. rewrite Hu in Hx.
    simpl in Hx. rewrite str_length_app in Hx. lia.
  - rewrite Hb, str_app_cons in Hx. injection Hx as <- _.
    exists ws, y, body, s3. rewrite Hb. subst g' g3.
    repeat split; try assumption.
    intros c Hc. eapply space_class, Hws, Hc.
Qed.

(** A match of the character parser's [CHOICE:] pattern from a place. *)
Lemma character_choice_at p t e :
  mtch I character_choice_re accept p t None = Some e ->
  exists a, choice_text_here t = Some a /\
            exists g, st_group e = Some g /\ strip g = a.
Proof.
  intros H. rewrite character_choice_re_eq in H.
  pose proof (lit_eval I "CHOICE:" eq_refl p t) as Hlit.
  unfold choice_text_here.
  change (mtch I (Seq (lit "CHOICE:") ?R) accept p t None)
    with (mtch I (lit "CHOICE:") (mtch I R accept) p t None) in H.
  destruct (after_word "CHOICE:" t) as [rest|];
    [|rewrite (Hlit _ None) in H; discriminate].
  destruct Hlit as [p1 Hlit].
  rewrite Hlit in H.
  pose proof H as Hs. apply mtch_sound in Hs as (p' & s' & g' & Hm & Hk).
  apply accept_inv in Hk.
  apply text_group_parts in Hm as (ws & x & body & s3 & Hrest & Hg & Hws & Hx);
    [|intros p1' s1 g1 p2 s2 g2 HT; now apply choice_end_sound in HT].
  apply any_class in Hx.
  assert (Hn : only_newlines rest = false).
  { rewrite Hrest, str_app_cons. now apply only_newlines_app. }
  rewrite Hn. eexists. split; [reflexivity|].
  exists (String x body). split; [subst e; exact Hg|].
  unfold text_after. destruct (lstrip rest) as [|x' tail] eqn:Hl.
  - apply strip_all_spaces. intros c Hc.
    apply (lstrip_empty_spaces rest Hl). rewrite Hrest.
    apply in_str_app. right. apply in_str_app. now left.
  - pose proof (lstrip_head rest) as Hh. rewrite Hl in Hh.
    destruct (text_group_eval I _ choice_stop
                choice_end_stop choice_end_go choice_stop_any eq_refl
                rest x' tail Hl) with (p := p1) (g := @None string)
      as (e' & He' & Hg').
    { simpl. now rewrite (not_space_not_newline x' Hh). }
    rewrite He' in H. injection H as <-. subst e'. simpl in Hg'.
    rewrite Hg in Hg'. injection Hg' as -> ->. reflexivity.
Qed.

Lemma character_choice_not_at p t :
  mtch I character_choice_re accept p t None = None -> choice_text_here t = None.
Proof.
  intros Hn. destruct (choice_text_here t) as [a|] eqn:Hc; [exfalso|reflexivity].
  unfold choice_text_here in Hc.
  destruct (after_word "CHOICE:" t) as [rest|] eqn:Hw; [|discriminate].
  destruct (only_newlines rest) eqn:Hf; [discriminate|].
  apply only_newlines_split in Hf as (ws & x & tail & -> & Hws & Hx).
  destruct (line_split tail) as (v & rest' & -> & Hv & Hrest).
  destruct (lit_complete I "CHOICE:" eq_refl p t None _ Hw) as [p1 H1].
  destruct Hrest as [->|[t' ->]].
  all: eapply mtch_none_no_match; [exact Hn|]; rewrite character_choice_re_eq;
    (eapply matches_seq; [exact H1|]);
    (eapply matches_seq;
       [apply matches_star_run; intros c0 Hc0; apply space_class_complete; auto|]);
    (eapply matches_seq;
       [eapply matches_group; eapply matches_seq;
          [constructor; simpl; now rewrite Hx
          |apply matches_star_run; intros c0 Hc0; simpl; now rewrite (Hv c0 Hc0)]|]).
  - apply matches_alt_r, matches_alt_r, matches_eol. reflexivity.
  - apply matches_alt_l, matches_one. reflexivity.
Qed.

(** The character the parser gives to a text. *)
Lemma character_scan s :
  (match search I character_choice_re s with
   | Some m => c ← group_strip m; Ok (match_roster c)
   | None => Ok "Alex Chen"
   end) = Ok (scan_character s).
Proof.
  pose proof (search_from_first_of I character_choice_re choice_text_here
                (fun e a => exists g, st_group e = Some g /\ strip g = a)
                character_choice_at character_choice_not_at s None) as H.
  unfold search, scan_character.
  destruct (search_from I character_choice_re None s) as [m|].
  - destruct H as (a & -> & g & Hg & Hs). unfold group_strip, group1.
    rewrite Hg, Hs. reflexivity.
  - now rewrite H.
Qed.

Lemma parse_character_text s :
  s <> "" ->
  parse_character_selection (PyStr s) =
  Ok (scan_character s, scan_reasoning "Selected based on background" s).
Proof.
  intros Hs. unfold parse_character_selection.
  rewrite (truthy_text _ 0 Hs). unfold mbind, result_bind, rbind.
  cbn [negb orb is_str chars_of]. now rewrite character_scan, reasoning_first.
Qed.



(** X6.  A reply in the format the prompt asks for, naming a character of
    the roster, is read back as it was written: the name, and the reasoning
    as it stands when it has no white space at its ends. *)
Theorem character_reply_round_trip (n r : string) :
  In n roster ->
  strip r = r ->
  parse_character_selection
    (PyStr ("CHOICE: " ++ n ++ String newline ("REASONING: " ++ r))) =
  Ok (n, r).
Proof.
  intros Hn Hr. rewrite parse_character_text by discriminate.
  assert (Hf : scan_character ("CHOICE: " ++ n ++ String newline ("REASONING: " ++ r)) = n
               /\ first_of reasoning_here
                    ("CHOICE: " ++ n ++ String newline ("REASONING: " ++ r))
                  = Some (String " " r)).
  { simpl in Hn.
    repeat (destruct Hn as [<-|Hn]; [split; vm_compute; reflexivity|]). contradiction. }
  destruct Hf as [Hc Hf]. unfold scan_reasoning. rewrite Hc, Hf.
  rewrite strip_cons_space by reflexivity. now rewrite Hr.
Qed.

Lemma character_reply_round_trip_witness :
  parse_character_selection
    (PyStr ("CHOICE: " ++ "Jordan Williams"
            ++ String newline ("REASONING: " ++ "She is close to my age."))) =
  Ok ("Jordan Williams", "She is close to my age.").
Proof. apply character_reply_round_trip; vm_compute; [tauto | reflexivity]. Defined.

End CharacterParser.

(* ===================================================================== *)
(** ** What the survey parser returns *)
(* ===================================================================== *)

Section SurveyAnswers.
Import Py Re Markers Scan Utils.

Lemma matches_look_inv fl r p s g p' s' g' :
  matches fl (Look r) p s g p' s' g' ->
  p' = p /\ s' = s /\ g' = g /\ exists p1 s1 g1, matches fl r p s g p1 s1 g1.
Proof. inversion 1; subst; eauto 10. Qed.

Lemma question_re_eq number marker :
  question_re number marker =
  Seq (lit number)
    (Seq (One (IChr "."))
       (Seq (Star false IAny)
          (Seq (lit marker)
             (Seq (Star true space)
                (Seq (Group (Seq (One IAny) (Star false IAny)))
                   (Look (Alt (Seq (One (IChr newline))
                                 (Seq (Seq (One digit) (Star true digit))
                                    (One (IChr "."))))
                              Eol))))))).
Proof. reflexivity. Qed.

Lemma newline_class_s x :
  chr_match I_S newline x = true -> x = newline.
Proof.
  intros H. apply Ascii.eqb_eq.
  revert H. apply (ascii_all_impl (chr_match I_S newline) (fun c => Ascii.eqb c newline)).
  vm_compute. reflexivity.
Qed.

Lemma dot_class x :
  chr_match I_S "." x = true -> x = "."%char.
Proof.
  intros H. apply Ascii.eqb_eq.
  revert H. apply (ascii_all_impl (chr_match I_S ".") (fun c => Ascii.eqb c ".")).
  vm_compute. reflexivity.
Qed.

Lemma skip_digits_run u y s :
  (forall c, In c (list_ascii_of_string u) -> is_digit c = true) ->
  is_digit y = false ->
  skip_digits (u ++ String y s) = String y s.
Proof.
  intros Hu Hy. induction u as [|x u IH].
  - rewrite str_app_nil. simpl. now rewrite Hy.
  - rewrite str_app_cons. simpl. rewrite (Hu x (or_introl eq_refl)).
    apply IH. intros c Hc. apply Hu. now right.
Qed.

Lemma skip_digits_split t :
  exists u, t = (u ++ skip_digits t)%string /\
            forall c, In c (list_ascii_of_string u) -> is_digit c = true.
Proof.
  induction t as [|x t IH]; simpl.
  - exists "". split; [reflexivity | intros c []].
  - destruct (is_digit x) eqn:Hx.
    + destruct IH as (u & Hu & Hd). exists (String x u). split.
      * rewrite str_app_cons. now rewrite <- Hu.
      * intros c [<-|Hc]; auto.
    + exists "". split; [reflexivity | intros c []].
Qed.

(** What must come after an answer of the survey: [(?=\n\d+\.|$)]. *)
Lemma answer_end_sound p s g p' s' g' :
  matches I_S
    (Look (Alt (Seq (One (IChr newline))
                  (Seq (Seq (One digit) (Star true digit)) (One (IChr "."))))
               Eol)) p s g p' s' g' ->
  answer_stop s = true /\ g' = g.
Proof.
  intros H. apply matches_look_inv in H as (_ & _ & -> & p1 & s1 & g1 & H).
  split; [|reflexivity]. unfold answer_stop.
  apply matches_alt_inv in H as [H|H].
  - apply matches_seq_inv in H as (p2 & s2 & g2 & H1 & H).
    apply matches_seq_inv in H as (p3 & s3 & g3 & H2 & H3).
    apply matches_seq_inv in H2 as (p4 & s4 & g4 & H2 & H4).
    apply matches_one_inv in H1 as (x & -> & Hx & _ & _).
    apply matches_one_inv in H2 as (d & -> & Hd & _ & _).
    apply matches_star_inv in H4 as (_ & u & -> & Hu).
    apply matches_one_inv in H3 as (y & -> & Hy & _ & _).
    simpl in Hx, Hy. apply newline_class_s in Hx. apply dot_class in Hy. subst x y.
    apply digit_class in Hd.
    assert (Hn : next_question (String newline (String d (u ++ String "." s1))) = true).
    { unfold next_question. rewrite Hd.
      rewrite skip_digits_run; [reflexivity | | reflexivity].
      intros c Hc. eapply digit_class, Hu, Hc. }
    rewrite Hn. apply orb_true_r.
  - apply matches_eol_inv in H as (He & _).
    destruct s as [|c [|d t]]; simpl in He; [reflexivity | |].
    + rewrite andb_true_r in He. cbn [answer_stop orb]. now rewrite He.
    + now rewrite andb_false_r in He.
Qed.

Lemma answer_end_complete p s g :
  answer_stop s = true ->
  matches I_S
    (Look (Alt (Seq (One (IChr newline))
                  (Seq (Seq (One digit) (Star true digit)) (One (IChr "."))))
               Eol)) p s g p s g.
Proof.
  unfold answer_stop. intros H. apply orb_true_iff in H as [H|H].
  - eapply matches_look. apply matches_alt_r, matches_eol.
    destruct s as [|c [|d t]]; try discriminate; simpl; [reflexivity|].
    now rewrite H.
  - unfold next_question in H. destruct s as [|c [|d t]]; try discriminate.
    apply andb_true_iff in H as [H H3]. apply andb_true_iff in H as [H1 H2].
    apply Ascii.eqb_eq in H1. subst c.
    destruct (skip_digits_split t) as (u & Ht & Hu).
    destruct (skip_digits t) as [|e t'] eqn:Hsk; [discriminate|].
    apply Ascii.eqb_eq in H3. subst e.
    eapply matches_look. apply matches_alt_l.
    eapply matches_seq; [apply matches_one; reflexivity|].
    eapply matches_seq.
    + eapply matches_seq.
      * apply matches_one. simpl. now rewrite H2.
      * rewrite Ht. apply matches_star_run.
        intros c Hc. simpl. now rewrite (Hu c Hc).
    + apply matches_one. reflexivity.
Qed.

Lemma answer_end_stop p s g :
  answer_stop s = true ->
  exists e,
    mtch I_S
      (Look (Alt (Seq (One (IChr newline))
                    (Seq (Seq (One digit) (Star true digit)) (One (IChr "."))))
                 Eol)) accept p s g = Some e /\
    st_group e = g.
Proof.
  intros H. pose proof (answer_end_complete p s g H) as Hm.
  apply mtch_complete with (k := accept) in Hm as [e He]; [|unfold accept; eauto].
  exists e. split; [exact He|].
  apply mtch_sound in He as (p1 & s1 & g1 & Hm & Hk).
  apply answer_end_sound in Hm as [_ ->]. apply accept_inv in Hk. now subst e.
Qed.

Lemma answer_end_go p s g :
  answer_stop s = false ->
  mtch I_S
    (Look (Alt (Seq (One (IChr newline))
                  (Seq (Seq (One digit) (Star true digit)) (One (IChr "."))))
               Eol)) accept p s g = None.
Proof.
  intros H.
  destruct (mtch I_S _ accept p s g) as [e|] eqn:He; [|reflexivity].
  apply mtch_sound in He as (p1 & s1 & g1 & Hm & _).
  apply answer_end_sound in Hm as [Hs _]. congruence.
Qed.

Lemma str_last_split x s :
  exists init last, String x s = (init ++ String last "")%string.
Proof.
  revert x. induction s as [|y s IH]; intros x.
  - now exists "", x.
  - destruct (IH y) as (init & last & H). exists (String x init), last.
    rewrite str_app_cons. now rewrite <- H.
Qed.

(** A match of the marker and the answer after it, from a place. *)
Lemma marker_text_at marker p t e :
  mtch I_S
    (Seq (lit marker)
       (Seq (Star true space)
          (Seq (Group (Seq (One IAny) (Star false IAny)))
             (Look (Alt (Seq (One (IChr newline))
                           (Seq (Seq (One digit) (Star true digit))
                              (One (IChr "."))))
                        Eol))))) accept p t None = Some e ->
  exists a, marker_text_here marker t = Some a /\
            exists g, st_group e = Some g /\ strip g = a.
Proof.
  intros H.
  pose proof (lit_eval I_S marker eq_refl p t) as Hlit.
  unfold marker_text_here.
  change (mtch I_S (Seq (lit marker) ?R) accept p t None)
    with (mtch I_S (lit marker) (mtch I_S R accept) p t None) in H.
  destruct (after_word marker t) as [rest|];
    [|rewrite (Hlit _ None) in H; discriminate].
  destruct Hlit as [p1 Hlit]. rewrite Hlit in H.
  pose proof H as Hs. apply mtch_sound in Hs as (p' & s' & g' & Hm & Hk).
  apply accept_inv in Hk.
  apply text_group_parts in Hm as (ws & x & body & s3 & Hrest & Hg & Hws & Hx);
    [|intros p1' s1 g1 p2 s2 g2 HT; now apply answer_end_sound in HT].
  assert (Hn : String.eqb rest "" = false).
  { rewrite Hrest. destruct ws; reflexivity. }
  rewrite Hn. eexists. split; [reflexivity|].
  exists (String x body). split; [subst e; exact Hg|].
  unfold text_after. destruct (lstrip rest) as [|x' tail] eqn:Hl.
  - apply strip_all_spaces. intros c Hc.
    apply (lstrip_empty_spaces rest Hl). rewrite Hrest.
    apply in_str_app. right. apply in_str_app. now left.
  - destruct (text_group_eval I_S _ answer_stop
                answer_end_stop answer_end_go (fun _ _ _ => eq_refl) eq_refl
                rest x' tail Hl eq_refl p1 None)
      as (e' & He' & Hg').
    rewrite He' in H. injection H as <-. subst e'. simpl in Hg'.
    rewrite Hg in Hg'. injection Hg' as -> ->. reflexivity.
Qed.

Lemma marker_text_not_at marker p t :
  mtch I_S
    (Seq (lit marker)
       (Seq (Star true space)
          (Seq (Group (Seq (One IAny) (Star false IAny)))
             (Look (Alt (Seq (One (IChr newline))
                           (Seq (Seq (One digit) (Star true digit))
                              (One (IChr "."))))
                        Eol))))) accept p t None = None ->
  marker_text_here marker t = None.
Proof.
  intros Hn. destruct (marker_text_here marker t) as [a|] eqn:Hc; [exfalso|reflexivity].
  unfold marker_text_here in Hc.
  destruct (after_word marker t) as [rest|] eqn:Hw; [|discriminate].
  destruct rest as [|x rest]; [discriminate|].
  destruct (str_last_split x rest) as (init & last & Hl).
  destruct (lit_complete I_S marker eq_refl p t None _ Hw) as [p1 H1].
  destruct (lstrip (String x rest)) as [|x' tail] eqn:Hls.
  - pose proof (lstrip_empty_spaces _ Hls) as Hsp. rewrite Hl in H1, Hsp.
    eapply mtch_none_no_match; [exact Hn|].
    eapply matches_seq; [exact H1|].
    eapply matches_seq.
    { apply matches_star_run. intros c0 Hc0. apply space_class_complete, Hsp.
      apply in_str_app. now left. }
    eapply matches_seq.
    { eapply matches_group. eapply matches_seq;
        [apply matches_one; reflexivity | apply matches_star_stop]. }
    apply answer_end_complete. reflexivity.
  - pose proof (lit_eval I_S marker eq_refl p t) as Hlit. rewrite Hw in Hlit.
    destruct Hlit as [p2 Hlit].
    change (mtch I_S (Seq (lit marker) ?R) accept p t None)
      with (mtch I_S (lit marker) (mtch I_S R accept) p t None) in Hn.
    rewrite Hlit in Hn.
    destruct (text_group_eval I_S _ answer_stop
                answer_end_stop answer_end_go (fun _ _ _ => eq_refl) eq_refl
                (String x rest) x' tail Hls eq_refl p2 None)
      as (e' & He' & _).
    congruence.
Qed.

(** A lazy [.*?] that spans lines goes on to the first place from which the
    rest of the pattern matches. *)
Lemma star_lazy_first_of {A} fl (k : cont) (here : string -> option A)
    (V : mstate -> A -> Prop) g :
  DOTALL fl = true ->
  (forall p t e, k p t g = Some e -> exists a, here t = Some a /\ V e a) ->
  (forall p t, k p t g = None -> here t = None) ->
  forall s p,
    match star fl false IAny k p s g with
    | Some e => exists a, first_of here s = Some a /\ V e a
    | None => first_of here s = None
    end.
Proof.
  intros Hd Hs Hn. induction s as [|x s IH]; intros p.
  - simpl. destruct (k p "" g) as [e|] eqn:Hk.
    + destruct (Hs _ _ _ Hk) as (a & Ha & Hv). rewrite Ha. eauto.
    + now rewrite (Hn _ _ Hk).
  - cbn [star item_match first_of]. rewrite Hd. cbn [orb].
    destruct (k p (String x s) g) as [e|] eqn:Hk.
    + destruct (Hs _ _ _ Hk) as (a & Ha & Hv). rewrite Ha. eauto.
    + rewrite (Hn _ _ Hk). apply IH.
Qed.

Lemma after_word_app w1 w2 t :
  after_word (w1 ++ w2) t =
  match after_word w1 t with
  | Some r => after_word w2 r
  | None => None
  end.
Proof.
  revert t. induction w1 as [|c w1 IH]; intros t.
  - reflexivity.
  - rewrite str_app_cons. destruct t as [|x t]; [reflexivity|]. simpl.
    destruct (Ascii.eqb (lower x) (lower c)); [apply IH | reflexivity].
Qed.

(** A match of a question's pattern from a place. *)
Lemma answer_at number marker p t :
  match mtch I_S (question_re number marker) accept p t None with
  | Some e => exists a, answer_here number marker t = Some a /\
                        exists g, st_group e = Some g /\ strip g = a
  | None => answer_here number marker t = None
  end.
Proof.
  rewrite question_re_eq.
  change (mtch I_S (Seq (lit number) (Seq (One (IChr ".")) (Seq (Star false IAny) ?R)))
            accept p t None)
    with (mtch I_S (lit number)
            (mtch I_S (One (IChr ".")) (star I_S false IAny (mtch I_S R accept)))
            p t None).
  unfold answer_here. rewrite after_word_app.
  pose proof (lit_eval I_S number eq_refl p t) as Hlit.
  destruct (after_word number t) as [r0|]; [|now rewrite Hlit].
  destruct Hlit as [p1 Hlit]. rewrite Hlit.
  destruct r0 as [|x rest]; [reflexivity|].
  cbn [mtch item_match]. unfold chr_match. cbn [IGNORECASE I_S].
  change (after_word "." (String x rest))
    with (if Ascii.eqb (lower x) (lower ".") then Some rest else None).
  destruct (Ascii.eqb (lower x) (lower ".")); [|reflexivity].
  apply (star_lazy_first_of I_S _ (marker_text_here marker)
           (fun e a => exists g, st_group e = Some g /\ strip g = a) None eq_refl).
  - intros p0 t0 e. apply marker_text_at.
  - intros p0 t0. apply marker_text_not_at.
Qed.

(** The answer the parser reads for a question. *)
Lemma answer_scan number marker text dflt :
  answer number marker text dflt = Ok (scan_answer number marker dflt text).
Proof.
  pose proof (search_from_first_of I_S (question_re number marker)
                (answer_here number marker)
                (fun e a => exists g, st_group e = Some g /\ strip g = a)) as H.
  unfold answer, search, scan_answer.
  specialize (H (fun p t e He => eq_ind _ (fun o => match o with
                                    | Some e => _ | None => _ end)
                                   (answer_at number marker p t) _ He)
                (fun p t He => eq_ind _ (fun o => match o with
                                    | Some e => _ | None => _ end)
                                   (answer_at number marker p t) _ He)
                text None).
  destruct (search_from I_S (question_re number marker) None text) as [m|].
  - destruct H as (a & -> & g & Hg & Hs). simpl. unfold group_strip, group1.
    now rewrite Hg, Hs.
  - now rewrite H.
Qed.

End SurveyAnswers.

Section SurveyRatings.
Import Py Re Markers Scan Utils.

(** A match of the ratings pattern from a place. *)
Lemma ratings_at p t e :
  mtch I ratings_pattern accept p t None = Some e ->
  exists d ws rest,
    after_word "Rate:" t = Some (ws ++ String d rest)%string /\
    (forall c, In c (list_ascii_of_string ws) -> is_space c = true) /\
    is_digit d = true /\
    e = MState (Some d) rest (Some (String d "")).
Proof.
  intros H. apply mtch_sound in H as (p' & s' & g' & Hm & Hk).
  apply accept_inv in Hk as ->.
  rewrite ratings_pattern_eq in Hm.
  apply matches_seq_inv in Hm as (p1 & s1 & g1 & H1 & Hm).
  apply matches_seq_inv in Hm as (p2 & s2 & g2 & H2 & H3).
  apply lit_matches in H1 as [Hw ->]; [|reflexivity].
  apply matches_star_inv in H2 as (-> & ws & -> & Hws).
  apply matches_group_inv in H3 as (Hg & g0 & H3).
  apply matches_one_inv in H3 as (x & -> & Hx & -> & _).
  rewrite consumed_one in Hg. apply digit_class in Hx.
  exists x, ws, s'. repeat split; try assumption.
  - intros c Hc. eapply space_class, Hws, Hc.
  - now rewrite Hg.
Qed.

Lemma digit_not_space d : is_digit d = true -> is_space d = false.
Proof.
  intros H.
  apply (ascii_all_impl is_digit (fun c => negb (is_space c))) in H.
  - now apply negb_true_iff in H.
  - vm_compute. reflexivity.
Qed.

Lemma rate_here_parts t ws d rest :
  after_word "Rate:" t = Some (ws ++ String d rest)%string ->
  (forall c, In c (list_ascii_of_string ws) -> is_space c = true) ->
  is_digit d = true ->
  rate_here t = Some d.
Proof.
  intros Hw Hws Hd. unfold rate_here. rewrite Hw, (lstrip_spaces ws _ Hws).
  simpl. now rewrite (digit_not_space d Hd), Hd.
Qed.

Lemma ratings_not_at p t :
  mtch I ratings_pattern accept p t None = None -> rate_here t = None.
Proof.
  intros Hn. destruct (rate_here t) as [d|] eqn:Hc; [exfalso|reflexivity].
  unfold rate_here in Hc.
  destruct (after_word "Rate:" t) as [rest|] eqn:Hw; [|discriminate].
  destruct (lstrip rest) as [|x tail] eqn:Hl; [discriminate|].
  destruct (is_digit x) eqn:Hx; [|discriminate].
  destruct (lstrip_split rest) as (ws & Hrest & Hws). rewrite Hl in Hrest. subst rest.
  destruct (lit_complete I "Rate:" eq_refl p t None _ Hw) as [p1 H1].
  eapply mtch_none_no_match; [exact Hn|]. rewrite ratings_pattern_eq.
  eapply matches_seq; [exact H1|].
  eapply matches_seq.
  - apply matches_star_run. intros c0 Hc0. apply space_class_complete, Hws, Hc0.
  - eapply matches_group. apply matches_one. simpl. now rewrite Hx.
Qed.

(** A word read at the start of a text: the letters read are those of the
    word, letter case aside. *)
Lemma after_word_split w :
  forall t rest,
    after_word w t = Some rest ->
    exists u, t = (u ++ rest)%string /\ str_lower u = str_lower w.
Proof.
  induction w as [|c w IH]; intros t rest H.
  - simpl in H. injection H as <-. now exists "".
  - destruct t as [|x t]; [discriminate|]. simpl in H.
    destruct (Ascii.eqb (lower x) (lower c)) eqn:Hx; [|discriminate].
    apply Ascii.eqb_eq in Hx. destruct (IH t rest H) as (u & -> & Hu).
    exists (String x u). split; [reflexivity|]. simpl. now rewrite Hx, Hu.
Qed.

Lemma rate_here_head x t d :
  rate_here (String x t) = Some d -> Ascii.eqb (lower x) "r" = true.
Proof.
  unfold rate_here.
  change (after_word "Rate:" (String x t))
    with (if Ascii.eqb (lower x) (lower "R") then after_word "ate:" t else None).
  change (lower "R") with "r"%char.
  destruct (Ascii.eqb (lower x) "r"); [reflexivity|discriminate].
Qed.

(** No [Rate:] marker starts inside text that has no letter r. *)
Lemma rates_skip u v :
  (forall c, In c (list_ascii_of_string u) -> Ascii.eqb (lower c) "r" = false) ->
  rates (u ++ v) = rates v.
Proof.
  induction u as [|x u IH]; intros H; [reflexivity|].
  rewrite str_app_cons.
  change (rates (String x (u ++ v)))
    with (match rate_here (String x (u ++ v)) with
          | Some d => [d]
          | None => []
          end ++ rates (u ++ v)).
  destruct (rate_here (String x (u ++ v))) as [d|] eqn:Hr.
  - apply rate_here_head in Hr. rewrite (H x (or_introl eq_refl)) in Hr. discriminate.
  - simpl. apply IH. intros c Hc. apply H. now right.
Qed.

Lemma in_str_lower c u :
  In c (list_ascii_of_string u) -> In (lower c) (list_ascii_of_string (str_lower u)).
Proof.
  induction u as [|x u IH]; simpl; [tauto|]. intros [<-|H]; auto.
Qed.

Lemma space_not_r c : is_space c = true -> Ascii.eqb (lower c) "r" = false.
Proof.
  intros H.
  apply (ascii_all_impl is_space (fun x => negb (Ascii.eqb (lower x) "r"))) in H.
  - now apply negb_true_iff in H.
  - vm_compute. reflexivity.
Qed.

Lemma digit_not_r c : is_digit c = true -> Ascii.eqb (lower c) "r" = false.
Proof.
  intros H.
  apply (ascii_all_impl is_digit (fun x => negb (Ascii.eqb (lower x) "r"))) in H.
  - now apply negb_true_iff in H.
  - vm_compute. reflexivity.
Qed.

(** The marker and the digit of one rating hold no other rating. *)
Lemma rates_hit t ws d rest :
  after_word "Rate:" t = Some (ws ++ String d rest)%string ->
  (forall c, In c (list_ascii_of_string ws) -> is_space c = true) ->
  is_digit d = true ->
  rates t = d :: rates rest.
Proof.
  intros Hw Hws Hd. pose proof (rate_here_parts t ws d rest Hw Hws Hd) as Hr.
  apply after_word_split in Hw as (u & -> & Hu).
  destruct u as [|x u]; [discriminate|].
  simpl in Hu. injection Hu as _ Hu.
  rewrite str_app_cons in Hr |- *.
  change (rates (String x (u ++ ws ++ String d rest)))
    with (match rate_here (String x (u ++ ws ++ String d rest)) with
          | Some d => [d]
          | None => []
          end ++ rates (u ++ ws ++ String d rest)).
  rewrite Hr. simpl. f_equal.
  rewrite rates_skip.
  2:{ intros c Hc. apply in_str_lower in Hc. rewrite Hu in Hc. simpl in Hc.
      destruct Hc as [<-|[<-|[<-|[<-|[]]]]]; reflexivity. }
  rewrite rates_skip by (intros c Hc; now apply space_not_r, Hws).
  apply (rates_skip (String d "") rest).
  intros c [<-|[]]. now apply digit_not_r.
Qed.

(** The scan for ratings finds the first digit after a marker, and what is
    left holds the ratings that remain. *)
Lemma search_rates s :
  forall p,
    match search_from I ratings_pattern p s with
    | Some m =>
        exists d rest,
          rates s = d :: rates rest /\
          m_end m = MState (Some d) rest (Some (String d "")) /\
          String.length rest < String.length (m_start m) /\
          String.length (m_start m) <= String.length s
    | None => rates s = []
    end.
Proof.
  induction s as [|x s IH]; intros p.
  - simpl search_from. destruct (mtch I ratings_pattern accept p "" None) as [e|] eqn:Hm.
    + apply ratings_at in Hm as (d & ws & rest & Hw & _). discriminate.
    + reflexivity.
  - change (search_from I ratings_pattern p (String x s))
      with (match mtch I ratings_pattern accept p (String x s) None with
            | Some e => Some (ReMatch (String x s) e)
            | None => search_from I ratings_pattern (Some x) s
            end).
    destruct (mtch I ratings_pattern accept p (String x s) None) as [e|] eqn:Hm.
    + apply ratings_at in Hm as (d & ws & rest & Hw & Hws & Hd & ->).
      exists d, rest. split; [now apply (rates_hit _ ws)|].
      split; [reflexivity|]. cbn [m_start]. split; [|lia].
      apply after_word_split in Hw as (u & Hu & _). rewrite Hu.
      rewrite !str_length_app. simpl. lia.
    + apply ratings_not_at in Hm.
      change (rates (String x s))
        with (match rate_here (String x s) with
              | Some d => [d]
              | None => []
              end ++ rates s).
      rewrite Hm. simpl. specialize (IH (Some x)).
      destruct (search_from I ratings_pattern (Some x) s) as [m|]; [|exact IH].
      destruct IH as (d & rest & H1 & H2 & H3 & H4).
      exists d, rest. repeat split; try assumption. simpl. lia.
Qed.

Lemma findall_rates fuel :
  forall s p,
    String.length s < fuel ->
    findall_from fuel I ratings_pattern p s = map (fun d => String d "") (rates s).
Proof.
  induction fuel as [|fuel IH]; intros s p Hlen; [lia|].
  cbn [findall_from]. pose proof (search_rates s p) as H.
  destruct (search_from I ratings_pattern p s) as [m|].
  - destruct H as (d & rest & H1 & H2 & H3 & H4). rewrite H2. cbn [st_group st_rest st_prev].
    apply Nat.ltb_lt in H3 as H3'. rewrite H3'. rewrite H1. cbn [map]. f_equal.
    apply IH. lia.
  - now rewrite H.
Qed.

(** [re.findall] gives the digits after the markers, in order. *)
Lemma findall_ratings_scan s :
  findall I ratings_pattern s = map (fun d => String d "") (rates s).
Proof. unfold findall. apply findall_rates. lia. Qed.

Lemma rate_here_digit t d : rate_here t = Some d -> is_digit d = true.
Proof.
  unfold rate_here. destruct (after_word "Rate:" t); [|discriminate].
  destruct (lstrip s) as [|x r]; [discriminate|].
  destruct (is_digit x) eqn:Hx; [|discriminate]. now intros [= <-].
Qed.

Lemma rates_digits s : Forall (fun d => is_digit d = true) (rates s).
Proof.
  induction s as [|x s IH].
  - vm_compute. constructor.
  - change (rates (String x s))
      with (match rate_here (String x s) with
            | Some d => [d]
            | None => []
            end ++ rates s).
    destruct (rate_here (String x s)) eqn:H; [|exact IH].
    apply rate_here_digit in H. constructor; assumption.
Qed.

Lemma int_digit_value d : is_digit d = true -> int (String d "") = Ok (digit_value d).
Proof.
  intros H.
  apply (ascii_all_impl is_digit
           (fun c => match int (String c "") with
                     | Ok v => Z.eqb v (digit_value c)
                     | Err _ => false
                     end)) in H.
  - destruct (int (String d "")) as [v|]; [|discriminate].
    apply Z.eqb_eq in H. now subst.
  - vm_compute. reflexivity.
Qed.

Lemma rating_at_rates l i d :
  nth_error l i = Some d -> is_digit d = true ->
  rating_at (map (fun d => String d "") l) i = Ok (digit_value d).
Proof.
  intros Hn Hd. unfold rating_at, index.
  rewrite nth_error_map, Hn. simpl. now apply int_digit_value.
Qed.

(** The five ratings the parser reads. *)
Lemma read_ratings_scan s fb :
  realistic fb = 3%Z -> felt_safe fb = 3%Z -> helpful_feedback fb = 3%Z ->
  would_recommend fb = 3%Z -> confidence fb = 3%Z ->
  read_ratings (findall I ratings_pattern s) fb = Ok (scan_ratings s).
Proof.
  intros F1 F2 F3 F4 F5. rewrite findall_ratings_scan. unfold read_ratings, scan_ratings.
  rewrite length_map. pose proof (rates_digits s) as Hd.
  destruct (rates s) as [|d0 [|d1 [|d2 [|d3 [|d4 l]]]]];
    try (cbn [length Nat.leb]; now rewrite F1, F2, F3, F4, F5).
  cbn [length Nat.leb].
  repeat match goal with H : Forall _ (_ :: _) |- _ => inversion H; subst; clear H end.
  rewrite (rating_at_rates _ 0 d0), (rating_at_rates _ 1 d1), (rating_at_rates _ 2 d2),
    (rating_at_rates _ 3 d3), (rating_at_rates _ 4 d4) by (assumption || reflexivity).
  reflexivity.
Qed.

Lemma parse_feedback_scan s :
  s <> "" -> parse_feedback_response (PyStr s) = Ok (scan_feedback s).
Proof.
  intros Hs. unfold parse_feedback_response, raw_text.
  rewrite (truthy_text _ 0 Hs), (truthy_text _ 1 Hs).
  unfold mbind, result_bind, rbind. cbn [negb is_str orb chars_of str_of].
  rewrite read_ratings_scan by reflexivity.
  unfold scan_feedback. destruct (scan_ratings s) as [[[[r0 r1] r2] r3] r4].
  rewrite !answer_scan. cbn [default_feedback realistic_explain felt_safe_explain
    helpful_feedback_explain would_recommend_explain confidence_explain
    most_valuable_scenario likely_strategy what_worked improvements
    cultural_relevance raw_response]. reflexivity.
Qed.

End SurveyRatings.



(* ===================================================================== *)
(** ** The agent's words and the steps of a decision *)
(* ===================================================================== *)

Section TalkText.
Import Py Sim Talk.

Lemma join_nonempty sep x l :
  x <> "" -> join sep (x :: l) <> "".
Proof.
  intros Hx. destruct x as [|c x]; [contradiction|].
  destruct l; simpl; discriminate.
Qed.

Lemma join_app_nonempty sep (a b : list string) :
  Forall (fun x => x <> "") a -> Forall (fun x => x <> "") b ->
  join sep (a ++ b) =
  if String.eqb (join sep a) "" then join sep b
  else if String.eqb (join sep b) "" then join sep a
       else (join sep a ++ sep ++ join sep b)%string.
Proof.
  intros Ha Hb. induction a as [|x a IH].
  - reflexivity.
  - inversion Ha as [|? ? Hx Ha']; subst.
    pose proof (join_nonempty sep x a Hx) as Hne.
    apply String.eqb_neq in Hne. rewrite Hne.
    destruct a as [|y a].
    + cbn [app].
      destruct b as [|z b]; [reflexivity|].
      inversion Hb as [|? ? Hz _]; subst.
      pose proof (join_nonempty sep z b Hz) as Hnb. apply String.eqb_neq in Hnb.
      rewrite Hnb. reflexivity.
    + specialize (IH Ha').
      inversion Ha' as [|? ? Hy _]; subst.
      pose proof (join_nonempty sep y a Hy) as Hny. apply String.eqb_neq in Hny.
      rewrite Hny in IH.
      change (join sep ((x :: y :: a) ++ b))
        with (x ++ sep ++ join sep ((y :: a) ++ b))%string.
      change (join sep (x :: y :: a)) with (x ++ sep ++ join sep (y :: a))%string.
      rewrite IH. destruct (String.eqb (join sep b) ""); [reflexivity|].
      now rewrite !str_app_assoc.
Qed.

Ltac unbind := unfold mbind, result_bind, rbind.

(** One turn of the loop: nothing is appended, or the turn raises, or one
    content that counts as true is appended. *)
Lemma talk_of_cases (a : action) :
  (wordless a = true /\ talk_of a = Ok []) \/
  (wordless a = false /\
   ((exists e, talk_of a = Err e) \/
    (exists c, talk_of a = Ok [c] /\ truth c = true))).
Proof.
  destruct a as [| | | | | |d]; try (left; split; reflexivity).
  unfold talk_of, wordless, get. unbind.
  destruct (dict_get "action" d) as [inner|]; [|left; split; reflexivity].
  destruct inner as [| | | | | |inner]; try (right; split; [reflexivity | left; eauto]).
  destruct (is_text "TALK" _); cbn [negb orb]; [|left; split; reflexivity].
  destruct (truth _) eqn:Ht; cbn [negb]; [|left; split; reflexivity].
  right. split; [reflexivity|]. right. eauto.
Qed.

Lemma talk_texts_true (actions : list action) l :
  talk_texts actions = Ok l -> Forall (fun c => truth c = true) l.
Proof.
  revert l. induction actions as [|a rest IH]; intros l H; simpl in H.
  - injection H as <-. constructor.
  - unbind. destruct (talk_of_cases a) as [(_ & Ha)|(_ & [(e & Ha)|(c & Ha & Hc)])];
      rewrite Ha in H; try discriminate;
      destruct (talk_texts rest) as [r|]; try discriminate;
      injection H as <-; simpl; auto.
Qed.

Lemma talk_texts_none (actions : list action) :
  talk_texts actions = Ok [] <-> forallb wordless actions = true.
Proof.
  induction actions as [|a rest IH]; simpl; [tauto|]. unbind.
  destruct (talk_of_cases a) as [(Hw & Ha)|(Hw & [(e & Ha)|(c & Ha & Hc)])];
    rewrite Ha, Hw; cbn [andb].
  - rewrite <- IH. destruct (talk_texts rest) as [[|x r]|]; simpl; split; congruence.
  - split; discriminate.
  - destruct (talk_texts rest); split; discriminate.
Qed.

Lemma talk_texts_app (l1 l2 : list action) :
  talk_texts (l1 ++ l2) = (a ← talk_texts l1; b ← talk_texts l2; Ok (a ++ b)).
Proof.
  induction l1 as [|x l1 IH]; simpl; unbind.
  - now destruct (talk_texts l2).
  - destruct (talk_of x) as [t|]; [|reflexivity]. rewrite IH. unbind.
    destruct (talk_texts l1) as [a|]; [|reflexivity].
    destruct (talk_texts l2) as [b|]; [|reflexivity]. now rewrite app_assoc.
Qed.

(** [join] takes a list of strings, whatever its place in a longer list. *)
Lemma str_items_ok i l items :
  str_items i l = Ok items -> l = map VStr items /\ forall j, str_items j l = Ok items.
Proof.
  revert i items. induction l as [|v l IH]; intros i items H; simpl in H.
  - injection H as <-. split; reflexivity.
  - destruct v; try discriminate. unbind.
    destruct (str_items (S i) l) as [t|] eqn:Ht; [|discriminate].
    injection H as <-. destruct (IH _ _ Ht) as [-> Hj]. split; [reflexivity|].
    intros j. simpl. unbind. now rewrite Hj.
Qed.

Lemma str_items_map i items : str_items i (map VStr items) = Ok items.
Proof.
  revert i. induction items as [|s items IH]; intros i; simpl; [reflexivity|].
  unbind. now rewrite IH.
Qed.

Lemma str_items_app_ok i a b items :
  str_items i (a ++ b) = Ok items ->
  exists x y, str_items 0 a = Ok x /\ str_items 0 b = Ok y /\ items = x ++ y.
Proof.
  intros H. apply str_items_ok in H as [H _].
  assert (Hsplit : exists x y, items = x ++ y /\ a = map VStr x /\ b = map VStr y).
  { revert items H. induction a as [|v a IH]; intros items H.
    - exists [], items. auto.
    - destruct items as [|s items]; [discriminate|]. simpl in H.
      injection H as -> H. destruct (IH _ H) as (x & y & -> & -> & ->).
      now exists (s :: x), y. }
  destruct Hsplit as (x & y & -> & -> & ->).
  exists x, y. rewrite !str_items_map. auto.
Qed.

Lemma true_items_nonempty items :
  Forall (fun c => truth c = true) (map VStr items) -> Forall (fun x => x <> "") items.
Proof.
  induction items as [|s items IH]; intros H; [constructor|].
  inversion H as [|? ? Hs Hr]; subst. constructor; [|auto].
  simpl in Hs. apply negb_true_iff in Hs. now apply String.eqb_neq.
Qed.

Lemma extract_unfold (actions : list action) :
  _extract_talk_text actions
  = (texts ← talk_texts actions; items ← str_items 0 texts; Ok (join " " items)).
Proof. destruct actions; reflexivity. Qed.

(** What it is for the extraction to return. *)
Lemma extract_ok (actions : list action) t :
  _extract_talk_text actions = Ok t <->
  exists items,
    talk_texts actions = Ok (map VStr items) /\
    Forall (fun x => x <> "") items /\ t = join " " items.
Proof.
  rewrite extract_unfold. unbind. split.
  - destruct (talk_texts actions) as [texts|] eqn:Ht; [|discriminate].
    destruct (str_items 0 texts) as [items|] eqn:Hi; [|discriminate].
    intros [= <-]. apply str_items_ok in Hi as [-> _].
    exists items. split; [reflexivity|]. split; [|reflexivity].
    apply true_items_nonempty. eapply talk_texts_true, Ht.
  - intros (items & -> & _ & ->). now rewrite str_items_map.
Qed.

Lemma map_VStr_app_inv a b items :
  a ++ b = map VStr items ->
  exists x y, a = map VStr x /\ b = map VStr y /\ items = x ++ y.
Proof.
  revert items. induction a as [|v a IH]; intros items H.
  - exists [], items. auto.
  - destruct items as [|s items]; [discriminate|]. simpl in H.
    injection H as -> H. destruct (IH _ H) as (x & y & -> & -> & ->).
    now exists (s :: x), y.
Qed.

(** Two replies on which the extraction raises: an [action] entry that is
    no dictionary, and a TALK whose content is a number. *)
Lemma talk_text_raises :
  _extract_talk_text [VDict [("action", VNone)]]
    = Err (Exn AttributeError "'NoneType' object has no attribute 'get'") /\
  _extract_talk_text
    [ActionDict "TALK" "hi";
     VDict [("action", VDict [("type", VStr "TALK"); ("content", VInt 7)])]]
    = Err (Exn TypeError "sequence item 1: expected str instance, int found").
Proof. split; reflexivity. Qed.

(** X7.  The text taken from two lists of actions in a row, when it is
    taken from each, is the text of the first and the text of the second
    with one space between, and a list that gives no text leaves the other
    text as it is; and text is taken from the two in a row only if it is
    taken from each. *)
Theorem talk_text_of_app (l1 l2 : list action) :
  (forall t1 t2,
     _extract_talk_text l1 = Ok t1 -> _extract_talk_text l2 = Ok t2 ->
     _extract_talk_text (l1 ++ l2) = Ok (side_by_side t1 t2)) /\
  (forall t,
     _extract_talk_text (l1 ++ l2) = Ok t ->
     exists t1 t2,
       _extract_talk_text l1 = Ok t1 /\ _extract_talk_text l2 = Ok t2 /\
       t = side_by_side t1 t2).
Proof.
  split.
  - intros t1 t2 H1 H2.
    apply extract_ok in H1 as (x & Hx & Nx & ->).
    apply extract_ok in H2 as (y & Hy & Ny & ->).
    apply extract_ok. exists (x ++ y). split.
    { rewrite talk_texts_app, Hx, Hy. unbind. now rewrite map_app. }
    split; [now apply Forall_app|]. unfold side_by_side.
    symmetry. now apply join_app_nonempty.
  - intros t H. apply extract_ok in H as (items & Ht & Hn & ->).
    rewrite talk_texts_app in Ht. unbind.
    destruct (talk_texts l1) as [a|] eqn:Ha; [|discriminate].
    destruct (talk_texts l2) as [b|] eqn:Hb; [|discriminate].
    injection Ht as Ht. apply map_VStr_app_inv in Ht as (x & y & -> & -> & ->).
    apply Forall_app in Hn as [Nx Ny].
    exists (join " " x), (join " " y).
    split; [apply extract_ok; eauto|]. split; [apply extract_ok; eauto|].
    unfold side_by_side. now apply join_app_nonempty.
Qed.

Lemma talk_text_of_app_witness :
  _extract_talk_text [ActionDict "TALK" "CHOICE: B"] = Ok "CHOICE: B" /\
  _extract_talk_text [VNone; ActionDict "THINK" "hm"; ActionDict "TALK" "REASONING: it is safe"]
    = Ok "REASONING: it is safe" /\
  _extract_talk_text
    ([ActionDict "TALK" "CHOICE: B"]
     ++ [VNone; ActionDict "THINK" "hm"; ActionDict "TALK" "REASONING: it is safe"])
    = Ok "CHOICE: B REASONING: it is safe".
Proof.
  split; [reflexivity|]. split; [reflexivity|].
  apply (proj1 (talk_text_of_app
                  [ActionDict "TALK" "CHOICE: B"]
                  [VNone; ActionDict "THINK" "hm";
                   ActionDict "TALK" "REASONING: it is safe"])
               "CHOICE: B" "REASONING: it is safe"); reflexivity.
Defined.

(** X8.  The empty string is returned exactly when every action is
    without words: for each action that is a dictionary, its [action] entry
    is absent, or it is a dictionary that is no TALK or has no content that
    counts as true.  On other lists a text that is not empty is returned, or
    an exception is raised. *)
Theorem talk_text_empty_iff (actions : list action) :
  _extract_talk_text actions = Ok "" <-> forallb wordless actions = true.
Proof.
  rewrite <- talk_texts_none. split.
  - intros H. apply extract_ok in H as (items & Ht & Hn & Hj).
    destruct items as [|x items]; [exact Ht|].
    exfalso. inversion Hn; subst. eapply join_nonempty; eauto.
  - intros H. apply extract_ok. exists []. auto.
Qed.

End TalkText.

Section DecisionSteps.
Import Py Sim Tally.

Lemma resolve_decision_cases sim dp parsed st d st' :
  resolve_decision sim dp parsed st = (Ok d, st') ->
  exists label reason o,
    option_get label (dp_options dp) = Some o /\
    d = DecisionRecord (dp_id dp) label (opt_text o) reason (opt_feedback o) /\
    calls st' = calls st /\ journey st' = journey st /\
    scenario_result st' = scenario_result st /\
    ((label = fst parsed /\ reason = snd parsed /\ draws st' = draws st) \/
     (has_key (fst parsed) (dp_options dp) = false /\
      nth_error (keys (dp_options dp))
        (rand sim (draws st) mod length (keys (dp_options dp))) = Some label /\
      reason = "Default choice due to parsing error" /\
      draws st' = S (draws st))).
Proof.
  unfold resolve_decision. intros H.
  destruct (has_key (fst parsed) (dp_options dp)) eqn:Hk; cbn [negb] in H.
  - unfold mbind, M_bind, bind, mret, M_ret, ret, lift, option_item in H.
    destruct (option_get (fst parsed) (dp_options dp)) as [o|] eqn:Ho; [|discriminate].
    injection H as <- <-. exists (fst parsed), (snd parsed), o. repeat split; auto.
  - destruct (keys (dp_options dp)) as [|k ks] eqn:Hkeys.
    + unfold mbind, M_bind, bind, random_choice, raise in H. discriminate.
    + destruct (random_choice_some sim (k :: ks) st) as (c & Hc & Hn); [discriminate|].
      unfold mbind, M_bind, bind in H. rewrite Hc in H.
      unfold mret, M_ret, ret, lift, option_item in H. cbn [fst snd] in H.
      destruct (option_get c (dp_options dp)) as [o|] eqn:Ho; [|discriminate].
      injection H as <- <-.
      exists c, "Default choice due to parsing error", o. repeat split; auto.
Qed.

(** X9.  The record of a decision agrees with the option it names: the
    identifier is the decision point's, the label is a key of its options,
    and the text and the feedback are those of that option.  Making it
    takes one call of the agent and at most one draw from the generator,
    the draw being made exactly when the parsed label is no key. *)
Theorem decision_record_consistent sim p dp st d st' :
  simulate_decision_point sim p dp st = (Ok d, st') ->
  decision_id d = dp_id dp /\
  (exists o, option_get (choice d) (dp_options dp) = Some o /\
             choice_text d = opt_text o /\ feedback_received d = opt_feedback o) /\
  calls st' = S (calls st) /\
  journey st' = journey st /\
  (draws st' = draws st \/
   (draws st' = S (draws st) /\
    reasoning d = "Default choice due to parsing error")).
Proof.
  unfold simulate_decision_point. intros H.
  apply bind_inv in H as [(acts & st1 & H1 & H)|(e & _ & He)]; [|discriminate].
  unfold listen_and_act in H1.
  destruct (replies p (calls st)) as [acts'|]; [|discriminate].
  injection H1 as -> <-.
  apply bind_inv in H as [(response & st2 & H2 & H)|(e & _ & He)]; [|discriminate].
  unfold lift in H2. injection H2 as _ <-.
  apply bind_inv in H as [(parsed & st3 & H3 & H)|(e & _ & He)]; [|discriminate].
  unfold lift in H3. injection H3 as _ <-.
  apply resolve_decision_cases in H
    as (label & reason & o & Ho & -> & Hc & Hj & _ & Hd).
  cbn [decision_id choice choice_text feedback_received reasoning].
  cbn [calls journey draws] in *. repeat split; auto.
  - exists o. auto.
  - destruct Hd as [(_ & _ & Hd)|(_ & _ & -> & Hd)]; auto.
Qed.

Lemma decision_record_consistent_witness :
  let dp := DecisionPoint "d1" "What do you do?"
              [("A", ChoiceOption "Step in" ["direct_intervention"] "Good");
               ("B", ChoiceOption "Walk away" [] "Hm")] in
  let sim := Simulator [] (fun n => n) message in
  let p := Persona "P" "" "" (fun _ => Ok [ActionDict "TALK" "CHOICE: B"]) in
  let st := start p 0 in
  let d := DecisionRecord "d1" "B" "Walk away" "Default reasoning" "Hm" in
  let st' := JState 0 1 (new_journey p) None in
  decision_id d = dp_id dp /\
  (exists o, option_get (choice d) (dp_options dp) = Some o /\
             choice_text d = opt_text o /\ feedback_received d = opt_feedback o) /\
  calls st' = S (calls st) /\
  journey st' = journey st /\
  (draws st' = draws st \/
   (draws st' = S (draws st) /\
    reasoning d = "Default choice due to parsing error")).
Proof.
  intros dp sim p st d st'.
  apply (decision_record_consistent sim p dp st d st'). vm_compute. reflexivity.
Defined.

Lemma silent_decision sim p dp st acts o :
  replies p (calls st) = Ok acts ->
  _extract_talk_text acts = Ok "" ->
  option_get "A" (dp_options dp) = Some o ->
  simulate_decision_point sim p dp st =
  (Ok (DecisionRecord (dp_id dp) "A" (opt_text o)
         "Default choice due to invalid response" (opt_feedback o)),
   JState (draws st) (S (calls st)) (journey st) (scenario_result st)).
Proof.
  intros Hr Ht Ho.
  unfold simulate_decision_point, mbind, M_bind, bind, listen_and_act.
  rewrite Hr, Ht. unfold lift.
  change (Utils.parse_decision_response (PyStr ""))
    with (@Ok (string * string) ("A", "Default choice due to invalid response")).
  unfold resolve_decision, has_key. cbn [fst snd]. rewrite Ho. cbn [negb].
  unfold mbind, M_bind, bind, mret, M_ret, ret, lift, option_item. cbn [fst snd].
  rewrite Ho. reflexivity.
Qed.

(** X10.  An agent that says nothing chooses A: when the empty text is taken
    from the reply and the decision point has an option A, the record is
    that of A with the reasoning of an invalid reply, and no draw is
    made. *)
Theorem silent_agent_chooses_A sim p dp st acts o :
  replies p (calls st) = Ok acts ->
  _extract_talk_text acts = Ok "" ->
  option_get "A" (dp_options dp) = Some o ->
  simulate_decision_point sim p dp st =
  (Ok (DecisionRecord (dp_id dp) "A" (opt_text o)
         "Default choice due to invalid response" (opt_feedback o)),
   JState (draws st) (S (calls st)) (journey st) (scenario_result st)).
Proof. apply silent_decision. Qed.

Lemma silent_agent_chooses_A_witness :
  let dp := DecisionPoint "d1" "What do you do?"
              [("B", ChoiceOption "Walk away" [] "Hm");
               ("A", ChoiceOption "Step in" ["direct_intervention"] "Good")] in
  let sim := Simulator [] (fun n => n) message in
  let p := Persona "P" "" "" (fun _ => Ok [ActionDict "THINK" "CHOICE: B"; VStr "noise"]) in
  simulate_decision_point sim p dp (start p 3) =
  (Ok (DecisionRecord "d1" "A" "Step in"
         "Default choice due to invalid response" "Good"),
   JState 3 1 (new_journey p) None).
Proof.
  intros dp sim p.
  apply (silent_agent_chooses_A sim p dp (start p 3)
           [ActionDict "THINK" "CHOICE: B"; VStr "noise"]
           (ChoiceOption "Step in" ["direct_intervention"] "Good"));
    reflexivity.
Defined.

(** X11.  When the first call of the agent raises, the journey is recorded as
    an error with the message of the exception and its traceback, no
    character, no scenario, no feedback and every skill at zero, and the
    generator is not touched. *)
Theorem agent_failure_at_start sim p d e :
  replies p 0 = Err e ->
  simulate_full_journey sim p d =
  (JourneyRecord (name p) (nationality p ++ " - " ++ professional_interests p)
     None [] (list_to_map (map (fun skill => (skill, 0%Z)) Config.SKILLS))
     None "error" (Some (message e)) (Some (format_exc sim e)), d).
Proof.
  intros H. unfold simulate_full_journey, journey_body, simulate_character_selection.
  unfold mbind, M_bind, bind, listen_and_act, start. cbn [calls]. rewrite H.
  reflexivity.
Qed.

Lemma agent_failure_at_start_witness :
  simulate_full_journey (Simulator [] (fun n => n) message)
    (Persona "P" "NG" "law" (fun _ => Err (Exn RuntimeError "rate limit"))) 7 =
  (JourneyRecord "P" ("NG" ++ " - " ++ "law")
     None [] (list_to_map (map (fun skill => (skill, 0%Z)) Config.SKILLS))
     None "error" (Some "rate limit") (Some "rate limit"), 7).
Proof.
  apply (agent_failure_at_start (Simulator [] (fun n => n) message)
           (Persona "P" "NG" "law" (fun _ => Err (Exn RuntimeError "rate limit"))) 7
           (Exn RuntimeError "rate limit")).
  reflexivity.
Defined.

(** X12.  A tag that is no key of the skills stops the skill loop with a
    KeyError whose text is the [repr] of the tag; the tags before it have
    been counted, the tags after it have not. *)
Theorem unknown_skill_stops_loop pre tag post :
  forall st,
    Forall (fun t => final_skills (journey st) !! t <> None) pre ->
    final_skills (journey st) !! tag = None ->
    exists st',
      for_each (pre ++ tag :: post) earn st = (Err (Exn KeyError (repr tag)), st') /\
      forall k, final_skills (journey st') !! k
                = (fun n => (n + Z.of_nat (occurrences k pre))%Z)
                    <$> final_skills (journey st) !! k.
Proof.
  induction pre as [|t pre IH]; intros st Hpre Htag.
  - cbn [app for_each]. unfold mbind, M_bind, bind, earn. rewrite Htag.
    exists st. split; [reflexivity|]. intros k. cbn [occurrences List.filter length].
    destruct (final_skills (journey st) !! k); cbn; [f_equal; lia | reflexivity].
  - inversion Hpre as [|? ? Ht Hpre']; subst.
    destruct (final_skills (journey st) !! t) as [n|] eqn:Hn; [|contradiction].
    cbn [app for_each]. unfold mbind, M_bind, bind.
    unfold earn at 1. rewrite Hn.
    match goal with |- context [for_each _ earn ?s] => set (st1 := s) end.
    assert (Hsk : final_skills (journey st1) = <[t := (n + 1)%Z]> (final_skills (journey st)))
      by reflexivity.
    destruct (IH st1) as (st' & Hrun & Hacc).
    + rewrite Hsk. eapply List.Forall_impl; [|exact Hpre']. intros a Ha.
      destruct (String.eqb_spec t a) as [->|Hne].
      * rewrite lookup_insert_eq. discriminate.
      * now rewrite lookup_insert_ne.
    + rewrite Hsk. destruct (String.eqb_spec t tag) as [->|Hne]; [congruence|].
      now rewrite lookup_insert_ne.
    + exists st'. split.
      * unfold mbind, M_bind, bind in Hrun |- *. rewrite Hrun. reflexivity.
      * intros k. rewrite Hacc, Hsk.
        destruct (String.eqb_spec t k) as [->|Hne].
        -- rewrite lookup_insert_eq, Hn, occurrences_cons_eq. cbn. f_equal. lia.
        -- rewrite lookup_insert_ne by exact Hne.
           now rewrite (occurrences_cons_ne k t pre Hne).
Qed.

Lemma unknown_skill_stops_loop_witness :
  let st := start (Persona "P" "" "" (fun _ => Ok [])) 0 in
  exists st',
    for_each (["distraction"; "distraction"] ++ "empathy" :: ["know_resources"]) earn st
      = (Err (Exn KeyError (repr "empathy")), st') /\
    forall k, final_skills (journey st') !! k
              = (fun n => (n + Z.of_nat (occurrences k ["distraction"; "distraction"]))%Z)
                  <$> final_skills (journey st) !! k.
Proof.
  intros st. apply (unknown_skill_stops_loop ["distraction"; "distraction"] "empathy"
                      ["know_resources"] st).
  - repeat constructor; vm_compute; discriminate.
  - vm_compute. reflexivity.
Defined.

End DecisionSteps.

(* ===================================================================== *)
(** ** The skills a scenario lists as earned *)
(* ===================================================================== *)

Section EarnedSkills.
Import Py Sim Tally.

Lemma existsb_eqb_In (t : string) l : existsb (String.eqb t) l = true <-> In t l.
Proof.
  rewrite existsb_exists. split.
  - intros (x & Hx & He). apply String.eqb_eq in He. now subst.
  - intros H. exists t. split; [exact H | apply String.eqb_refl].
Qed.

Lemma note_earned_spec skill r :
  decisions (note_earned skill r) = decisions r /\
  (List.NoDup (skills_earned r) -> List.NoDup (skills_earned (note_earned skill r))) /\
  (forall t, In t (skills_earned (note_earned skill r)) <->
             In t (skills_earned r) \/ t = skill).
Proof.
  unfold note_earned. destruct (existsb (String.eqb skill) (skills_earned r)) eqn:He.
  - apply existsb_eqb_In in He. split; [reflexivity|]. split; [auto|].
    intros t. split; [now left|]. intros [H| ->]; assumption.
  - assert (Hn : ~ In skill (skills_earned r)).
    { intros H. apply existsb_eqb_In in H. congruence. }
    cbn [decisions skills_earned]. split; [reflexivity|]. split; [|intros t; split].
    + intros Hd. apply List.NoDup_app; [exact Hd | repeat constructor; intros [] |].
      intros x Hx [<-|[]]. contradiction.
    + intros H. apply in_app_or in H as [H|[<-|[]]]; auto.
    + intros [H| ->]; apply in_or_app; [now left | right; now left].
Qed.

(** The loop over the tags of a chosen option, when it ends normally, adds
    each tag to the earned skills of the scenario in progress once. *)
Lemma earn_all_earned tags :
  forall st st' cur,
    for_each tags earn st = (Ok tt, st') ->
    scenario_result st = Some cur ->
    exists cur',
      scenario_result st' = Some cur' /\
      decisions cur' = decisions cur /\
      (List.NoDup (skills_earned cur) -> List.NoDup (skills_earned cur')) /\
      (forall t, In t (skills_earned cur') <-> In t (skills_earned cur) \/ In t tags).
Proof.
  induction tags as [|tag tags IH]; intros st st' cur H Hcur; simpl in H.
  - injection H as <-. exists cur. split; [exact Hcur|]. split; [reflexivity|].
    split; [auto|]. intros t. simpl. tauto.
  - apply bind_inv in H as [([] & st1 & H1 & H2)|(e & _ & He)]; [|discriminate].
    unfold earn in H1.
    destruct (final_skills (journey st) !! tag) as [n|]; [|discriminate].
    injection H1 as <-. rewrite Hcur in H2. cbn [option_map] in H2.
    destruct (note_earned_spec tag cur) as (Hd & Hnd & Hin).
    destruct (IH _ _ (note_earned tag cur) H2 eq_refl) as (cur' & Hc' & Hd' & Hnd' & Hin').
    exists cur'. split; [exact Hc'|]. split; [congruence|]. split; [auto|].
    intros t. rewrite Hin', Hin. simpl. intuition (subst; auto).
Qed.

Lemma decision_turn_earned sim p dp st st' cur :
  decision_turn sim p dp st = (Ok tt, st') ->
  scenario_result st = Some cur ->
  exists d cur',
    scenario_result st' = Some cur' /\
    decisions cur' = decisions cur ++ [d] /\
    (List.NoDup (skills_earned cur) -> List.NoDup (skills_earned cur')) /\
    (forall t, In t (skills_earned cur') <->
               In t (skills_earned cur) \/ In t (chosen_skills (dp, d))).
Proof.
  unfold decision_turn. intros H Hcur.
  apply bind_inv in H as [(d & st1 & H1 & H)|(e & _ & He)]; [|discriminate].
  destruct (quiet_decision_point _ _ _ _ _ _ H1) as (_ & J1 & S1).
  destruct (decision_point_record _ _ _ _ _ _ H1) as (Hid & o & Ho).
  apply bind_inv in H as [([] & st2 & H2 & H)|(e & H2 & _)]; [|discriminate].
  injection H2 as <-.
  apply bind_inv in H as [(o' & st3 & H3 & H)|(e & _ & He)]; [|discriminate].
  unfold lift, option_item in H3. rewrite Ho in H3. injection H3 as <- <-.
  eapply earn_all_earned in H as (cur' & Hc' & Hd' & Hnd' & Hin').
  2: { cbn [scenario_result]. rewrite S1, Hcur. reflexivity. }
  cbn [decisions skills_earned] in Hd', Hnd', Hin'.
  exists d, cur'. repeat split; auto.
  - intros Ht. apply Hin' in Ht. unfold chosen_skills. cbn [fst snd]. now rewrite Ho.
  - intros Ht. apply Hin'. unfold chosen_skills in Ht. cbn [fst snd] in Ht.
    now rewrite Ho in Ht.
Qed.

Lemma decision_loop_earned sim p dps :
  forall st st' cur,
    for_each dps (decision_turn sim p) st = (Ok tt, st') ->
    scenario_result st = Some cur ->
    exists new cur',
      scenario_result st' = Some cur' /\
      decisions cur' = decisions cur ++ new /\
      length new = length dps /\
      (List.NoDup (skills_earned cur) -> List.NoDup (skills_earned cur')) /\
      (forall t, In t (skills_earned cur') <->
                 In t (skills_earned cur) \/
                 exists pd, In pd (combine dps new) /\ In t (chosen_skills pd)).
Proof.
  induction dps as [|dp dps IH]; intros st st' cur H Hcur; simpl in H.
  - injection H as <-. exists [], cur. rewrite app_nil_r. repeat split; auto.
    intros [H|(pd & [] & _)]. exact H.
  - apply bind_inv in H as [([] & st1 & H1 & H2)|(e & _ & He)]; [|discriminate].
    destruct (decision_turn_earned _ _ _ _ _ _ H1 Hcur) as (d & cur1 & Hc1 & Hd1 & Hnd1 & Hin1).
    destruct (IH _ _ _ H2 Hc1) as (new & cur' & Hc' & Hd' & Hlen & Hnd' & Hin').
    exists (d :: new), cur'. split; [exact Hc'|].
    split; [rewrite Hd', Hd1, <- app_assoc; reflexivity|].
    split; [simpl; now rewrite Hlen|]. split; [auto|].
    intros t. rewrite Hin', Hin1. cbn [combine]. split.
    + intros [[H|H]|(pd & Hpd & Ht)]; [now left | | ].
      * right. exists (dp, d). split; [now left | exact H].
      * right. exists pd. split; [now right | exact Ht].
    + intros [H|(pd & [<-|Hpd] & Ht)]; [now left; left | now left; right |].
      right. exists pd. auto.
Qed.

(** X13.  The skills that a scenario record lists as earned are the tags of
    the options chosen at its decisions: each of them, and each once. *)
Theorem earned_skills_are_chosen_tags sim p sc st r st' :
  simulate_scenario sim p sc st = (Ok r, st') ->
  List.NoDup (skills_earned r) /\
  forall t, In t (skills_earned r) <->
            exists pd, In pd (scenario_pairs sc r) /\ In t (chosen_skills pd).
Proof.
  unfold simulate_scenario. intros H.
  apply bind_inv in H as [(t & st1 & H1 & H)|(e & _ & He)]; [|discriminate].
  apply bind_inv in H as [([] & st2 & H2 & H)|(e & _ & He)]; [|discriminate].
  injection H2 as <-.
  apply bind_inv in H as [([] & st3 & H3 & H)|(e & _ & He)]; [|discriminate].
  destruct (decision_loop_earned _ _ _ _ _ _ H3 eq_refl)
    as (new & cur & Hc & Hd & Hlen & Hnd & Hin).
  cbn [decisions skills_earned] in Hd, Hnd, Hin. rewrite app_nil_l in Hd.
  unfold return_scenario_result in H. rewrite Hc in H. injection H as <- <-.
  split; [apply Hnd; constructor|].
  intros tag. rewrite Hin. unfold scenario_pairs. rewrite Hd. split.
  - intros [[]|H]. exact H.
  - intros H. now right.
Qed.

Lemma earned_skills_are_chosen_tags_witness :
  exists r st',
    simulate_scenario Examples.sim Examples.steady Examples.party
      (JState 0 1 (new_journey Examples.steady) None) = (Ok r, st') /\
    List.NoDup (skills_earned r) /\
    forall t, In t (skills_earned r) <->
              exists pd, In pd (scenario_pairs Examples.party r) /\
                         In t (chosen_skills pd).
Proof.
  assert (HX : exists r st',
             simulate_scenario Examples.sim Examples.steady Examples.party
               (JState 0 1 (new_journey Examples.steady) None) = (Ok r, st')).
  { vm_compute. eexists _, _. reflexivity. }
  destruct HX as (r & st' & HX). exists r, st'. split; [exact HX|].
  exact (earned_skills_are_chosen_tags _ _ _ _ _ _ HX).
Defined.

End EarnedSkills.

(* ===================================================================== *)
(** ** How a journey ends, and what it costs *)
(* ===================================================================== *)

Section Outcome.
Import Py Config Sim Tally.

(** A journey whose body raised has no feedback. *)
Lemma journey_body_error sim p d e st :
  journey_body sim p (start p d) = (Err e, st) -> feedback (journey st) = None.
Proof.
  unfold journey_body. intros H.
  apply bind_inv in H as [(cs & st1 & H1 & H)|(e1 & H1 & _)].
  2: { destruct (quiet_character_selection _ _ _ _ H1) as (_ & J & _). now rewrite J. }
  destruct (quiet_character_selection _ _ _ _ H1) as (_ & J1 & S1).
  apply bind_inv in H as [([] & st2 & H2 & H)|(e2 & H2 & _)]; [|discriminate].
  injection H2 as <-.
  apply bind_inv in H as [([] & st3 & H3 & H)|(e3 & H3 & _)].
  - destruct (scenario_loop_spec _ _ _ _ _ _ H3 S1) as (Hout & _).
    unfold outside_run in Hout. cbn [journey feedback] in Hout. rewrite J1 in Hout.
    injection Hout as _ _ _ O4 _ _.
    apply bind_inv in H as [([] & st4 & H4 & H)|(e4 & H4 & _)]; [|discriminate].
    injection H4 as <-.
    apply bind_inv in H as [(fb & st5 & H5 & H)|(e5 & H5 & _)]; [discriminate|].
    destruct (quiet_feedback _ _ _ _ H5) as (_ & J5 & _).
    rewrite J5. cbn [journey feedback]. exact O4.
  - destruct (scenario_loop_spec _ _ _ _ _ _ H3 S1) as (Hout & _).
    unfold outside_run in Hout. cbn [journey feedback] in Hout. rewrite J1 in Hout.
    injection Hout as _ _ _ O4 _ _. exact O4.
Qed.

(** X14.  A journey record never keeps the status "incomplete".  It is
    "completed", and then it has no error, a character, the feedback, and
    one complete record for each scenario of the catalog, in order; or it
    is "error", and then it has the message of the exception and no
    feedback. *)
Theorem journey_outcome sim p d :
  let j := fst (simulate_full_journey sim p d) in
  (completion_status j = "completed" /\ error j = None /\
   selection j <> None /\ feedback j <> None /\
   Forall2 complete_for (scenarios_data sim) (scenarios j)) \/
  (completion_status j = "error" /\ error j <> None /\ feedback j = None).
Proof.
  cbv zeta.
  destruct (full_journey_cases sim p d) as (r & st & Hb & [(-> & ->)|(e & -> & ->)]).
  - left. apply journey_body_spec in Hb
      as (_ & He & _ & _ & Hc & _ & _ & _ & Hok).
    destruct (Hok eq_refl) as (Hs & Hl & _ & Hf & Hsel).
    rewrite Hl, firstn_all in Hc. auto.
  - right. apply journey_body_error in Hb. cbn. split; [reflexivity|].
    split; [discriminate | exact Hb].
Qed.

End Outcome.

Section Effort.
Import Py Config Sim Tally.

Lemma parse_decision_total s :
  exists lr, Utils.parse_decision_response (PyStr s) = Ok lr.
Proof.
  destruct (String.eqb_spec s "") as [->|Hs]; [eexists; reflexivity|].
  rewrite (parse_decision_text s Hs). eauto.
Qed.

(** One decision point: one call of the agent, at most one draw. *)
Lemma decision_point_effort sim p dp st r st' :
  simulate_decision_point sim p dp st = (r, st') ->
  calls st' = S (calls st) /\ draws st <= draws st' <= S (draws st).
Proof.
  unfold simulate_decision_point. intros H.
  apply bind_inv in H as [(acts & st1 & H1 & H)|(e & H1 & _)].
  2: { unfold listen_and_act in H1. injection H1 as _ <-. cbn. lia. }
  unfold listen_and_act in H1. injection H1 as _ <-.
  apply bind_inv in H as [(response & st1' & H1' & H)|(e & H1' & _)].
  2: { unfold lift in H1'. injection H1' as _ <-. cbn. lia. }
  unfold lift in H1'. injection H1' as _ <-.
  destruct (parse_decision_total response) as [lr Hlr].
  apply bind_inv in H as [(parsed & st2 & H2 & H)|(e & H2 & _)].
  2: { unfold lift in H2. rewrite Hlr in H2. discriminate. }
  unfold lift in H2. injection H2 as _ <-.
  destruct r as [d|e].
  - apply resolve_decision_cases in H as (l & rs & o & _ & _ & Hc & _ & _ & Hd).
    cbn [calls draws] in *. split; [exact Hc|].
    destruct Hd as [(_ & _ & ->)|(_ & _ & _ & ->)]; lia.
  - pose proof (quiet_resolve _ _ _ _ _ _ H) as (Hd & _).
    unfold resolve_decision in H.
    destruct (has_key (fst parsed) (dp_options dp)); cbn [negb] in H.
    + unfold mbind, M_bind, bind, mret, M_ret, ret, lift in H.
      destruct (option_item (fst parsed) (dp_options dp)); injection H as _ <-; cbn; lia.
    + destruct (keys (dp_options dp)) as [|k ks] eqn:Hk.
      * unfold mbind, M_bind, bind, random_choice, raise in H. injection H as _ <-. cbn. lia.
      * destruct (random_choice_some sim (k :: ks)
                    (JState (draws st) (S (calls st)) (journey st) (scenario_result st)))
          as (c & Hc & _); [discriminate|].
        unfold mbind, M_bind, bind in H. rewrite Hc in H.
        unfold mret, M_ret, ret, lift in H. cbn [fst snd] in H.
        destruct (option_item c (dp_options dp)); injection H as _ <-; cbn; lia.
Qed.

Lemma earn_effort skill st r st' :
  earn skill st = (r, st') -> calls st' = calls st /\ draws st' = draws st.
Proof.
  unfold earn. destruct (final_skills (journey st) !! skill); intros H;
    injection H as _ <-; split; reflexivity.
Qed.

Lemma earn_all_effort tags :
  forall st r st',
    for_each tags earn st = (r, st') -> calls st' = calls st /\ draws st' = draws st.
Proof.
  induction tags as [|t tags IH]; intros st r st' H; simpl in H.
  - injection H as _ <-. split; reflexivity.
  - apply bind_inv in H as [([] & st1 & H1 & H2)|(e & H1 & _)].
    + apply earn_effort in H1 as [C1 D1]. apply IH in H2 as [C2 D2]. split; congruence.
    + now apply earn_effort in H1.
Qed.

Lemma decision_turn_effort sim p dp st r st' :
  decision_turn sim p dp st = (r, st') ->
  calls st' = S (calls st) /\ draws st <= draws st' <= S (draws st).
Proof.
  unfold decision_turn. intros H.
  apply bind_inv in H as [(d & st1 & H1 & H)|(e & H1 & _)];
    [|now apply decision_point_effort in H1].
  apply decision_point_effort in H1 as [C1 D1].
  apply bind_inv in H as [([] & st2 & H2 & H)|(e & H2 & _)]; [|discriminate].
  injection H2 as <-.
  apply bind_inv in H as [(o & st3 & H3 & H)|(e & H3 & _)].
  - unfold lift in H3. injection H3 as _ <-.
    apply earn_all_effort in H as [C D]. cbn [calls draws] in C, D. lia.
  - unfold lift in H3. injection H3 as _ <-. cbn. lia.
Qed.

Lemma decision_loop_effort sim p dps :
  forall st r st',
    for_each dps (decision_turn sim p) st = (r, st') ->
    calls st <= calls st' <= calls st + length dps /\
    (r = Ok tt -> calls st' = calls st + length dps) /\
    draws st <= draws st' <= draws st + length dps.
Proof.
  induction dps as [|dp dps IH]; intros st r st' H; simpl in H.
  - injection H as <- <-. simpl. repeat split; lia.
  - apply bind_inv in H as [([] & st1 & H1 & H2)|(e & H1 & ->)].
    + apply decision_turn_effort in H1 as [C1 D1].
      apply IH in H2 as (C2 & E2 & D2). simpl. repeat split; try lia.
      intros Hr. specialize (E2 Hr). lia.
    + apply decision_turn_effort in H1 as [C1 D1]. simpl.
      repeat split; try lia. discriminate.
Qed.

Lemma scenario_effort sim p sc st r st' :
  simulate_scenario sim p sc st = (r, st') ->
  calls st <= calls st' <= calls st + length (sc_decision_points sc) /\
  ((exists rec, r = Ok rec) -> calls st' = calls st + length (sc_decision_points sc)) /\
  S (draws st) <= draws st' <= S (draws st) + length (sc_decision_points sc).
Proof.
  unfold simulate_scenario, randint. intros H.
  apply bind_inv in H as [(t & st1 & H1 & H)|(e & H1 & _)].
  2: { apply bind_inv in H1 as [(k & st0 & H0 & H1)|(e' & H0 & _)]; discriminate. }
  apply bind_inv in H1 as [(k & st0 & H0 & H1)|(e' & H0 & _)]; [|discriminate].
  injection H0 as _ <-. injection H1 as _ <-.
  apply bind_inv in H as [([] & st2 & H2 & H)|(e & H2 & _)]; [|discriminate].
  injection H2 as <-.
  apply bind_inv in H as [([] & st3 & H3 & H)|(e & H3 & ->)].
  - apply decision_loop_effort in H3 as (C & E & D). specialize (E eq_refl).
    cbn [calls draws] in C, E, D.
    unfold return_scenario_result in H.
    destruct (scenario_result st3); injection H as _ <-; cbn [calls draws];
      repeat split; try lia; intros _; lia.
  - apply decision_loop_effort in H3 as (C & _ & D). cbn [calls draws] in C, D.
    repeat split; try lia. intros [rec Hr]. discriminate.
Qed.

Lemma scenario_loop_effort sim p scs :
  forall st r st',
    for_each scs (scenario_turn sim p) st = (r, st') ->
    calls st <= calls st' <= calls st + length (flat_map sc_decision_points scs) /\
    (r = Ok tt -> calls st' = calls st + length (flat_map sc_decision_points scs)) /\
    draws st <= draws st' <=
      draws st + length scs + length (flat_map sc_decision_points scs) /\
    (r = Ok tt -> draws st + length scs <= draws st').
Proof.
  induction scs as [|sc scs IH]; intros st r st' H; simpl in H.
  - injection H as <- <-. simpl. repeat split; lia.
  - cbn [flat_map length]. rewrite length_app.
    apply bind_inv in H as [([] & st1 & H1 & H2)|(e & H1 & ->)].
    + unfold scenario_turn in H1.
      apply bind_inv in H1 as [(rec & st0 & H0 & H1)|(e & _ & He)]; [|discriminate].
      injection H1 as <-.
      apply scenario_effort in H0 as (C0 & E0 & D0).
      specialize (E0 (ex_intro _ rec eq_refl)).
      apply IH in H2 as (C2 & E2 & D2 & L2). cbn [calls draws] in C2, E2, D2, L2.
      repeat split; try lia; intros Hr; specialize (E2 Hr); specialize (L2 Hr); lia.
    + unfold scenario_turn in H1.
      apply bind_inv in H1 as [(rec & st0 & H0 & H1)|(e' & H0 & _)]; [discriminate|].
      apply scenario_effort in H0 as (C0 & _ & D0).
      repeat split; try lia; discriminate.
Qed.

Lemma selection_effort p st r st' :
  simulate_character_selection p st = (r, st') ->
  calls st' = S (calls st) /\ draws st' = draws st.
Proof.
  unfold simulate_character_selection. intros H.
  apply bind_inv in H as [(acts & st1 & H1 & H)|(e & H1 & _)].
  2: { unfold listen_and_act in H1. injection H1 as _ <-. split; reflexivity. }
  unfold listen_and_act in H1. injection H1 as _ <-.
  apply bind_inv in H as [(response & st2 & H2 & H)|(e & H2 & _)].
  2: { unfold lift in H2. injection H2 as _ <-. split; reflexivity. }
  unfold lift in H2. injection H2 as _ <-.
  apply bind_inv in H as [(cr & st3 & H3 & H)|(e & H3 & _)].
  - unfold lift in H3. injection H3 as _ <-. injection H as _ <-. split; reflexivity.
  - unfold lift in H3. injection H3 as _ <-. split; reflexivity.
Qed.

Lemma feedback_effort p st r st' :
  generate_feedback_response p st = (r, st') ->
  calls st' = S (calls st) /\ draws st' = draws st.
Proof.
  unfold generate_feedback_response. intros H.
  apply bind_inv in H as [(acts & st1 & H1 & H)|(e & H1 & _)].
  2: { unfold listen_and_act in H1. injection H1 as _ <-. split; reflexivity. }
  unfold listen_and_act in H1. injection H1 as _ <-.
  apply bind_inv in H as [(response & st2 & H2 & H)|(e & H2 & _)].
  2: { unfold lift in H2. injection H2 as _ <-. split; reflexivity. }
  unfold lift in H2. injection H2 as _ <-.
  unfold lift in H. injection H as _ <-. split; reflexivity.
Qed.

Lemma journey_body_effort sim p d r st :
  journey_body sim p (start p d) = (r, st) ->
  calls st <= 2 + length (flat_map sc_decision_points (scenarios_data sim)) /\
  d <= draws st <=
    d + length (scenarios_data sim)
      + length (flat_map sc_decision_points (scenarios_data sim)) /\
  (r = Ok tt ->
   calls st = 2 + length (flat_map sc_decision_points (scenarios_data sim)) /\
   d + length (scenarios_data sim) <= draws st).
Proof.
  unfold journey_body. intros H.
  apply bind_inv in H as [(cs & st1 & H1 & H)|(e & H1 & ->)].
  2: { apply selection_effort in H1 as [C D]. cbn [start calls draws] in C, D.
       repeat split; try lia; discriminate. }
  apply selection_effort in H1 as [C1 D1]. cbn [start calls draws] in C1, D1.
  apply bind_inv in H as [([] & st2 & H2 & H)|(e & H2 & _)]; [|discriminate].
  injection H2 as <-.
  apply bind_inv in H as [([] & st3 & H3 & H)|(e & H3 & ->)].
  - apply scenario_loop_effort in H3 as (C3 & E3 & D3 & L3).
    specialize (E3 eq_refl). specialize (L3 eq_refl). cbn [calls draws] in C3, E3, D3, L3.
    apply bind_inv in H as [([] & st4 & H4 & H)|(e & H4 & _)]; [|discriminate].
    injection H4 as <-.
    apply bind_inv in H as [(fb & st5 & H5 & H)|(e & H5 & ->)].
    + apply feedback_effort in H5 as [C5 D5]. cbn [calls draws] in C5, D5.
      injection H as _ <-. cbn [calls draws]. repeat split; try lia; intros _; lia.
    + apply feedback_effort in H5 as [C5 D5]. cbn [calls draws] in C5, D5.
      repeat split; try lia; discriminate.
  - apply scenario_loop_effort in H3 as (C3 & _ & D3 & _). cbn [calls draws] in C3, D3.
    repeat split; try lia; discriminate.
Qed.

(** X15.  A journey asks the agent at most twice and once for each decision
    point of the catalog, and draws from the generator at most once for
    each scenario and once for each decision point; a journey that ends
    normally asks exactly that often, and draws at least once for each
    scenario. *)
Theorem journey_effort sim p d r st :
  journey_body sim p (start p d) = (r, st) ->
  calls st <= 2 + length (flat_map sc_decision_points (scenarios_data sim)) /\
  d <= draws st <=
    d + length (scenarios_data sim)
      + length (flat_map sc_decision_points (scenarios_data sim)) /\
  snd (simulate_full_journey sim p d) = draws st /\
  (r = Ok tt ->
   calls st = 2 + length (flat_map sc_decision_points (scenarios_data sim)) /\
   d + length (scenarios_data sim) <= draws st).
Proof.
  intros H. pose proof (journey_body_effort _ _ _ _ _ H) as (C & D & E).
  split; [exact C|]. split; [exact D|]. split; [|exact E].
  unfold simulate_full_journey. rewrite H. now destruct r.
Qed.

Lemma journey_effort_witness :
  exists r st,
    journey_body Examples.sim Examples.steady (start Examples.steady 0) = (r, st) /\
    calls st <= 2 + length (flat_map sc_decision_points (scenarios_data Examples.sim)) /\
    0 <= draws st <=
      0 + length (scenarios_data Examples.sim)
        + length (flat_map sc_decision_points (scenarios_data Examples.sim)) /\
    snd (simulate_full_journey Examples.sim Examples.steady 0) = draws st /\
    (r = Ok tt ->
     calls st = 2 + length (flat_map sc_decision_points (scenarios_data Examples.sim)) /\
     0 + length (scenarios_data Examples.sim) <= draws st).
Proof.
  assert (HX : exists r st,
             journey_body Examples.sim Examples.steady (start Examples.steady 0) = (r, st)).
  { vm_compute. eexists _, _. reflexivity. }
  destruct HX as (r & st & HX). exists r, st. split; [exact HX|].
  exact (journey_effort Examples.sim Examples.steady 0 r st HX).
Defined.

End Effort.

(* ===================================================================== *)
(** ** The runner and the results file, once more *)
(* ===================================================================== *)

Section RunnerMore.
Import Py Config Sim Tally.

Lemma run_journeys_app sim ps1 :
  forall ps2 results d,
    run_journeys sim (ps1 ++ ps2) results d =
    run_journeys sim ps2 (fst (run_journeys sim ps1 results d))
      (snd (run_journeys sim ps1 results d)).
Proof.
  induction ps1 as [|p ps1 IH]; intros ps2 results d; [reflexivity|].
  cbn [app run_journeys]. destruct (simulate_full_journey sim p d) as [j d'].
  apply IH.
Qed.

Lemma run_journeys_prefix sim ps :
  forall results d,
    run_journeys sim ps results d =
    (results ++ fst (run_journeys sim ps [] d), snd (run_journeys sim ps [] d)).
Proof.
  induction ps as [|p ps IH]; intros results d.
  - simpl. now rewrite app_nil_r.
  - cbn [run_journeys]. destruct (simulate_full_journey sim p d) as [j d'].
    rewrite (IH (results ++ [j])), (IH ([] ++ [j])). cbn [fst snd].
    now rewrite <- app_assoc.
Qed.

(** X16.  Running a roster in two parts, the second on the results and the
    generator that the first leaves, is running it whole; and the records
    that a run appends do not depend on the results it starts from. *)
Theorem run_in_parts sim ps1 ps2 results d :
  run_journeys sim (ps1 ++ ps2) results d =
  run_journeys sim ps2 (fst (run_journeys sim ps1 results d))
    (snd (run_journeys sim ps1 results d)) /\
  run_journeys sim ps1 results d =
  (results ++ fst (run_journeys sim ps1 [] d), snd (run_journeys sim ps1 [] d)).
Proof. split; [apply run_journeys_app | apply run_journeys_prefix]. Qed.

Lemma apply_writes_other path other chunks :
  other <> path ->
  forall fs,
    fold_left apply_op (map (FileWrite path) chunks) fs !! other = fs !! other.
Proof.
  intros Hne. induction chunks as [|c chunks IH]; intros fs; [reflexivity|].
  cbn [map fold_left]. rewrite IH. cbn [apply_op].
  destruct (fs !! path); [|reflexivity]. now rewrite lookup_insert_ne.
Qed.

Lemma save_results_file chunks fs :
  apply_ops fs (save_results chunks) !! RESULTS_FILE = Some (join "" chunks).
Proof.
  unfold apply_ops, save_results. rewrite !fold_left_app. cbn [fold_left apply_op].
  rewrite (writes_append RESULTS_FILE chunks _ "").
  - reflexivity.
  - apply lookup_insert_eq.
Qed.

Lemma save_results_other chunks fs other :
  other <> RESULTS_FILE ->
  apply_ops fs (save_results chunks) !! other = fs !! other.
Proof.
  intros Hne. unfold apply_ops, save_results. rewrite !fold_left_app.
  cbn [fold_left apply_op]. rewrite apply_writes_other by exact Hne.
  now rewrite lookup_insert_ne.
Qed.

(** X17.  Saving touches no file but the results file, what it leaves there
    does not depend on what was there before, and saving the same results
    again changes nothing. *)
Theorem save_touches_one_file chunks (fs fs' : gmap string string) :
  (forall other, other <> RESULTS_FILE ->
     apply_ops fs (save_results chunks) !! other = fs !! other) /\
  apply_ops fs (save_results chunks) !! RESULTS_FILE
    = apply_ops fs' (save_results chunks) !! RESULTS_FILE /\
  apply_ops (apply_ops fs (save_results chunks)) (save_results chunks)
    = apply_ops fs (save_results chunks).
Proof.
  split; [intros other; apply save_results_other|].
  split; [now rewrite !save_results_file|].
  apply map_eq. intros k. destruct (String.eqb_spec k RESULTS_FILE) as [->|Hne].
  - now rewrite !save_results_file.
  - now rewrite (save_results_other chunks _ k Hne).
Qed.

End RunnerMore.

(* ===================================================================== *)
(** ** The survey as a whole, and two edges of the other parsers *)
(* ===================================================================== *)

Section SurveyParser.
Import Py Re Markers Scan Utils.

(** X18.  On a text that is not empty the survey parser returns: as ratings,
    the first five digits that follow a [Rate:] marker (white space between
    aside), when the text has five such markers, else 3 five times; as the
    answer to question N, the text after the first [Explain:] (or
    [Answer:]) marker that comes after the first [N.] of the text and has
    something after it, from its first character that is no white space up
    to the next line that begins with a number and a full stop, or to the
    end, stripped; the empty string when there is none; and the text itself
    as raw response. *)
Theorem survey_parser_scan (s : string) :
  s <> "" -> parse_feedback_response (PyStr s) = Ok (scan_feedback s).
Proof. apply parse_feedback_scan. Qed.

Lemma survey_parser_scan_witness :
  parse_feedback_response (PyStr "1. Rate: 4 Explain: it felt real") =
  Ok (scan_feedback "1. Rate: 4 Explain: it felt real").
Proof. apply survey_parser_scan. discriminate. Defined.








End SurveyParser.

Section ParserEdges.
Import Py Re Sim Markers Scan Utils.

Lemma first_of_here {A} (here : string -> option A) s a :
  here s = Some a -> first_of here s = Some a.
Proof. intros H. destruct s; simpl; now rewrite H. Qed.

(** X21.  The label is read from the first letter after the marker, whatever
    follows it: a reply that goes on after [CHOICE:] with a word beginning
    with one of a-d or A-D gets that letter as its label. *)
Theorem label_is_first_letter (ws : string) (c : ascii) (tail : string) :
  (forall x, In x (list_ascii_of_string ws) -> is_space x = true) ->
  is_label c = true ->
  exists reasoning,
    parse_decision_response (PyStr ("CHOICE:" ++ ws ++ String c tail)) =
    Ok (str_upper (String c ""), reasoning).
Proof.
  intros Hws Hc. rewrite parse_decision_text by discriminate.
  eexists. f_equal. f_equal. unfold scan_label.
  assert (Hf : first_of choice_label_here ("CHOICE:" ++ ws ++ String c tail) = Some c).
  { apply first_of_here. unfold choice_label_here.
      change (after_word "CHOICE:" ("CHOICE:" ++ ws ++ String c tail))
        with (Some (ws ++ String c tail)%string).
      cbv iota beta. rewrite (lstrip_spaces ws _ Hws).
      apply label_class_ci_complete, label_class_ci in Hc as (Hl & Hsp & _).
    simpl. now rewrite Hsp, Hl. }
  now rewrite Hf.
Qed.

Lemma label_is_first_letter_witness :
  exists reasoning,
    parse_decision_response (PyStr ("CHOICE:" ++ " " ++ String "d" "o nothing for now")) =
    Ok (str_upper (String "d" ""), reasoning).
Proof.
  apply (label_is_first_letter " " "d" "o nothing for now"); [|reflexivity].
  intros x [<-|[]]. reflexivity.
Defined.

(** X22.  White space alone after the marker gives the empty string as
    character: when what follows [CHOICE:] is white space with something
    other than newlines in it, and nothing more, the character parser
    returns the empty string, which is no name of the roster. *)
Theorem blank_choice_gives_empty_character (ws : string) :
  (forall x, In x (list_ascii_of_string ws) -> is_space x = true) ->
  only_newlines ws = false ->
  parse_character_selection (PyStr ("CHOICE:" ++ ws)) =
  Ok ("", "Selected based on background").
Proof.
  intros Hws Hn. rewrite parse_character_text by discriminate. f_equal. f_equal.
  - unfold scan_character.
    assert (Hf : first_of choice_text_here ("CHOICE:" ++ ws) = Some "").
    { apply first_of_here. unfold choice_text_here.
      change (after_word "CHOICE:" ("CHOICE:" ++ ws)) with (Some ws).
      cbv iota beta. rewrite Hn. unfold text_after. now rewrite (lstrip_all_spaces ws Hws). }
    rewrite Hf. reflexivity.
  - unfold scan_reasoning.
    assert (Hr : forall t, (forall x, In x (list_ascii_of_string t) -> is_space x = true) ->
                           first_of reasoning_here t = None).
    { induction t as [|x t IH]; intros Ht; [reflexivity|].
      cbn [first_of].
      assert (Hx : reasoning_here (String x t) = None).
      { unfold reasoning_here.
        change (after_word "REASONING:" (String x t))
          with (if Ascii.eqb (lower x) (lower "R") then after_word "EASONING:" t else None).
        change (lower "R") with "r"%char.
        now rewrite (space_not_r x (Ht x (or_introl eq_refl))). }
      rewrite Hx. apply IH. intros y Hy. apply Ht. now right. }
    assert (Hf : first_of reasoning_here ("CHOICE:" ++ ws) = None).
    { change ("CHOICE:" ++ ws)%string
        with (String "C" (String "H" (String "O" (String "I" (String "C"
               (String "E" (String ":" ws))))))).
      cbn [first_of]. 
      repeat match goal with
             | |- context [reasoning_here (String ?c ?t)] =>
                 change (reasoning_here (String c t)) with (@None string)
             end.
      now apply Hr. }
    now rewrite Hf.
Qed.

Lemma blank_choice_gives_empty_character_witness :
  parse_character_selection (PyStr ("CHOICE:" ++ "  ")) =
  Ok ("", "Selected based on background").
Proof.
  apply (blank_choice_gives_empty_character "  "); [|reflexivity].
  intros x [<-|[<-|[]]]; reflexivity.
Defined.

End ParserEdges.

(* ===================================================================== *)
(** ** The journey of an agent that says nothing *)
(* ===================================================================== *)

Section SilentAgent.
Import Py Config Sim Tally.

Lemma bind_ok {A B} (m : M A) (f : A -> M B) st a st1 :
  m st = (Ok a, st1) -> (m ≫= f) st = f a st1.
Proof. intros H. unfold mbind, M_bind, bind. now rewrite H. Qed.

Variable sim : simulator.
Variable p : persona.
Hypothesis Hsilent :
  forall n, exists acts, replies p n = Ok acts /\ _extract_talk_text acts = Ok "".

Lemma silent_decision_turn dp st cur o :
  option_get "A" (dp_options dp) = Some o ->
  Forall (fun t => final_skills (journey st) !! t <> None) (opt_skills o) ->
  scenario_result st = Some cur ->
  exists st' cur' d,
    decision_turn sim p dp st = (Ok tt, st') /\
    draws st' = draws st /\
    scenario_result st' = Some cur' /\
    decisions cur' = decisions cur ++ [d] /\
    choice d = "A" /\ reasoning d = "Default choice due to invalid response".
Proof.
  intros Ho Hk Hcur. destruct (Hsilent (calls st)) as (acts & Hr & Ht).
  pose proof (silent_decision sim p dp st acts o Hr Ht Ho) as E.
  unfold decision_turn. rewrite (bind_ok _ _ _ _ _ E).
  erewrite bind_ok by reflexivity.
  erewrite bind_ok by (unfold lift, option_item; cbn [choice]; rewrite Ho; reflexivity).
  cbn [draws calls journey scenario_result]. rewrite Hcur. cbn [option_map].
  match goal with |- context [for_each _ earn ?s] => set (st2 := s) end.
  destruct (for_each (opt_skills o) earn st2) as [r st3] eqn:He.
  pose proof (earn_all_effort _ _ _ _ He) as [_ Hd].
  destruct (earn_all_spec _ _ _ _ He) as [(-> & _)|(e & tag & _ & Hin & Hn)].
  - destruct (earn_all_earned _ _ _ _ He eq_refl) as (cur' & Hc' & Hdec & _).
    eexists st3, cur', _. split; [reflexivity|]. split; [exact Hd|].
    split; [exact Hc'|]. split; [exact Hdec|]. split; reflexivity.
  - exfalso. rewrite List.Forall_forall in Hk. exact (Hk tag Hin Hn).
Qed.

Lemma silent_decision_loop dps :
  forall st cur,
    Forall (fun dp => exists o, option_get "A" (dp_options dp) = Some o /\
                                Forall (fun t => In t SKILLS) (opt_skills o)) dps ->
    (forall t, In t SKILLS -> final_skills (journey st) !! t <> None) ->
    scenario_result st = Some cur ->
    exists st' cur' new,
      for_each dps (decision_turn sim p) st = (Ok tt, st') /\
      draws st' = draws st /\
      scenario_result st' = Some cur' /\
      decisions cur' = decisions cur ++ new /\
      length new = length dps /\
      Forall (fun d => choice d = "A" /\
                       reasoning d = "Default choice due to invalid response") new.
Proof.
  induction dps as [|dp dps IH]; intros st cur Hall Hk Hcur.
  - exists st, cur, []. rewrite app_nil_r. repeat split; auto.
  - inversion Hall as [|? ? (o & Ho & Htags) Hall']; subst.
    destruct (silent_decision_turn dp st cur o Ho) as (st1 & cur1 & d & H1 & D1 & C1 & Hd1 & Hch);
      [|exact Hcur|].
    { eapply List.Forall_impl; [|exact Htags]. intros t Ht. now apply Hk. }
    pose proof (grows_decision_turn _ _ _ _ _ _ H1) as Hg.
    destruct (IH st1 cur1 Hall') as (st' & cur' & new & H2 & D2 & C2 & Hd2 & Hlen & Hnew);
      [|exact C1|].
    { intros t Ht Hn. apply (Hk t Ht). now apply (grows_dom st st1 t Hg). }
    exists st', cur', (d :: new). cbn [for_each].
    rewrite (bind_ok _ _ _ _ _ H1). split; [exact H2|].
    split; [congruence|]. split; [exact C2|].
    split; [rewrite Hd2, Hd1, <- app_assoc; reflexivity|].
    split; [cbn [length]; now rewrite Hlen|].
    constructor; assumption.
Qed.

Lemma silent_scenario sc st :
  Forall (fun dp => exists o, option_get "A" (dp_options dp) = Some o /\
                              Forall (fun t => In t SKILLS) (opt_skills o))
         (sc_decision_points sc) ->
  (forall t, In t SKILLS -> final_skills (journey st) !! t <> None) ->
  exists rec st',
    simulate_scenario sim p sc st = (Ok rec, st') /\
    draws st' = S (draws st) /\
    length (decisions rec) = length (sc_decision_points sc) /\
    Forall (fun d => choice d = "A" /\
                     reasoning d = "Default choice due to invalid response")
           (decisions rec).
Proof.
  intros Hall Hk. unfold simulate_scenario.
  erewrite bind_ok by (unfold randint; erewrite bind_ok by reflexivity; reflexivity).
  erewrite bind_ok by reflexivity.
  cbn [draws calls journey scenario_result].
  match goal with |- context [JState ?a ?b ?c ?d] => set (st1 := JState a b c d) end.
  destruct (silent_decision_loop (sc_decision_points sc) st1 _ Hall Hk eq_refl)
    as (st2 & cur & new & H2 & D2 & C2 & Hd2 & Hlen & Hnew).
  rewrite (bind_ok _ _ _ _ _ H2).
  unfold return_scenario_result. rewrite C2.
  eexists _, _. split; [reflexivity|]. split; [exact D2|].
  cbn [decisions] in Hd2. rewrite Hd2. cbn [app]. split; assumption.
Qed.

Lemma silent_scenario_loop scs :
  forall st,
    Forall (fun sc =>
      Forall (fun dp => exists o, option_get "A" (dp_options dp) = Some o /\
                                  Forall (fun t => In t SKILLS) (opt_skills o))
             (sc_decision_points sc)) scs ->
    (forall t, In t SKILLS -> final_skills (journey st) !! t <> None) ->
    exists st' recs,
      for_each scs (scenario_turn sim p) st = (Ok tt, st') /\
      draws st' = draws st + length scs /\
      scenarios (journey st') = scenarios (journey st) ++ recs /\
      outside_run (journey st') = outside_run (journey st) /\
      Forall2 (fun sc r =>
        length (decisions r) = length (sc_decision_points sc) /\
        Forall (fun d => choice d = "A" /\
                         reasoning d = "Default choice due to invalid response")
               (decisions r)) scs recs.
Proof.
  induction scs as [|sc scs IH]; intros st Hall Hk.
  - exists st, []. rewrite app_nil_r. simpl. repeat split; auto.
  - inversion Hall as [|? ? Hsc Hall']; subst.
    destruct (silent_scenario sc st Hsc Hk) as (rec & st1 & H1 & D1 & Hl & Hrec).
    pose proof (grows_simulate_scenario _ _ _ _ _ _ H1) as Hg.
    destruct Hg as (_ & Hout & Hdom & _).
    destruct (IH (JState (draws st1) (calls st1)
                    (JourneyRecord (persona_id (journey st1))
                       (persona_background (journey st1)) (selection (journey st1))
                       (scenarios (journey st1) ++ [rec]) (final_skills (journey st1))
                       (feedback (journey st1)) (completion_status (journey st1))
                       (error (journey st1)) (error_traceback (journey st1)))
                    (scenario_result st1)) Hall')
      as (st' & recs & H2 & D2 & Hs2 & Ho2 & Hrecs).
    { cbn [journey final_skills]. intros t Ht Hn. apply (Hk t Ht). now apply Hdom. }
    exists st', (rec :: recs). cbn [for_each].
    erewrite bind_ok
      by (unfold scenario_turn; rewrite (bind_ok _ _ _ _ _ H1); reflexivity).
    split; [exact H2|]. cbn [draws journey scenarios] in D2, Hs2.
    unfold outside_skills in Hout. injection Hout as O1 O2 O3 O4 O5 O6 O7 O8.
    split; [cbn [length]; lia|].
    split; [rewrite Hs2, O4, <- app_assoc; reflexivity|].
    split.
    + rewrite Ho2. unfold outside_run. cbn [journey persona_id persona_background
        selection feedback completion_status error error_traceback]. congruence.
    + constructor; [split; assumption | exact Hrecs].
Qed.

Lemma silent_journey d :
  Forall (fun sc =>
    Forall (fun dp => exists o, option_get "A" (dp_options dp) = Some o /\
                                Forall (fun t => In t SKILLS) (opt_skills o))
           (sc_decision_points sc)) (scenarios_data sim) ->
  exists j,
    simulate_full_journey sim p d = (j, d + length (scenarios_data sim)) /\
    completion_status j = "completed" /\
    selection j = Some (CharacterSelection "Alex Chen"
                          "Default selection due to invalid response") /\
    feedback j = Some (Utils.default_feedback "") /\
    Forall2 (fun sc r =>
      length (decisions r) = length (sc_decision_points sc) /\
      Forall (fun dr => choice dr = "A" /\
                        reasoning dr = "Default choice due to invalid response")
             (decisions r)) (scenarios_data sim) (scenarios j).
Proof.
  intros Hall. unfold simulate_full_journey, journey_body.
  destruct (Hsilent 0) as (acts0 & R0 & T0).
  assert (E0 : simulate_character_selection p (start p d) =
               (Ok (CharacterSelection "Alex Chen" "Default selection due to invalid response"),
                JState d 1 (new_journey p) None)).
  { unfold simulate_character_selection.
    erewrite bind_ok by (unfold listen_and_act; cbn [start calls]; rewrite R0; reflexivity).
    rewrite T0. reflexivity. }
  rewrite (bind_ok _ _ _ _ _ E0).
  erewrite bind_ok by reflexivity.
  cbn [draws calls journey scenario_result].
  match goal with |- context [JState ?a ?b ?c ?d] => set (st1 := JState a b c d) end.
  destruct (silent_scenario_loop (scenarios_data sim) st1 Hall)
    as (st2 & recs & H2 & D2 & Hs2 & Ho2 & Hrecs).
  { intros t Ht. subst st1. cbn [journey final_skills].
    change (final_skills (new_journey p) !! t <> None).
    rewrite (initial_skills p t Ht). discriminate. }
  rewrite (bind_ok _ _ _ _ _ H2).
  erewrite bind_ok by reflexivity.
  destruct (Hsilent (calls st2)) as (acts1 & R1 & T1).
  erewrite bind_ok.
  2:{ unfold generate_feedback_response.
      erewrite bind_ok
        by (unfold listen_and_act; cbn [calls]; rewrite R1; reflexivity).
      rewrite T1. reflexivity. }
  unfold set_journey, modify. cbn [draws journey fst snd].
  eexists. split; [f_equal; exact D2|].
  cbn [completion_status selection feedback scenarios].
  unfold outside_run in Ho2. subst st1. cbn [journey persona_id persona_background
    selection feedback completion_status error error_traceback scenarios new_journey] in Ho2, Hs2.
  injection Ho2 as O1 O2 O3 O4 O5 O6 O7. rewrite Hs2, O3. cbn [app].
  repeat split; auto.
Qed.

End SilentAgent.

Section SilentAgentJourney.
Import Py Config Sim Tally.

(** X23.  An agent that never says anything goes through the whole catalog:
    when the empty text is taken from every reply (so that none makes the
    extraction raise), and every decision point has an option
    A whose skill-tags are known skills, the journey is completed, with the
    default character, the default ratings, the choice A with the reasoning
    of an invalid reply at every decision point, and one draw from the
    generator for each scenario. *)
Theorem silent_agent_completes sim p d :
  (forall n, exists acts, replies p n = Ok acts /\ _extract_talk_text acts = Ok "") ->
  Forall (fun sc =>
    Forall (fun dp => exists o, option_get "A" (dp_options dp) = Some o /\
                                Forall (fun t => In t SKILLS) (opt_skills o))
           (sc_decision_points sc)) (scenarios_data sim) ->
  exists j,
    simulate_full_journey sim p d = (j, d + length (scenarios_data sim)) /\
    completion_status j = "completed" /\
    selection j = Some (CharacterSelection "Alex Chen"
                          "Default selection due to invalid response") /\
    feedback j = Some (Utils.default_feedback "") /\
    Forall2 (fun sc r =>
      length (decisions r) = length (sc_decision_points sc) /\
      Forall (fun dr => choice dr = "A" /\
                        reasoning dr = "Default choice due to invalid response")
             (decisions r)) (scenarios_data sim) (scenarios j).
Proof. intros Hs Hc. now apply silent_journey. Qed.

Lemma silent_agent_completes_witness :
  let p := Persona "Mute" "KE" "design" (fun _ => Ok [ActionDict "THINK" "hmm"]) in
  exists j,
    simulate_full_journey Examples.sim p 4 = (j, 4 + length (scenarios_data Examples.sim)) /\
    completion_status j = "completed" /\
    selection j = Some (CharacterSelection "Alex Chen"
                          "Default selection due to invalid response") /\
    feedback j = Some (Utils.default_feedback "") /\
    Forall2 (fun sc r =>
      length (decisions r) = length (sc_decision_points sc) /\
      Forall (fun dr => choice dr = "A" /\
                        reasoning dr = "Default choice due to invalid response")
             (decisions r)) (scenarios_data Examples.sim) (scenarios j).
Proof.
  intros p. apply (silent_agent_completes Examples.sim p 4).
  - intros n. exists [ActionDict "THINK" "hmm"]. split; reflexivity.
  - repeat constructor; eexists; (split; [reflexivity|]); repeat constructor;
      simpl; tauto.
Defined.

(** A reply that has no words need not be one from which the empty text is
    taken: on an [action] entry that is [None] the extraction raises, and
    the journey of such an agent is recorded as an error. *)
Lemma unreadable_reply_stops_journey :
  let p := Persona "Mute" "KE" "design" (fun _ => Ok [VDict [("action", VNone)]]) in
  let j := fst (simulate_full_journey Examples.sim p 4) in
  completion_status j = "error" /\
  error j = Some "'NoneType' object has no attribute 'get'" /\
  selection j = None /\ scenarios j = [].
Proof. vm_compute. repeat split; reflexivity. Qed.

End SilentAgentJourney.

(* ===================================================================== *)
(** ** A well-formed survey reply is read back *)
(* ===================================================================== *)

Section ReplyFacts.
Import Py Re Markers Scan Utils Reply.

(** A word is not read at a place where a letter of it is missing from the
    text before a character that is no letter of it. *)
Lemma after_word_blocked c w :
  forall u v,
    In (lower c) (list_ascii_of_string (str_lower w)) ->
    (forall x, In x (list_ascii_of_string u) -> Ascii.eqb (lower x) (lower c) = false) ->
    match v with
    | EmptyString => True
    | String y _ => ~ In (lower y) (list_ascii_of_string (str_lower w))
    end ->
    after_word w (u ++ v) = None.
Proof.
  induction w as [|a w IH]; intros u v Hc Hu Hv; [destruct Hc|].
  destruct u as [|x u].
  - rewrite str_app_nil. destruct v as [|y v]; [reflexivity|]. simpl.
    destruct (Ascii.eqb_spec (lower y) (lower a)) as [E|_]; [|reflexivity].
    exfalso. apply Hv. simpl. now left.
  - rewrite str_app_cons. simpl.
    destruct (Ascii.eqb_spec (lower x) (lower a)) as [E|_]; [|reflexivity].
    apply IH.
    + simpl in Hc. destruct Hc as [Hc|Hc]; [|exact Hc].
      exfalso. specialize (Hu x (or_introl eq_refl)).
      rewrite E, Hc, Ascii.eqb_refl in Hu. discriminate.
    + intros z Hz. apply Hu. now right.
    + destruct v as [|y v]; [trivial|]. intros Hy. apply Hv. simpl. now right.
Qed.

Lemma first_of_cons_none {A} (here : string -> option A) c t :
  here (String c t) = None -> first_of here (String c t) = first_of here t.
Proof. intros H. simpl. now rewrite H. Qed.

Lemma first_of_seg {A} (here : string -> option A) (u v : string) :
  (forall u1 u2, u = (u1 ++ u2)%string -> here (u2 ++ v)%string = None) ->
  first_of here (u ++ v) = first_of here v.
Proof.
  induction u as [|x u IH]; intros H; [reflexivity|].
  rewrite str_app_cons. rewrite first_of_cons_none.
  - apply IH. intros u1 u2 ->. apply (H (String x u1) u2). reflexivity.
  - rewrite <- str_app_cons. apply (H "" (String x u)). reflexivity.
Qed.

Lemma suffix_avoids c u u1 u2 :
  u = (u1 ++ u2)%string ->
  (forall x, In x (list_ascii_of_string u) -> Ascii.eqb (lower x) (lower c) = false) ->
  forall x, In x (list_ascii_of_string u2) -> Ascii.eqb (lower x) (lower c) = false.
Proof. intros -> H x Hx. apply H, in_str_app. now right. Qed.

Lemma plain_parts e :
  plain e = true ->
  e <> "" /\ strip e = e /\
  forall x, In x (list_ascii_of_string e) ->
            is_digit x = false /\ Ascii.eqb x ":" = false.
Proof.
  unfold plain. intros H. apply andb_true_iff in H as [H H3].
  apply andb_true_iff in H as [H1 H2].
  split; [intros ->; discriminate|]. split; [now apply String.eqb_eq|].
  intros x Hx. rewrite forallb_forall in H3. specialize (H3 x Hx).
  apply andb_true_iff in H3 as [Ha Hb]. now rewrite negb_true_iff in Ha, Hb.
Qed.

Lemma lower_colon x : Ascii.eqb (lower x) (lower ":") = true -> Ascii.eqb x ":" = true.
Proof.
  apply (ascii_all_impl (fun c => Ascii.eqb (lower c) (lower ":"))
           (fun c => Ascii.eqb c ":")).
  vm_compute. reflexivity.
Qed.

Lemma lower_dot x : Ascii.eqb (lower x) (lower ".") = true -> is_digit x = false.
Proof.
  intros H.
  apply (ascii_all_impl (fun c => Ascii.eqb (lower c) (lower "."))
           (fun c => negb (is_digit c))) in H.
  - now apply negb_true_iff.
  - vm_compute. reflexivity.
Qed.

Lemma lower_digit c x :
  is_digit c = true -> Ascii.eqb (lower x) (lower c) = true -> is_digit x = true.
Proof.
  intros Hc Hx.
  assert (H : forallb (fun n =>
                forallb (fun m =>
                  implb (is_digit (ascii_of_nat n) &&
                         Ascii.eqb (lower (ascii_of_nat m)) (lower (ascii_of_nat n)))
                        (is_digit (ascii_of_nat m))) (seq 0 256)) (seq 0 256) = true)
    by (vm_compute; reflexivity).
  assert (Hin : forall y, In (nat_of_ascii y) (seq 0 256)).
  { intros y. apply in_seq. pose proof (nat_ascii_bounded y). lia. }
  rewrite forallb_forall in H. specialize (H (nat_of_ascii c) (Hin c)).
  rewrite forallb_forall in H. specialize (H (nat_of_ascii x) (Hin x)).
  rewrite !ascii_nat_embedding, Hc, Hx in H. exact H.
Qed.

Lemma plain_avoids_colon e :
  plain e = true ->
  forall x, In x (list_ascii_of_string e) -> Ascii.eqb (lower x) (lower ":") = false.
Proof.
  intros H x Hx. apply plain_parts in H as (_ & _ & H).
  destruct (H x Hx) as [_ Hc].
  destruct (Ascii.eqb (lower x) (lower ":")) eqn:E; [|reflexivity].
  apply lower_colon in E. congruence.
Qed.

Lemma plain_avoids_digit e c :
  plain e = true -> is_digit c = true ->
  forall x, In x (list_ascii_of_string e) -> Ascii.eqb (lower x) (lower c) = false.
Proof.
  intros H Hc x Hx. apply plain_parts in H as (_ & _ & H).
  destruct (H x Hx) as [Hd _].
  destruct (Ascii.eqb (lower x) (lower c)) eqn:E; [|reflexivity].
  apply (lower_digit c x Hc) in E. congruence.
Qed.

Lemma digit_avoids_colon d :
  is_digit d = true ->
  forall x, In x (list_ascii_of_string (String d "")) ->
            Ascii.eqb (lower x) (lower ":") = false.
Proof.
  intros Hd x [<-|[]].
  destruct (Ascii.eqb (lower d) (lower ":")) eqn:E; [|reflexivity].
  apply lower_colon in E. apply Ascii.eqb_eq in E. subst. discriminate.
Qed.

Lemma digit_avoids_dot d :
  is_digit d = true ->
  forall x, In x (list_ascii_of_string (String d "")) ->
            Ascii.eqb (lower x) (lower ".") = false.
Proof.
  intros Hd x [<-|[]].
  destruct (Ascii.eqb (lower d) (lower ".")) eqn:E; [|reflexivity].
  apply lower_dot in E. congruence.
Qed.

End ReplyFacts.

Section ReplySkips.
Import Py Re Markers Scan Utils Reply.

(** What may follow a text for a word not to be read across its end. *)
Lemma after_word_seg c w (u v : string) :
  existsb (Ascii.eqb (lower c)) (list_ascii_of_string (str_lower w)) = true ->
  (forall x, In x (list_ascii_of_string u) -> Ascii.eqb (lower x) (lower c) = false) ->
  match v with
  | EmptyString => true
  | String y _ =>
      negb (existsb (Ascii.eqb (lower y)) (list_ascii_of_string (str_lower w)))
  end = true ->
  forall u1 u2, u = (u1 ++ u2)%string -> after_word w (u2 ++ v) = None.
Proof.
  intros Hc Hu Hv u1 u2 Hsplit. apply (after_word_blocked c).
  - apply existsb_exists in Hc as (x & Hx & E). apply Ascii.eqb_eq in E. now subst.
  - eapply suffix_avoids; eassumption.
  - destruct v as [|y v]; [trivial|]. apply negb_true_iff in Hv. intros Hin.
    assert (existsb (Ascii.eqb (lower y)) (list_ascii_of_string (str_lower w)) = true).
    { apply existsb_exists. exists (lower y). split; [exact Hin | apply Ascii.eqb_refl]. }
    congruence.
Qed.

Lemma answer_skip c number marker (u v : string) :
  existsb (Ascii.eqb (lower c))
    (list_ascii_of_string (str_lower (number ++ "."))) = true ->
  (forall x, In x (list_ascii_of_string u) -> Ascii.eqb (lower x) (lower c) = false) ->
  match v with
  | EmptyString => true
  | String y _ =>
      negb (existsb (Ascii.eqb (lower y))
              (list_ascii_of_string (str_lower (number ++ "."))))
  end = true ->
  first_of (answer_here number marker) (u ++ v) = first_of (answer_here number marker) v.
Proof.
  intros Hc Hu Hv. apply first_of_seg. intros u1 u2 Hs. unfold answer_here.
  now rewrite (after_word_seg c _ u v Hc Hu Hv u1 u2 Hs).
Qed.

Lemma marker_skip c marker (u v : string) :
  existsb (Ascii.eqb (lower c)) (list_ascii_of_string (str_lower marker)) = true ->
  (forall x, In x (list_ascii_of_string u) -> Ascii.eqb (lower x) (lower c) = false) ->
  match v with
  | EmptyString => true
  | String y _ =>
      negb (existsb (Ascii.eqb (lower y)) (list_ascii_of_string (str_lower marker)))
  end = true ->
  first_of (marker_text_here marker) (u ++ v) = first_of (marker_text_here marker) v.
Proof.
  intros Hc Hu Hv. apply first_of_seg. intros u1 u2 Hs. unfold marker_text_here.
  now rewrite (after_word_seg c _ u v Hc Hu Hv u1 u2 Hs).
Qed.

Lemma rates_seg c (u v : string) :
  existsb (Ascii.eqb (lower c)) (list_ascii_of_string (str_lower "Rate:")) = true ->
  (forall x, In x (list_ascii_of_string u) -> Ascii.eqb (lower x) (lower c) = false) ->
  match v with
  | EmptyString => true
  | String y _ =>
      negb (existsb (Ascii.eqb (lower y)) (list_ascii_of_string (str_lower "Rate:")))
  end = true ->
  rates (u ++ v) = rates v.
Proof.
  intros Hc Hu Hv. induction u as [|x u IH]; [reflexivity|].
  rewrite str_app_cons.
  change (rates (String x (u ++ v)))
    with (match rate_here (String x (u ++ v)) with
          | Some d => [d]
          | None => []
          end ++ rates (u ++ v)).
  assert (Hr : rate_here (String x (u ++ v)) = None).
  { unfold rate_here. rewrite <- str_app_cons.
    now rewrite (after_word_seg c _ (String x u) v Hc Hu Hv "" (String x u) eq_refl). }
  rewrite Hr. apply IH. intros y Hy. apply Hu. now right.
Qed.

Lemma answer_here_digit number marker d t :
  is_digit d = true ->
  existsb (Ascii.eqb (lower "."))
    (list_ascii_of_string (str_lower (number ++ "."))) = true ->
  match t with
  | EmptyString => true
  | String y _ =>
      negb (existsb (Ascii.eqb (lower y))
              (list_ascii_of_string (str_lower (number ++ "."))))
  end = true ->
  answer_here number marker (String d t) = None.
Proof.
  intros Hd Hc Hv. unfold answer_here.
  pose proof (after_word_seg "." _ (String d "") t Hc (digit_avoids_dot d Hd) Hv
                "" (String d "") eq_refl) as H.
  change (String d "" ++ t)%string with (String d t) in H. now rewrite H.
Qed.

Lemma marker_here_digit marker d t :
  is_digit d = true ->
  existsb (Ascii.eqb (lower ":")) (list_ascii_of_string (str_lower marker)) = true ->
  match t with
  | EmptyString => true
  | String y _ =>
      negb (existsb (Ascii.eqb (lower y)) (list_ascii_of_string (str_lower marker)))
  end = true ->
  marker_text_here marker (String d t) = None.
Proof.
  intros Hd Hc Hv. unfold marker_text_here.
  pose proof (after_word_seg ":" _ (String d "") t Hc (digit_avoids_colon d Hd) Hv
                "" (String d "") eq_refl) as H.
  change (String d "" ++ t)%string with (String d t) in H. now rewrite H.
Qed.

Lemma rate_here_digit_none d t :
  is_digit d = true ->
  match t with
  | EmptyString => true
  | String y _ =>
      negb (existsb (Ascii.eqb (lower y)) (list_ascii_of_string (str_lower "Rate:")))
  end = true ->
  rate_here (String d t) = None.
Proof.
  intros Hd Hv. unfold rate_here.
  pose proof (after_word_seg ":" "Rate:" (String d "") t eq_refl
                (digit_avoids_colon d Hd) Hv "" (String d "") eq_refl) as H.
  change (String d "" ++ t)%string with (String d t) in H. now rewrite H.
Qed.

Lemma rates_cons_none c t :
  rate_here (String c t) = None -> rates (String c t) = rates t.
Proof.
  intros H.
  change (rates (String c t))
    with (match rate_here (String c t) with
          | Some d => [d]
          | None => []
          end ++ rates t).
  now rewrite H.
Qed.

Lemma answer_here_at number marker t rest :
  after_word (number ++ ".") t = Some rest ->
  answer_here number marker t = first_of (marker_text_here marker) rest.
Proof. intros H. unfold answer_here. now rewrite H. Qed.

Lemma marker_text_here_at marker t c rest :
  after_word marker t = Some (String c rest) ->
  marker_text_here marker t = Some (text_after answer_stop (String c rest)).
Proof. intros H. unfold marker_text_here. now rewrite H. Qed.

Lemma rstrip_last e :
  rstrip e = e -> forall u c, e = (u ++ String c "")%string -> is_space c = false.
Proof.
  revert e. intros e He u. revert e He.
  induction u as [|x u IH]; intros e He c ->.
  - rewrite str_app_nil in He. simpl in He.
    destruct (is_space c); [discriminate | reflexivity].
  - rewrite str_app_cons in He. simpl in He.
    destruct (rstrip (u ++ String c "")) as [|y r] eqn:Hr.
    + destruct (is_space x); [discriminate|]. injection He as He.
      destruct u; discriminate.
    + injection He as He. apply (IH (u ++ String c "")%string); [|reflexivity].
      now rewrite Hr.
Qed.

Lemma strip_fixed_parts e :
  strip e = e -> rstrip e = e /\ lstrip e = e.
Proof.
  intros H. unfold strip in H.
  destruct (lstrip_split e) as (ws & Hsplit & Hws).
  assert (Hlen : String.length (rstrip (lstrip e)) <= String.length (lstrip e)).
  { generalize (lstrip e). intros s. induction s as [|c s IHs]; simpl; [lia|].
    destruct (rstrip s); [destruct (is_space c)|]; simpl in *; lia. }
  assert (Hws0 : ws = "").
  { apply (f_equal String.length) in Hsplit. rewrite str_length_app in Hsplit.
    rewrite H in Hlen. destruct ws; [reflexivity | simpl in Hsplit; lia]. }
  subst ws. rewrite str_app_nil in Hsplit. rewrite <- Hsplit in H. now split.
Qed.

(** The group of an answer is the whole of a plain text. *)
Lemma take_until_plain e tail :
  (forall x, In x (list_ascii_of_string e) -> is_digit x = false) ->
  (forall u c, e = (u ++ String c "")%string -> is_space c = false) ->
  answer_stop tail = true ->
  match tail with
  | EmptyString => true
  | String y _ => Ascii.eqb y newline
  end = true ->
  forall s, (exists u, e = (u ++ s)%string) -> s <> "" ->
            take_until answer_stop (s ++ tail) = (s ++ take_until answer_stop tail)%string.
Proof.
  intros Hd Hlast Hstop Htail. induction s as [|x s IH]; intros [u Hu] Hne; [contradiction|].
  rewrite !str_app_cons. cbn [take_until].
  assert (Hns : answer_stop (String x (s ++ tail)) = false).
  { unfold answer_stop. apply orb_false_iff. split.
    - destruct s as [|y s].
      + rewrite str_app_nil. destruct tail as [|z tail]; [|reflexivity].
        specialize (Hlast u x Hu). apply not_space_not_newline in Hlast. exact Hlast.
      + now rewrite str_app_cons.
    - unfold next_question. destruct s as [|y s].
      + rewrite str_app_nil. destruct tail as [|z tail]; [reflexivity|].
        apply Ascii.eqb_eq in Htail. subst z. now rewrite andb_false_r.
      + rewrite str_app_cons.
        assert (Hy : is_digit y = false).
        { apply Hd. rewrite Hu. apply in_str_app. right. right. now left. }
        rewrite Hy. now rewrite andb_false_r. }
  rewrite Hns. f_equal. destruct s as [|y s].
  - now rewrite !str_app_nil.
  - apply IH; [|discriminate]. exists (u ++ String x "")%string.
    now rewrite str_app_assoc.
Qed.

Lemma text_after_plain e tail :
  plain e = true ->
  answer_stop tail = true ->
  match tail with
  | EmptyString => true
  | String y _ => Ascii.eqb y newline
  end = true ->
  text_after answer_stop (String " " (e ++ tail)) = e.
Proof.
  intros Hp Hstop Htail. apply plain_parts in Hp as (Hne & Hs & Hc).
  apply strip_fixed_parts in Hs as [Hr Hl].
  unfold text_after. change (lstrip (String " " (e ++ tail))) with (lstrip (e ++ tail)).
  destruct e as [|x e]; [contradiction|].
  assert (Hx : is_space x = false).
  { simpl in Hl. destruct (is_space x) eqn:E; [|reflexivity].
    exfalso. pose proof (lstrip_split e) as (ws & Hsplit & _). rewrite Hl in Hsplit.
    apply (f_equal String.length) in Hsplit. rewrite str_length_app in Hsplit.
    simpl in Hsplit. lia. }
  rewrite str_app_cons. cbn [lstrip]. rewrite Hx.
  assert (Ht : take_until answer_stop (e ++ tail) = e).
  { destruct e as [|y e].
    - rewrite str_app_nil. destruct tail; simpl; [reflexivity|]. cbn [take_until].
      now rewrite Hstop.
    - rewrite (take_until_plain (String x (String y e)) tail); try assumption.
      + assert (Ht : take_until answer_stop tail = "").
        { destruct tail; [reflexivity|]. cbn [take_until]. now rewrite Hstop. }
        now rewrite Ht, str_app_empty_r.
      + intros z Hz. now apply Hc.
      + apply rstrip_last. exact Hr.
      + now exists (String x "").
      + discriminate. }
  rewrite Ht. unfold strip. cbn [lstrip]. rewrite Hx. exact Hr.
Qed.

Lemma digit_of_spec z :
  (0 <= z <= 9)%Z -> is_digit (digit_of z) = true /\ digit_value (digit_of z) = z.
Proof.
  intros H.
  assert (Hz : In z [0; 1; 2; 3; 4; 5; 6; 7; 8; 9]%Z).
  { assert (z = 0 \/ z = 1 \/ z = 2 \/ z = 3 \/ z = 4 \/ z = 5 \/ z = 6 \/ z = 7
            \/ z = 8 \/ z = 9)%Z as Hc by lia.
    simpl. intuition. }
  simpl in Hz.
  repeat (destruct Hz as [<-|Hz]; [split; vm_compute; reflexivity|]). contradiction.
Qed.

End ReplySkips.

Section ReplyRoundTrip.
Import Py Re Markers Scan Utils Reply.

Lemma text_after_plain_end e :
  plain e = true -> text_after answer_stop (String " " e) = e.
Proof.
  intros H. rewrite <- (str_app_empty_r e) at 1. now apply text_after_plain.
Qed.

Lemma rates_plain_end e : plain e = true -> rates e = [].
Proof.
  intros H. rewrite <- (str_app_empty_r e).
  rewrite (rates_seg ":"); [reflexivity | reflexivity | now apply plain_avoids_colon
                           | reflexivity].
Qed.

Lemma rates_at t d rest :
  after_word "Rate:" t = Some (String " " (String d rest)) ->
  is_digit d = true ->
  rates t = d :: rates rest.
Proof.
  intros Hw Hd. apply (rates_hit t (String " " "") d rest Hw); [|exact Hd].
  intros c [<-|[]]. reflexivity.
Qed.

(** The reply with its parts in a row. *)
Ltac sorted_reply :=
  unfold survey_reply, rated, answered; cbn [join];
  repeat rewrite ?str_app_assoc, ?str_app_cons, ?str_app_nil.

Ltac skip_to_question :=
  repeat first
    [ rewrite first_of_cons_none by reflexivity
    | rewrite first_of_cons_none
        by (apply answer_here_digit; [assumption | reflexivity | reflexivity])
    | rewrite (answer_skip "1") by (first [now apply plain_avoids_digit | reflexivity])
    | rewrite (answer_skip "2") by (first [now apply plain_avoids_digit | reflexivity])
    | rewrite (answer_skip "3") by (first [now apply plain_avoids_digit | reflexivity])
    | rewrite (answer_skip "4") by (first [now apply plain_avoids_digit | reflexivity])
    | rewrite (answer_skip "5") by (first [now apply plain_avoids_digit | reflexivity])
    | rewrite (answer_skip "6") by (first [now apply plain_avoids_digit | reflexivity])
    | rewrite (answer_skip "7") by (first [now apply plain_avoids_digit | reflexivity])
    | rewrite (answer_skip "8") by (first [now apply plain_avoids_digit | reflexivity])
    | rewrite (answer_skip "9") by (first [now apply plain_avoids_digit | reflexivity]) ].

Ltac skip_to_marker :=
  repeat first
    [ rewrite first_of_cons_none by reflexivity
    | rewrite first_of_cons_none
        by (apply marker_here_digit; [assumption | reflexivity | reflexivity]) ].

Ltac read_answer :=
  unfold scan_answer; sorted_reply; skip_to_question;
  erewrite first_of_here;
  [reflexivity
  |erewrite answer_here_at by reflexivity;
   skip_to_marker;
   erewrite first_of_here;
   [reflexivity
   |erewrite marker_text_here_at by reflexivity;
    first [ rewrite text_after_plain by (assumption || reflexivity)
          | rewrite text_after_plain_end by assumption ];
    reflexivity]].

Ltac skip_to_rate :=
  repeat first
    [ rewrite rates_cons_none by reflexivity
    | rewrite (rates_seg ":") by (first [now apply plain_avoids_colon | reflexivity]) ].

Lemma reply_answers fb :
  Forall (fun z => (0 <= z <= 9)%Z)
    [realistic fb; felt_safe fb; helpful_feedback fb; would_recommend fb;
     confidence fb] ->
  Forall (fun t => plain t = true)
    [realistic_explain fb; felt_safe_explain fb; helpful_feedback_explain fb;
     would_recommend_explain fb; confidence_explain fb;
     most_valuable_scenario fb; likely_strategy fb; what_worked fb;
     improvements fb; cultural_relevance fb] ->
  scan_answer "1" "Explain:" "" (survey_reply fb) = realistic_explain fb /\
  scan_answer "2" "Explain:" "" (survey_reply fb) = felt_safe_explain fb /\
  scan_answer "3" "Explain:" "" (survey_reply fb) = helpful_feedback_explain fb /\
  scan_answer "4" "Explain:" "" (survey_reply fb) = would_recommend_explain fb /\
  scan_answer "5" "Explain:" "" (survey_reply fb) = confidence_explain fb /\
  scan_answer "6" "Answer:" "" (survey_reply fb) = most_valuable_scenario fb /\
  scan_answer "7" "Answer:" "" (survey_reply fb) = likely_strategy fb /\
  scan_answer "8" "Answer:" "" (survey_reply fb) = what_worked fb /\
  scan_answer "9" "Answer:" "" (survey_reply fb) = improvements fb /\
  scan_answer "10" "Answer:" "" (survey_reply fb) = cultural_relevance fb.
Proof.
  intros Hz Hp.
  repeat match goal with H : Forall _ (_ :: _) |- _ => inversion H; subst; clear H end.
  repeat match goal with H : (0 <= ?z <= 9)%Z |- _ =>
    apply digit_of_spec in H; destruct H as [? ?] end.
  repeat split; read_answer.
Qed.

Lemma reply_ratings fb :
  Forall (fun z => (0 <= z <= 9)%Z)
    [realistic fb; felt_safe fb; helpful_feedback fb; would_recommend fb;
     confidence fb] ->
  Forall (fun t => plain t = true)
    [realistic_explain fb; felt_safe_explain fb; helpful_feedback_explain fb;
     would_recommend_explain fb; confidence_explain fb;
     most_valuable_scenario fb; likely_strategy fb; what_worked fb;
     improvements fb; cultural_relevance fb] ->
  scan_ratings (survey_reply fb) =
  (realistic fb, felt_safe fb, helpful_feedback fb, would_recommend fb, confidence fb).
Proof.
  intros Hz Hp.
  repeat match goal with H : Forall _ (_ :: _) |- _ => inversion H; subst; clear H end.
  repeat match goal with H : (0 <= ?z <= 9)%Z |- _ =>
    apply digit_of_spec in H; destruct H as [? ?] end.
  assert (Hr : rates (survey_reply fb) =
               [digit_of (realistic fb); digit_of (felt_safe fb);
                digit_of (helpful_feedback fb); digit_of (would_recommend fb);
                digit_of (confidence fb)]).
  { sorted_reply.
    do 5 (skip_to_rate; erewrite rates_at by (reflexivity || assumption); f_equal).
    skip_to_rate. now apply rates_plain_end. }
  unfold scan_ratings. rewrite Hr. congruence.
Qed.

Lemma reply_not_empty fb : survey_reply fb <> "".
Proof. unfold survey_reply, rated. cbn [join]. rewrite !str_app_cons. discriminate. Qed.

(** X24.  A well-formed reply is read back: when the five ratings are between
    0 and 9 and the ten texts are plain (not empty, no white space at their
    ends, no digit and no colon), the survey parser gives back, from the
    reply that states them question by question, each rating and each text,
    with the reply as raw response. *)
Theorem survey_reply_round_trip (fb : feedback) :
  Forall (fun z => (0 <= z <= 9)%Z)
    [realistic fb; felt_safe fb; helpful_feedback fb; would_recommend fb;
     confidence fb] ->
  Forall (fun t => plain t = true)
    [realistic_explain fb; felt_safe_explain fb; helpful_feedback_explain fb;
     would_recommend_explain fb; confidence_explain fb;
     most_valuable_scenario fb; likely_strategy fb; what_worked fb;
     improvements fb; cultural_relevance fb] ->
  parse_feedback_response (PyStr (survey_reply fb)) =
  Ok {| realistic := realistic fb;
        realistic_explain := realistic_explain fb;
        felt_safe := felt_safe fb;
        felt_safe_explain := felt_safe_explain fb;
        helpful_feedback := helpful_feedback fb;
        helpful_feedback_explain := helpful_feedback_explain fb;
        would_recommend := would_recommend fb;
        would_recommend_explain := would_recommend_explain fb;
        confidence := confidence fb;
        confidence_explain := confidence_explain fb;
        most_valuable_scenario := most_valuable_scenario fb;
        likely_strategy := likely_strategy fb;
        what_worked := what_worked fb;
        improvements := improvements fb;
        cultural_relevance := cultural_relevance fb;
        raw_response := survey_reply fb |}.
Proof.
  intros Hz Hp. rewrite (parse_feedback_scan _ (reply_not_empty fb)).
  unfold scan_feedback. rewrite (reply_ratings fb Hz Hp).
  destruct (reply_answers fb Hz Hp)
    as (E1 & E2 & E3 & E4 & E5 & E6 & E7 & E8 & E9 & E10).
  now rewrite E1, E2, E3, E4, E5, E6, E7, E8, E9, E10.
Qed.

Lemma survey_reply_round_trip_witness :
  let fb := {| realistic := 4; realistic_explain := "It felt real.";
               felt_safe := 5; felt_safe_explain := "Yes, throughout";
               helpful_feedback := 3; helpful_feedback_explain := "Mostly";
               would_recommend := 4; would_recommend_explain := "To first years";
               confidence := 2; confidence_explain := "Still unsure";
               most_valuable_scenario := "Party Observation";
               likely_strategy := "Distraction, it is safer";
               what_worked := "The feedback";
               improvements := "More scenarios";
               cultural_relevance := "Inclusive enough";
               raw_response := "" |} in
  parse_feedback_response (PyStr (survey_reply fb)) =
  Ok {| realistic := 4; realistic_explain := "It felt real.";
        felt_safe := 5; felt_safe_explain := "Yes, throughout";
        helpful_feedback := 3; helpful_feedback_explain := "Mostly";
        would_recommend := 4; would_recommend_explain := "To first years";
        confidence := 2; confidence_explain := "Still unsure";
        most_valuable_scenario := "Party Observation";
        likely_strategy := "Distraction, it is safer";
        what_worked := "The feedback";
        improvements := "More scenarios";
        cultural_relevance := "Inclusive enough";
        raw_response := survey_reply fb |}.
Proof.
  intros fb. apply (survey_reply_round_trip fb).
  - repeat constructor; cbn; lia.
  - repeat constructor; vm_compute; reflexivity.
Defined.

End ReplyRoundTrip.

(* ===================================================================== *)
(** ** The agent's stated choice is the one recorded *)
(* ===================================================================== *)

Section StatedChoice.
Import Py Re Sim Markers Utils.

(** X25.  When the agent says its choice in the format the prompt asks for,
    and the label (in upper case) is a key of the options, the record of
    the decision has that label, the reasoning as the agent gave it, and
    the text and the feedback of the option; no draw is made. *)
Theorem decision_follows_reply sim p dp st c r o :
  replies p (calls st) =
    Ok [ActionDict "TALK"
          ("CHOICE: " ++ String c (String newline ("REASONING: " ++ r)))] ->
  is_label c = true ->
  strip r = r ->
  option_get (str_upper (String c "")) (dp_options dp) = Some o ->
  simulate_decision_point sim p dp st =
  (Ok (DecisionRecord (dp_id dp) (str_upper (String c "")) (opt_text o) r
         (opt_feedback o)),
   JState (draws st) (S (calls st)) (journey st) (scenario_result st)).
Proof.
  intros Hr Hc Hs Ho. unfold simulate_decision_point.
  erewrite bind_ok by (unfold listen_and_act; rewrite Hr; reflexivity).
  change (_extract_talk_text
            [ActionDict "TALK"
               ("CHOICE: " ++ String c (String newline ("REASONING: " ++ r)))])
    with (@Ok string
            ("CHOICE: " ++ String c (String newline ("REASONING: " ++ r)))%string).
  erewrite bind_ok by reflexivity.
  erewrite bind_ok by (unfold lift; rewrite (decision_reply_text c r Hc Hs); reflexivity).
  unfold resolve_decision, has_key. cbn [fst snd]. rewrite Ho. cbn [negb].
  erewrite bind_ok by reflexivity.
  erewrite bind_ok by (unfold lift, option_item; cbn [fst]; rewrite Ho; reflexivity).
  reflexivity.
Qed.

Lemma decision_follows_reply_witness :
  let dp := DecisionPoint "d1" "What do you do?"
              [("A", ChoiceOption "Step in" ["direct_intervention"] "Good");
               ("B", ChoiceOption "Walk away" [] "Hm")] in
  let sim := Simulator [] (fun n => n) message in
  let p := Persona "P" "" "" (fun _ =>
             Ok [ActionDict "TALK"
                   ("CHOICE: " ++ String "b" (String newline
                      ("REASONING: " ++ "I avoid conflict.")))]) in
  simulate_decision_point sim p dp (start p 5) =
  (Ok (DecisionRecord "d1" (str_upper (String "b" "")) "Walk away" "I avoid conflict." "Hm"),
   JState 5 1 (new_journey p) None).
Proof.
  intros dp sim p.
  apply (decision_follows_reply sim p dp (start p 5) "b" "I avoid conflict."
           (ChoiceOption "Walk away" [] "Hm")); vm_compute; reflexivity.
Defined.

End StatedChoice.
